(** * Numeric functions of the SQL layer: a shallow embedding of sql/item_func.cc

    The development follows the source file top-down: machine integers and
    the evaluation state first, then the type resolution of the arithmetic
    operators ([fix_length_and_dec], [result_precision]), then their
    evaluation in the integer, real and decimal domains, the rounding
    functions and LEAST/GREATEST.  Theorems come after all definitions. *)

From Stdlib Require Import ZArith Lia List Bool Floats.
From Stdlib.Strings Require Byte.
Import ListNotations.
Local Open Scope Z_scope.

(** ** 64-bit integers

    A [longlong] is a [Z] in [LONGLONG_MIN .. LONGLONG_MAX]; a [ulonglong] a
    [Z] in [0 .. ULONGLONG_MAX].  Arithmetic on [ulonglong] and the
    conversions between the two types wrap around 2^64, which is written
    out here.  The signed sums, differences and negations of
    [Item_func_plus::int_op], [Item_func_minus::int_op] and
    [Item_func_int_div::val_int], which C++ leaves undefined when they
    overflow, are given no value: see [signed] and [behaviour] below.  The
    negation of [LONGLONG_MIN] that multiplication, modulo and the rounding
    functions convert to [ulonglong] at once is written with its two's
    complement value. *)

Definition LONGLONG_MAX : Z := 9223372036854775807.
Definition LONGLONG_MIN : Z := -9223372036854775808.
Definition ULONGLONG_MAX : Z := 18446744073709551615.
Definition INT_MAX : Z := 2147483647.
Definition INT_MIN : Z := -2147483648.

(** The cast [(ulonglong) z]. *)
Definition ulonglong (z : Z) : Z := z mod 18446744073709551616.

(** The cast [(longlong) z]. *)
Definition longlong (z : Z) : Z :=
  (z + 9223372036854775808) mod 18446744073709551616 - 9223372036854775808.

Definition is_longlong (z : Z) : Prop := LONGLONG_MIN <= z <= LONGLONG_MAX.

(** The number a [longlong] stands for, given its [unsigned_flag]. *)
Definition int_value (unsigned_flag : bool) (v : Z) : Z :=
  if unsigned_flag then ulonglong v else v.

(** The numbers a BIGINT (signed) or BIGINT UNSIGNED result can hold. *)
Definition representable (unsigned_flag : bool) (x : Z) : Prop :=
  if unsigned_flag then 0 <= x <= ULONGLONG_MAX
  else LONGLONG_MIN <= x <= LONGLONG_MAX.

(** ** Session and evaluation state *)

Inductive Sql_condition : Type :=
| ER_DIVISION_BY_ZERO      (* pushed at WARN_LEVEL_WARN *)
| ER_DATA_OUT_OF_RANGE.

(** [thd->variables.sql_mode] is a bit set; every flag the file tests is one
    bit, kept here as one boolean per flag. *)
Record Sql_mode : Type := mkSql_mode {
  MODE_ERROR_FOR_DIVISION_BY_ZERO : bool;
  MODE_NO_UNSIGNED_SUBTRACTION : bool
}.

Record THD : Type := mkTHD {
  sql_mode : Sql_mode;
  div_precincrement : Z;
  warnings : list Sql_condition      (* the diagnostics area, newest first *)
}.

Definition push_warning (thd : THD) (c : Sql_condition) : THD :=
  mkTHD (sql_mode thd) (div_precincrement thd) (c :: warnings thd).

Inductive Item_result : Type :=
| STRING_RESULT | REAL_RESULT | INT_RESULT | ROW_RESULT | DECIMAL_RESULT
| TIME_RESULT.

Definition Item_result_eqb (a b : Item_result) : bool :=
  match a, b with
  | STRING_RESULT, STRING_RESULT | REAL_RESULT, REAL_RESULT
  | INT_RESULT, INT_RESULT | ROW_RESULT, ROW_RESULT
  | DECIMAL_RESULT, DECIMAL_RESULT | TIME_RESULT, TIME_RESULT => true
  | _, _ => false
  end.

(** The function node ([this]): the attributes type resolution fixes and the
    [null_value] an evaluation leaves behind. *)
Record Item_func : Type := mkItem_func {
  result_type : Item_result;     (* as set by set_handler_by_result_type *)
  decimals : Z;
  max_length : Z;
  unsigned_flag : bool;
  maybe_null : bool;
  null_value : bool
}.

Definition set_handler_by_result_type (this : Item_func) (r : Item_result) :=
  mkItem_func r (decimals this) (max_length this) (unsigned_flag this)
    (maybe_null this) (null_value this).
Definition set_decimals (this : Item_func) (d : Z) :=
  mkItem_func (result_type this) d (max_length this) (unsigned_flag this)
    (maybe_null this) (null_value this).
Definition set_max_length (this : Item_func) (l : Z) :=
  mkItem_func (result_type this) (decimals this) l (unsigned_flag this)
    (maybe_null this) (null_value this).
Definition set_unsigned_flag (this : Item_func) (u : bool) :=
  mkItem_func (result_type this) (decimals this) (max_length this) u
    (maybe_null this) (null_value this).
Definition set_maybe_null (this : Item_func) (m : bool) :=
  mkItem_func (result_type this) (decimals this) (max_length this)
    (unsigned_flag this) m (null_value this).
Definition set_null_value (this : Item_func) (n : bool) :=
  mkItem_func (result_type this) (decimals this) (max_length this)
    (unsigned_flag this) (maybe_null this) n.

(** What an evaluation method yields: the returned value, the node and the
    session after the call. *)
Definition eval (A : Type) : Type := (A * Item_func * THD)%type.

Definition returned {A} (r : eval A) : A := fst (fst r).
Definition node_after {A} (r : eval A) : Item_func := snd (fst r).
Definition thd_after {A} (r : eval A) : THD := snd r.
Definition is_null {A} (r : eval A) : bool := null_value (node_after r).

(** An evaluated integer operand: [args[i]->val_int()], [args[i]->null_value]
    and [args[i]->unsigned_flag]. *)
Record int_arg : Type := mk_int_arg {
  val_int : Z;
  arg_null_value : bool;
  arg_unsigned_flag : bool
}.

(** The number an integer operand stands for. *)
Definition arg_value (a : int_arg) : Z :=
  int_value (arg_unsigned_flag a) (val_int a).

(** [Item_func::signal_divide_by_null]. *)
Definition signal_divide_by_null (this : Item_func) (thd : THD)
  : Item_func * THD :=
  let thd :=
    if MODE_ERROR_FOR_DIVISION_BY_ZERO (sql_mode thd)
    then push_warning thd ER_DIVISION_BY_ZERO
    else thd in
  (set_null_value this true, thd).

(** Modelled from the spec: [raise_integer_overflow] is declared in
    item_func.h, which is not part of the sources at hand.  The spec's overflow
    outcome: the overflow is reported on the diagnostics sink and the result is
    NULL, the returned payload being 0. *)
Definition raise_integer_overflow (this : Item_func) (thd : THD) : eval Z :=
  (0, set_null_value this true, push_warning thd ER_DATA_OUT_OF_RANGE).

(** Modelled from the spec: [check_integer_overflow] is declared in
    item_func.h.  The result is given as a pair (value, val_unsigned); it is
    compatible with the node's [unsigned_flag] unless it is negative in an
    unsigned node or above [LONGLONG_MAX] in a signed one. *)
Definition check_integer_overflow (this : Item_func) (thd : THD)
    (value : Z) (val_unsigned : bool) : eval Z :=
  if (unsigned_flag this && negb val_unsigned && (value <? 0))
     || (negb (unsigned_flag this) && val_unsigned
         && (LONGLONG_MAX <? ulonglong value))
  then raise_integer_overflow this thd
  else (value, this, thd).

(** ** Signed operations that overflow

    C++ leaves a signed operation undefined when its result is not a value of
    its type.  [signed z] is what a [longlong] operation with the exact
    result [z] yields: [None] when the operation is undefined. *)
Definition signed (z : Z) : option Z :=
  if (LONGLONG_MIN <=? z) && (z <=? LONGLONG_MAX) then Some z else None.

(** What a method does that executes such operations: [Undefined] as soon as
    one of them is undefined, and then nothing is known of the value, the
    NULL state or the diagnostics; [Defined r] otherwise, with the evaluation
    [r]. *)
Inductive behaviour (A : Type) : Type :=
| Defined (r : eval A)
| Undefined.

Arguments Defined {A} r.
Arguments Undefined {A}.

(** [test_if_sum_overflows_ull]. *)
Definition test_if_sum_overflows_ull (arg1 arg2 : Z) : bool :=
  ULONGLONG_MAX - arg1 <? arg2.

(** ** Integer evaluation of the additive operators *)

(** [Item_func_plus::int_op].  The signed sum [val0 + val1] is computed
    first, before the NULL test and whatever the signedness of the
    operands. *)
Definition Item_func_plus_int_op (this : Item_func) (thd : THD)
    (a0 a1 : int_arg) : behaviour Z :=
  let val0 := val_int a0 in
  let val1 := val_int a1 in
  match signed (val0 + val1) with
  | None => Undefined
  | Some res =>
      Defined
        (let this :=
           set_null_value this (arg_null_value a0 || arg_null_value a1) in
         if null_value this then (0, this, thd) else
         let err := raise_integer_overflow this thd in
         if arg_unsigned_flag a0 then
           if arg_unsigned_flag a1 || (0 <=? val1) then
             if test_if_sum_overflows_ull (ulonglong val0) (ulonglong val1)
             then err
             else check_integer_overflow this thd res true
           else
             (* val1 is negative *)
             check_integer_overflow this thd res
               (LONGLONG_MAX <? ulonglong val0)
         else
           if arg_unsigned_flag a1 then
             if 0 <=? val0 then
               if test_if_sum_overflows_ull (ulonglong val0) (ulonglong val1)
               then err
               else check_integer_overflow this thd res true
             else
               check_integer_overflow this thd res
                 (LONGLONG_MAX <? ulonglong val1)
           else
             if (0 <=? val0) && (0 <=? val1) then
               check_integer_overflow this thd res true
             else if (val0 <? 0) && (val1 <? 0) && (0 <=? res) then err
             else check_integer_overflow this thd res false)
  end.

(** [Item_func_minus::int_op].  The signed difference [val0 - val1] is
    computed first; [-val1] and [val0 - LONGLONG_MIN] are signed operations
    too, converted to [ulonglong] afterwards. *)
Definition Item_func_minus_int_op (this : Item_func) (thd : THD)
    (a0 a1 : int_arg) : behaviour Z :=
  let val0 := val_int a0 in
  let val1 := val_int a1 in
  match signed (val0 - val1) with
  | None => Undefined
  | Some res =>
      let this :=
        set_null_value this (arg_null_value a0 || arg_null_value a1) in
      if null_value this then Defined (0, this, thd) else
      let err := raise_integer_overflow this thd in
      if arg_unsigned_flag a0 then
        if arg_unsigned_flag a1 then
          Defined
            (if ulonglong val0 <? ulonglong val1 then
               if 0 <=? res then err
               else check_integer_overflow this thd res false
             else check_integer_overflow this thd res true)
        else
          if 0 <=? val1 then
            Defined
              (check_integer_overflow this thd res
                 (ulonglong val1 <? ulonglong val0))
          else
            match signed (- val1) with
            | None => Undefined
            | Some neg_val1 =>
                Defined
                  (if test_if_sum_overflows_ull (ulonglong val0)
                        (ulonglong neg_val1)
                   then err
                   else check_integer_overflow this thd res true)
            end
      else
        if arg_unsigned_flag a1 then
          match signed (val0 - LONGLONG_MIN) with
          | None => Undefined
          | Some diff =>
              Defined
                (if ulonglong diff <? ulonglong val1 then err
                 else check_integer_overflow this thd res false)
          end
        else
          Defined
            (if (0 <? val0) && (val1 <? 0) then
               check_integer_overflow this thd res true
             else if (val0 <? 0) && (0 <? val1) && (0 <=? res) then err
             else check_integer_overflow this thd res false)
  end.

(** ** Integer multiplication *)

(** [Item_func_mul::int_op].  [a0], [a1], [b0], [b1] are the 32-bit halves of
    the absolute values; [res1] and [res0] are [ulonglong]s. *)
Definition Item_func_mul_int_op (this : Item_func) (thd : THD)
    (arg0 arg1 : int_arg) : eval Z :=
  let a := val_int arg0 in
  let b := val_int arg1 in
  let this := set_null_value this (arg_null_value arg0 || arg_null_value arg1) in
  if null_value this then (0, this, thd) else
  let err := raise_integer_overflow this thd in
  let a_negative := negb (arg_unsigned_flag arg0) && (a <? 0) in
  let a := if a_negative then longlong (- a) else a in
  let b_negative := negb (arg_unsigned_flag arg1) && (b <? 0) in
  let b := if b_negative then longlong (- b) else b in
  let a0 := Z.land 4294967295 (ulonglong a) in
  let a1 := Z.shiftr (ulonglong a) 32 in
  let b0 := Z.land 4294967295 (ulonglong b) in
  let b1 := Z.shiftr (ulonglong b) 32 in
  if negb (a1 =? 0) && negb (b1 =? 0) then err else
  let res1 := ulonglong (a1 * b0 + a0 * b1) in
  if 4294967295 <? res1 then err else
  let res1 := ulonglong (Z.shiftl res1 32) in
  let res0 := ulonglong (a0 * b0) in
  if test_if_sum_overflows_ull res1 res0 then err else
  let res := longlong (res1 + res0) in
  if negb (Bool.eqb a_negative b_negative) then
    if ulonglong LONGLONG_MIN + 1 <? ulonglong res then err
    else check_integer_overflow this thd (longlong (- res)) false
  else check_integer_overflow this thd res true.

(** ** Integer division and modulo *)

(** The integer branch of [Item_func_int_div::val_int] (both operands of
    [INT_RESULT]); C++ [/] on [ulonglong] is [Z.div] on non-negative
    numbers.  [-val0] and [-val1] are signed negations; [(longlong) res] is
    not negative where it is negated. *)
Definition Item_func_int_div_val_int_int (this : Item_func) (thd : THD)
    (a0 a1 : int_arg) : behaviour Z :=
  let val0 := val_int a0 in
  let val1 := val_int a1 in
  let this := set_null_value this (arg_null_value a0 || arg_null_value a1) in
  if null_value this then Defined (0, this, thd) else
  if val1 =? 0 then
    let '(this, thd) := signal_divide_by_null this thd in
    Defined (0, this, thd)
  else
  let val0_negative := negb (arg_unsigned_flag a0) && (val0 <? 0) in
  let val1_negative := negb (arg_unsigned_flag a1) && (val1 <? 0) in
  let res_negative := negb (Bool.eqb val0_negative val1_negative) in
  match (if val0_negative then signed (- val0) else Some val0),
        (if val1_negative then signed (- val1) else Some val1) with
  | Some abs0, Some abs1 =>
      let uval0 := ulonglong abs0 in
      let uval1 := ulonglong abs1 in
      let res := uval0 / uval1 in
      Defined
        (if res_negative then
           if LONGLONG_MAX <? res then raise_integer_overflow this thd
           else
             let res := ulonglong (- longlong res) in
             check_integer_overflow this thd (longlong res)
               (negb res_negative)
         else
           check_integer_overflow this thd (longlong res)
             (negb res_negative))
  | _, _ => Undefined
  end.

(** [Item_func_mod::int_op]; C++ [%] on [ulonglong] is [Z.modulo] on
    non-negative numbers. *)
Definition Item_func_mod_int_op (this : Item_func) (thd : THD)
    (a0 a1 : int_arg) : eval Z :=
  let val0 := val_int a0 in
  let val1 := val_int a1 in
  let this := set_null_value this (arg_null_value a0 || arg_null_value a1) in
  if null_value this then (0, this, thd) else
  if val1 =? 0 then
    let '(this, thd) := signal_divide_by_null this thd in (0, this, thd)
  else
  let val0_negative := negb (arg_unsigned_flag a0) && (val0 <? 0) in
  let val1_negative := negb (arg_unsigned_flag a1) && (val1 <? 0) in
  let uval0 := ulonglong (if val0_negative then longlong (- val0) else val0) in
  let uval1 := ulonglong (if val1_negative then longlong (- val1) else val1) in
  let res := uval0 mod uval1 in
  check_integer_overflow this thd
    (if val0_negative then longlong (- longlong res) else longlong res)
    (negb val0_negative).

(** ** Unary minus and ABS in the integer domain *)

(** [Item_func_neg::int_op]. *)
Definition Item_func_neg_int_op (this : Item_func) (thd : THD)
    (a0 : int_arg) : eval Z :=
  let value := val_int a0 in
  let this := set_null_value this (arg_null_value a0) in
  if null_value this then (0, this, thd) else
  if arg_unsigned_flag a0 && (ulonglong LONGLONG_MAX + 1 <? ulonglong value)
  then raise_integer_overflow this thd
  else if value =? LONGLONG_MIN then
    if negb (Bool.eqb (arg_unsigned_flag a0) (unsigned_flag this)) then
      (* negation of LONGLONG_MIN is LONGLONG_MIN. *)
      (LONGLONG_MIN, this, thd)
    else raise_integer_overflow this thd
  else
    check_integer_overflow this thd (longlong (- value))
      (negb (arg_unsigned_flag a0) && (value <? 0)).

(** [Item_func_abs::int_op]. *)
Definition Item_func_abs_int_op (this : Item_func) (thd : THD)
    (a0 : int_arg) : eval Z :=
  let value := val_int a0 in
  let this := set_null_value this (arg_null_value a0) in
  if null_value this then (0, this, thd) else
  if unsigned_flag this then (value, this, thd) else
  (* -LONGLONG_MIN = LONGLONG_MAX + 1 => outside of signed longlong range *)
  if value =? LONGLONG_MIN then raise_integer_overflow this thd
  else ((if 0 <=? value then value else - value), this, thd).

(** ** Real and decimal evaluation of division and modulo *)

(** An evaluated real operand: [args[i]->val_real()] and
    [args[i]->null_value]. *)
Record real_arg : Type := mk_real_arg {
  val_real : float;
  real_null_value : bool
}.

(** [std::isfinite]: neither an infinity nor a NaN. *)
Definition isfinite (x : float) : bool := PrimFloat.is_finite x.

(** Modelled from the spec: [check_float_overflow] is declared in
    item_func.h.  Every real result passes through it; a result that is not
    finite is the overflow outcome. *)
Definition check_float_overflow (this : Item_func) (thd : THD)
    (value : float) : eval float :=
  if isfinite value then (value, this, thd)
  else (0%float, set_null_value this true,
        push_warning thd ER_DATA_OUT_OF_RANGE).

(** [Item_func_div::real_op]. *)
Definition Item_func_div_real_op (this : Item_func) (thd : THD)
    (a0 a1 : real_arg) : eval float :=
  let value := val_real a0 in
  let val2 := val_real a1 in
  let this :=
    set_null_value this (real_null_value a0 || real_null_value a1) in
  if null_value this then (0%float, this, thd) else
  if PrimFloat.eqb val2 0 then
    let '(this, thd) := signal_divide_by_null this thd in (0%float, this, thd)
  else check_float_overflow this thd (value / val2)%float.

(** [Item_func_mod::real_op]; [fmod] is the C library's. *)
Definition Item_func_mod_real_op (fmod : float -> float -> float)
    (this : Item_func) (thd : THD) (a0 a1 : real_arg) : eval float :=
  let value := val_real a0 in
  let val2 := val_real a1 in
  let this :=
    set_null_value this (real_null_value a0 || real_null_value a1) in
  if null_value this then (0%float, this, thd) else
  if PrimFloat.eqb val2 0 then
    let '(this, thd) := signal_divide_by_null this thd in (0%float, this, thd)
  else (fmod value val2, this, thd).

(** Status codes of the decimal package (decimal.h). *)
Definition E_DEC_OK : Z := 0.
Definition E_DEC_TRUNCATED : Z := 1.
Definition E_DEC_OVERFLOW : Z := 2.
Definition E_DEC_DIV_ZERO : Z := 4.
Definition E_DEC_BAD_NUM : Z := 8.
Definition E_DEC_OOM : Z := 16.
Definition E_DEC_FATAL_ERROR : Z := 30.

(** Modelled from the spec: the decimal package is an external collaborator,
    consumed through its interface.  Each primitive returns a status (one of
    the codes above) together with its result. *)
Record Decimal_package : Type := mkDecimal_package {
  my_decimal : Type;
  decimal_div : my_decimal -> my_decimal -> Z -> Z * my_decimal;
  decimal_mod : my_decimal -> my_decimal -> Z * my_decimal;
  decimal_round : my_decimal -> Z -> bool -> Z * my_decimal;
  decimal2longlong : my_decimal -> bool -> Z * Z
}.

Section Decimal.
Variable P : Decimal_package.

(** An evaluated decimal operand. *)
Record dec_arg : Type := mk_dec_arg {
  val_decimal : my_decimal P;
  dec_null_value : bool
}.

(** Modelled from the spec: the [my_decimal_*] wrappers (my_decimal.h) take a
    mask of statuses; a status inside the mask is reported on the diagnostics
    sink by the package, a status outside of it is only returned. *)
Definition check_result (mask : Z) (thd : THD) (status : Z) : THD :=
  if Z.land status mask =? 0 then thd
  else push_warning thd ER_DATA_OUT_OF_RANGE.

Definition my_decimal_div (mask : Z) (thd : THD) (a b : my_decimal P)
    (scale_incr : Z) : Z * my_decimal P * THD :=
  let '(st, q) := decimal_div P a b scale_incr in (st, q, check_result mask thd st).

Definition my_decimal_mod (mask : Z) (thd : THD) (a b : my_decimal P)
  : Z * my_decimal P * THD :=
  let '(st, q) := decimal_mod P a b in (st, q, check_result mask thd st).

Definition my_decimal_round (mask : Z) (thd : THD) (a : my_decimal P)
    (scale : Z) (truncate : bool) : Z * my_decimal P * THD :=
  let '(st, q) := decimal_round P a scale truncate in
  (st, q, check_result mask thd st).

Definition my_decimal2int (mask : Z) (thd : THD) (a : my_decimal P)
    (unsigned_flag : bool) : Z * Z * THD :=
  let '(st, v) := decimal2longlong P a unsigned_flag in
  (st, v, check_result mask thd st).

(** Modelled from the spec: [check_decimal_overflow] is declared in
    item_func.h; an overflow status is reported, every status is passed on. *)
Definition check_decimal_overflow (thd : THD) (error : Z) : Z * THD :=
  if error =? E_DEC_OVERFLOW
  then (E_DEC_OVERFLOW, push_warning thd ER_DATA_OUT_OF_RANGE)
  else (error, thd).

(** [Item_func_div::decimal_op]; [None] is the null pointer it returns. *)
Definition Item_func_div_decimal_op (prec_increment : Z) (this : Item_func)
    (thd : THD) (a0 a1 : dec_arg) : eval (option (my_decimal P)) :=
  let val1 := val_decimal a0 in
  let this := set_null_value this (dec_null_value a0) in
  if null_value this then (None, this, thd) else
  let val2 := val_decimal a1 in
  let this := set_null_value this (dec_null_value a1) in
  if null_value this then (None, this, thd) else
  let '(st, decimal_value, thd) :=
    my_decimal_div
      (Z.land (Z.land E_DEC_FATAL_ERROR (Z.lnot E_DEC_OVERFLOW))
         (Z.lnot E_DEC_DIV_ZERO))
      thd val1 val2 prec_increment in
  let '(err, thd) := check_decimal_overflow thd st in
  if 3 <? err then
    let '(this, thd) :=
      if err =? E_DEC_DIV_ZERO then signal_divide_by_null this thd
      else (this, thd) in
    (None, set_null_value this true, thd)
  else (Some decimal_value, this, thd).

(** [Item_func_mod::decimal_op]. *)
Definition Item_func_mod_decimal_op (this : Item_func) (thd : THD)
    (a0 a1 : dec_arg) : eval (option (my_decimal P)) :=
  let val1 := val_decimal a0 in
  let this := set_null_value this (dec_null_value a0) in
  if null_value this then (None, this, thd) else
  let val2 := val_decimal a1 in
  let this := set_null_value this (dec_null_value a1) in
  if null_value this then (None, this, thd) else
  let '(st, decimal_value, thd) :=
    my_decimal_mod (Z.land E_DEC_FATAL_ERROR (Z.lnot E_DEC_DIV_ZERO))
      thd val1 val2 in
  if (st =? E_DEC_TRUNCATED) || (st =? E_DEC_OK) then
    (Some decimal_value, this, thd)
  else
    let '(this, thd) :=
      if st =? E_DEC_DIV_ZERO then signal_divide_by_null this thd
      else (this, thd) in
    (None, set_null_value this true, thd).

(** The decimal branch of [Item_func_int_div::val_int], taken when an operand
    is not of [INT_RESULT]. *)
Definition Item_func_int_div_val_int_decimal (this : Item_func) (thd : THD)
    (a0 a1 : dec_arg) : eval Z :=
  let val0 := val_decimal a0 in
  let this := set_null_value this (dec_null_value a0) in
  if null_value this then (0, this, thd) else
  let val1 := val_decimal a1 in
  let this := set_null_value this (dec_null_value a1) in
  if null_value this then (0, this, thd) else
  let '(err, tmp, thd) :=
    my_decimal_div (Z.land E_DEC_FATAL_ERROR (Z.lnot E_DEC_DIV_ZERO))
      thd val0 val1 0 in
  if 3 <? err then
    let '(this, thd) :=
      if err =? E_DEC_DIV_ZERO then signal_divide_by_null this thd
      else (this, thd) in
    (0, this, thd)
  else
  let '(_, truncated, thd) :=
    my_decimal_round E_DEC_FATAL_ERROR thd tmp 0 true in
  let '(st, res, thd) :=
    my_decimal2int E_DEC_FATAL_ERROR thd truncated (unsigned_flag this) in
  if negb (Z.land st E_DEC_OVERFLOW =? 0) then
    let '(_, this, thd) := raise_integer_overflow this thd in (res, this, thd)
  else (res, this, thd).

(** [Item_func_int_div::val_int]: decimal arithmetic unless both operands are
    of [INT_RESULT]. *)
Definition Item_func_int_div_val_int (this : Item_func) (thd : THD)
    (r0 r1 : Item_result) (d0 d1 : dec_arg) (a0 a1 : int_arg)
  : behaviour Z :=
  if negb (Item_result_eqb r0 INT_RESULT)
     || negb (Item_result_eqb r1 INT_RESULT)
  then Defined (Item_func_int_div_val_int_decimal this thd d0 d1)
  else Item_func_int_div_val_int_int this thd a0 a1.

End Decimal.

(** ** Type resolution *)

(** [Item::Type]; the file at hand only tests for [INT_ITEM]. *)
Inductive Item_type : Type :=
| FIELD_ITEM | FUNC_ITEM | INT_ITEM | REAL_ITEM | NULL_ITEM | DECIMAL_ITEM
| STRING_ITEM | PARAM_ITEM | CACHE_ITEM.

Definition Item_type_eqb (a b : Item_type) : bool :=
  match a, b with
  | FIELD_ITEM, FIELD_ITEM | FUNC_ITEM, FUNC_ITEM | INT_ITEM, INT_ITEM
  | REAL_ITEM, REAL_ITEM | NULL_ITEM, NULL_ITEM | DECIMAL_ITEM, DECIMAL_ITEM
  | STRING_ITEM, STRING_ITEM | PARAM_ITEM, PARAM_ITEM
  | CACHE_ITEM, CACHE_ITEM => true
  | _, _ => false
  end.

(** An operand ([args[i]]) as type resolution sees it: its resolved
    attributes and what its accessors return. *)
Record Item : Type := mkItem {
  type : Item_type;
  cast_to_int_type : Item_result;
  item_result_type : Item_result;
  const_item : bool;
  item_unsigned_flag : bool;
  item_decimals : Z;
  item_max_length : Z;
  decimal_scale : Z;
  decimal_precision : Z;
  divisor_precision_increment : Z;
  item_val_int : Z;
  item_null_value : bool
}.

Definition UINT_MAX32 : Z := 4294967295.

(** The cast to [uint32]. *)
Definition uint32 (z : Z) : Z := z mod 4294967296.

(** Constants and helpers of item.h, item_func.h and my_decimal.h that the
    resolution code calls and that are not part of the sources at hand.  They
    are parameters of the model.  [fix_decimals_value d l] is the scale
    [fix_decimals] leaves when the scale is [d] and the length is [l];
    [fix_char_length_value n] is the [max_length] that [fix_char_length n]
    sets. *)
Record Decls : Type := mkDecls {
  NOT_FIXED_DEC : Z;
  FLOATING_POINT_DECIMALS : Z;
  DECIMAL_MAX_SCALE : Z;
  DECIMAL_MAX_PRECISION : Z;
  DECIMAL_LONGLONG_DIGITS : Z;
  float_length : Z -> Z;
  my_decimal_precision_to_length_no_truncation : Z -> Z -> bool -> Z;
  fix_char_length_value : Z -> Z;
  fix_decimals_value : Z -> Z -> Z
}.

Section Resolution.
Variable D : Decls.

Definition fix_decimals (this : Item_func) : Item_func :=
  set_decimals this (fix_decimals_value D (decimals this) (max_length this)).

Definition fix_char_length (this : Item_func) (n : Z) : Item_func :=
  set_max_length this (fix_char_length_value D n).

(** [Item_func::count_real_length]; the loop state is
    (length, decimals, max_length). *)
Definition count_real_length (this : Item_func) (items : list Item)
  : Item_func :=
  let step (st : Z * Z * Z) (it : Item) : Z * Z * Z :=
    let '(length, decimals, max_length) := st in
    let '(length, decimals) :=
      if decimals <? FLOATING_POINT_DECIMALS D then
        (Z.max length (uint32 (item_max_length it - item_decimals it)),
         Z.max decimals (item_decimals it))
      else (length, decimals) in
    (length, decimals, Z.max max_length (item_max_length it)) in
  let '(length, decimals, max_length) := fold_left step items (0, 0, 0) in
  let this := set_unsigned_flag this false in
  let this := set_decimals this decimals in
  if decimals <? FLOATING_POINT_DECIMALS D then
    let max_length := length in
    let length := uint32 (length + decimals) in
    if length <? max_length    (* If previous operation gave overflow *)
    then set_max_length this UINT_MAX32
    else set_max_length this length
  else set_max_length this max_length.

(** The operators that derive from [Item_num_op]. *)
Inductive num_op : Type := OP_PLUS | OP_MINUS | OP_MUL | OP_DIV | OP_MOD.

Definition num_op_unsigned (this : Item_func) (a0 a1 : Item) : bool :=
  (* Integer operations keep unsigned_flag if one of arguments is unsigned *)
  if Item_result_eqb (result_type this) INT_RESULT
  then item_unsigned_flag a0 || item_unsigned_flag a1
  else item_unsigned_flag a0 && item_unsigned_flag a1.

(** [Item_func_additive_op::result_precision]. *)
Definition Item_func_additive_op_result_precision (this : Item_func)
    (a0 a1 : Item) : Item_func :=
  let this := set_decimals this (Z.max (decimal_scale a0) (decimal_scale a1)) in
  let arg1_int := decimal_precision a0 - decimal_scale a0 in
  let arg2_int := decimal_precision a1 - decimal_scale a1 in
  let precision := Z.max arg1_int arg2_int + 1 + decimals this in
  let this := set_unsigned_flag this (num_op_unsigned this a0 a1) in
  set_max_length this
    (my_decimal_precision_to_length_no_truncation D precision (decimals this)
       (unsigned_flag this)).

(** [Item_func_mul::result_precision]. *)
Definition Item_func_mul_result_precision (this : Item_func) (a0 a1 : Item)
  : Item_func :=
  let this := set_unsigned_flag this (num_op_unsigned this a0 a1) in
  let this :=
    set_decimals this
      (Z.min (decimal_scale a0 + decimal_scale a1) (DECIMAL_MAX_SCALE D)) in
  let est_prec := decimal_precision a0 + decimal_precision a1 in
  let precision := Z.min est_prec (DECIMAL_MAX_PRECISION D) in
  set_max_length this
    (my_decimal_precision_to_length_no_truncation D precision (decimals this)
       (unsigned_flag this)).

(** [Item_func_div::result_precision]. *)
Definition Item_func_div_result_precision (prec_increment : Z)
    (this : Item_func) (a0 a1 : Item) : Item_func :=
  let precision :=
    Z.min (decimal_precision a0 + divisor_precision_increment a1
           + prec_increment) (DECIMAL_MAX_PRECISION D) in
  let this := set_unsigned_flag this (num_op_unsigned this a0 a1) in
  let this :=
    set_decimals this
      (Z.min (decimal_scale a0 + prec_increment) (DECIMAL_MAX_SCALE D)) in
  set_max_length this
    (my_decimal_precision_to_length_no_truncation D precision (decimals this)
       (unsigned_flag this)).

(** [Item_func_mod::result_precision]. *)
Definition Item_func_mod_result_precision (this : Item_func) (a0 a1 : Item)
  : Item_func :=
  let this := set_unsigned_flag this (item_unsigned_flag a0) in
  let this := set_decimals this (Z.max (decimal_scale a0) (decimal_scale a1)) in
  let prec := Z.max (decimal_precision a0) (decimal_precision a1) in
  fix_char_length this
    (my_decimal_precision_to_length_no_truncation D prec (decimals this)
       (unsigned_flag this)).

(** The virtual [result_precision] of each operator. *)
Definition result_precision (op : num_op) (prec_increment : Z)
    (this : Item_func) (a0 a1 : Item) : Item_func :=
  match op with
  | OP_PLUS | OP_MINUS => Item_func_additive_op_result_precision this a0 a1
  | OP_MUL => Item_func_mul_result_precision this a0 a1
  | OP_DIV => Item_func_div_result_precision prec_increment this a0 a1
  | OP_MOD => Item_func_mod_result_precision this a0 a1
  end.

Definition real_or_string (r : Item_result) : bool :=
  Item_result_eqb r REAL_RESULT || Item_result_eqb r STRING_RESULT.
Definition decimal_or_time (r : Item_result) : bool :=
  Item_result_eqb r DECIMAL_RESULT || Item_result_eqb r TIME_RESULT.

(** [Item_num_op::fix_length_and_dec], shared by the five operators. *)
Definition Item_num_op_fix_length_and_dec (op : num_op) (prec_increment : Z)
    (this : Item_func) (a0 a1 : Item) : Item_func :=
  let r0 := cast_to_int_type a0 in
  let r1 := cast_to_int_type a1 in
  if real_or_string r0 || real_or_string r1 then
    let this := count_real_length this [a0; a1] in
    let this := set_max_length this (float_length D (decimals this)) in
    set_handler_by_result_type this REAL_RESULT
  else if decimal_or_time r0 || decimal_or_time r1 then
    let this := set_handler_by_result_type this DECIMAL_RESULT in
    let this := result_precision op prec_increment this a0 a1 in
    let this := fix_decimals this in
    if (Item_result_eqb r0 TIME_RESULT || Item_result_eqb r1 TIME_RESULT)
       && (decimals this =? 0)
    then set_handler_by_result_type this INT_RESULT
    else this
  else
    let this := set_handler_by_result_type this INT_RESULT in
    let this := result_precision op prec_increment this a0 a1 in
    set_decimals this 0.

(** [Item_func_minus::fix_length_and_dec]. *)
Definition Item_func_minus_fix_length_and_dec (thd : THD) (this : Item_func)
    (a0 a1 : Item) : Item_func :=
  let this := Item_num_op_fix_length_and_dec OP_MINUS 0 this a0 a1 in
  if unsigned_flag this && MODE_NO_UNSIGNED_SUBTRACTION (sql_mode thd)
  then set_unsigned_flag this false
  else this.

(** [Item_func_div::fix_length_and_dec]. *)
Definition Item_func_div_fix_length_and_dec (thd : THD) (this : Item_func)
    (a0 a1 : Item) : Item_func :=
  let prec_increment := div_precincrement thd in
  let this := Item_num_op_fix_length_and_dec OP_DIV prec_increment this a0 a1 in
  let this :=
    match result_type this with
    | REAL_RESULT =>
        let this :=
          set_decimals this
            (Z.max (item_decimals a0) (item_decimals a1) + prec_increment) in
        let this :=
          set_decimals this (Z.min (decimals this) (NOT_FIXED_DEC D)) in
        let tmp := float_length D (decimals this) in
        if decimals this =? NOT_FIXED_DEC D then set_max_length this tmp
        else
          let this :=
            set_max_length this
              (uint32 (item_max_length a0 - item_decimals a0
                       + decimals this)) in
          set_max_length this (Z.min (max_length this) tmp)
    | INT_RESULT =>
        let this := set_handler_by_result_type this DECIMAL_RESULT in
        Item_func_div_result_precision prec_increment this a0 a1
    | DECIMAL_RESULT =>
        let this := Item_func_div_result_precision prec_increment this a0 a1 in
        fix_decimals this
    | STRING_RESULT | ROW_RESULT | TIME_RESULT => this
    end in
  set_maybe_null this true.   (* devision by zero *)

(** [Item_func_mod::fix_length_and_dec]. *)
Definition Item_func_mod_fix_length_and_dec (this : Item_func) (a0 a1 : Item)
  : Item_func :=
  let this := Item_num_op_fix_length_and_dec OP_MOD 0 this a0 a1 in
  let this := set_maybe_null this true in
  set_unsigned_flag this (item_unsigned_flag a0).

(** [Item_func_num1::fix_length_and_dec]. *)
Definition Item_func_num1_fix_length_and_dec (this : Item_func) (a0 : Item)
  : Item_func :=
  match cast_to_int_type a0 with
  | INT_RESULT =>
      let this := set_handler_by_result_type this INT_RESULT in
      let this := set_max_length this (item_max_length a0) in
      set_unsigned_flag this (item_unsigned_flag a0)
  | STRING_RESULT | REAL_RESULT =>
      let this := set_handler_by_result_type this REAL_RESULT in
      let this := set_decimals this (item_decimals a0) in
      set_max_length this (float_length D (decimals this))
  | TIME_RESULT | DECIMAL_RESULT =>
      let this := set_handler_by_result_type this DECIMAL_RESULT in
      let this := set_decimals this (decimal_scale a0) in
      set_max_length this (item_max_length a0)
  | ROW_RESULT => this
  end.

(** [Item_func_neg::fix_length_and_dec]. *)
Definition Item_func_neg_fix_length_and_dec (this : Item_func) (a0 : Item)
  : Item_func :=
  let this := Item_func_num1_fix_length_and_dec this a0 in
  (* 1 add because sign can appear *)
  let this := set_max_length this (item_max_length a0 + 1) in
  let this :=
    if Item_result_eqb (result_type this) INT_RESULT && const_item a0 then
      let val := item_val_int a0 in
      if (ulonglong LONGLONG_MIN <=? ulonglong val)
         && (negb (ulonglong val =? ulonglong LONGLONG_MIN)
             || negb (Item_type_eqb (type a0) INT_ITEM))
      then set_handler_by_result_type this DECIMAL_RESULT
      else this
    else this in
  set_unsigned_flag this false.

(** [Item_func_abs::fix_length_and_dec]. *)
Definition Item_func_abs_fix_length_and_dec (this : Item_func) (a0 : Item)
  : Item_func :=
  let this := Item_func_num1_fix_length_and_dec this a0 in
  set_unsigned_flag this (item_unsigned_flag a0).

(** [Item_func_round::fix_length_and_dec]; [truncate] tells TRUNCATE from
    ROUND, [a1] is the digit-count operand.  When [a1] is a constant that
    evaluates to NULL the node is left as it is, with [null_value] set. *)
Definition Item_func_round_fix_length_and_dec (truncate : bool)
    (this : Item_func) (a0 a1 : Item) : Item_func :=
  let this := set_unsigned_flag this (item_unsigned_flag a0) in
  if negb (const_item a1) then
    let this := set_decimals this (item_decimals a0) in
    let this := set_max_length this (float_length D (decimals this)) in
    if Item_result_eqb (item_result_type a0) DECIMAL_RESULT then
      let this := set_max_length this (max_length this + 1) in
      set_handler_by_result_type this DECIMAL_RESULT
    else set_handler_by_result_type this REAL_RESULT
  else
  let val1 := item_val_int a1 in
  let this := set_null_value this (item_null_value a1) in
  if null_value this then this else
  let val1_unsigned := item_unsigned_flag a1 in
  let decimals_to_set :=
    if val1 <? 0 then (if val1_unsigned then INT_MAX else 0)
    else (if INT_MAX <? val1 then INT_MAX else val1) in
  if item_decimals a0 =? NOT_FIXED_DEC D then
    let this := set_decimals this (Z.min decimals_to_set (NOT_FIXED_DEC D)) in
    let this := set_max_length this (float_length D (decimals this)) in
    set_handler_by_result_type this REAL_RESULT
  else
  let decimal_case (this : Item_func) : Item_func :=
    let this := set_handler_by_result_type this DECIMAL_RESULT in
    let decimals_to_set := Z.min (DECIMAL_MAX_SCALE D) decimals_to_set in
    let decimals_delta := item_decimals a0 - decimals_to_set in
    let precision := decimal_precision a0 in
    let length_increase :=
      if (decimals_delta <=? 0) || truncate then 0 else 1 in
    let precision := precision - (decimals_delta - length_increase) in
    let this :=
      set_decimals this (Z.min decimals_to_set (DECIMAL_MAX_SCALE D)) in
    set_max_length this
      (my_decimal_precision_to_length_no_truncation D precision
         (decimals this) (unsigned_flag this)) in
  match item_result_type a0 with
  | REAL_RESULT | STRING_RESULT =>
      let this := set_handler_by_result_type this REAL_RESULT in
      let this :=
        set_decimals this (Z.min decimals_to_set (NOT_FIXED_DEC D)) in
      set_max_length this (float_length D (decimals this))
  | INT_RESULT =>
      if ((decimals_to_set =? 0) && truncate)
         || (decimal_precision a0 <? DECIMAL_LONGLONG_DIGITS D)
      then
        let length_can_increase :=
          if negb truncate && (val1 <? 0) && negb val1_unsigned
          then 1 else 0 in
        let this :=
          set_max_length this (item_max_length a0 + length_can_increase) in
        (* Here we can keep INT_RESULT *)
        let this := set_handler_by_result_type this INT_RESULT in
        set_decimals this 0
      else decimal_case this
  | DECIMAL_RESULT => decimal_case this
  | ROW_RESULT | TIME_RESULT => this
  end.

End Resolution.

(** The integer operand an [Item] evaluates to. *)
Definition int_arg_of (a : Item) : int_arg :=
  mk_int_arg (item_val_int a) (item_null_value a) (item_unsigned_flag a).

(** ** ROUND and TRUNCATE *)

(** Modelled from the spec: [log_10_int] is a table of the powers of ten that
    fit a [ulonglong], [10^0 .. 10^19]; it is defined outside this file. *)
Definition array_elements_log_10_int : Z := 20.
Definition log_10_int (k : Z) : Z := 10 ^ k.

(** [my_unsigned_round]; [value] and [to] are [ulonglong]s. *)
Definition my_unsigned_round (value to : Z) : Z :=
  let tmp := ulonglong (value / to * to) in
  if ulonglong (value - tmp) <? Z.shiftr to 1 then tmp
  else ulonglong (tmp + to).

(** [Item_func_round::int_op]; [truncate] is the node's flag (TRUNCATE
    against ROUND), [a1] the digit-count operand.  Signed [/] is [Z.quot]. *)
Definition Item_func_round_int_op (truncate : bool) (this : Item_func)
    (thd : THD) (a0 a1 : int_arg) : eval Z :=
  let value := val_int a0 in
  let dec := val_int a1 in
  let this := set_decimals this 0 in
  let this := set_null_value this (arg_null_value a0 || arg_null_value a1) in
  if null_value this then (0, this, thd) else
  if (0 <=? dec) || arg_unsigned_flag a1 then
    (value, this, thd)      (* integer have not digits after point *)
  else
  let abs_dec := ulonglong (longlong (- dec)) in
  if array_elements_log_10_int <=? abs_dec then (0, this, thd) else
  let tmp := longlong (log_10_int abs_dec) in
  let value :=
    if truncate then
      if unsigned_flag this
      then longlong (ulonglong (ulonglong value / ulonglong tmp * ulonglong tmp))
      else longlong (Z.quot value tmp * tmp)
    else
      if unsigned_flag this || (0 <=? value)
      then longlong (my_unsigned_round (ulonglong value) (ulonglong tmp))
      else
        longlong
          (- longlong (my_unsigned_round (ulonglong (longlong (- value)))
                         (ulonglong tmp))) in
  (value, this, thd).

(** The C library and the table [log_10] as [my_double_round] uses them:
    [pow10 n] is [log_10[n]] for an [n] inside the table and
    [pow(10.0, n)] beyond it. *)
Record Libm : Type := mkLibm {
  floor : float -> float;
  ceil : float -> float;
  rint : float -> float;
  pow10 : Z -> float
}.

(** [std::isinf]. *)
Definition isinf (x : float) : bool := PrimFloat.is_infinity x.

(** [my_double_round].  The products and quotients are IEEE double
    operations: the source stores them in [volatile double]s. *)
Definition my_double_round (m : Libm) (value : float) (dec : Z)
    (dec_unsigned truncate : bool) : float :=
  let dec_negative := (dec <? 0) && negb dec_unsigned in
  let abs_dec := ulonglong (if dec_negative then longlong (- dec) else dec) in
  let tmp := pow10 m abs_dec in
  let value_div_tmp := (value / tmp)%float in
  let value_mul_tmp := (value * tmp)%float in
  if negb dec_negative && isinf tmp then value  (* "dec" is too large positive number *)
  else if dec_negative && isinf tmp then 0%float
  else if negb dec_negative && isinf value_mul_tmp then value
  else if truncate then
    if PrimFloat.leb 0 value then
      if dec <? 0 then (floor m value_div_tmp * tmp)%float
      else (floor m value_mul_tmp / tmp)%float
    else
      if dec <? 0 then (ceil m value_div_tmp * tmp)%float
      else (ceil m value_mul_tmp / tmp)%float
  else
    if dec <? 0 then (rint m value_div_tmp * tmp)%float
    else (rint m value_mul_tmp / tmp)%float.

(** [Item_func_round::real_op]. *)
Definition Item_func_round_real_op (m : Libm) (truncate : bool)
    (this : Item_func) (thd : THD) (a0 : real_arg) (a1 : int_arg)
  : eval float :=
  let value := val_real a0 in
  let this := set_null_value this (real_null_value a0) in
  if null_value this then (0%float, this, thd) else
  let dec := val_int a1 in
  let this := set_null_value this (arg_null_value a1) in
  if null_value this then (0%float, this, thd) else
  (my_double_round m value dec (arg_unsigned_flag a1) truncate, this, thd).

Section DecimalRound.
Variable P : Decimal_package.

(** [Item_func_round::decimal_op]. *)
Definition Item_func_round_decimal_op (truncate : bool) (this : Item_func)
    (thd : THD) (a0 : dec_arg P) (a1 : int_arg)
  : eval (option (my_decimal P)) :=
  let value := val_decimal P a0 in
  let dec := val_int a1 in
  let dec :=
    if (0 <=? dec) || arg_unsigned_flag a1
    then Z.min (ulonglong dec) (decimals this)
    else if dec <? INT_MIN then INT_MIN else dec in
  if dec_null_value P a0 || arg_null_value a1 then
    (None, set_null_value this true, thd)
  else
    let '(st, decimal_value, thd) :=
      my_decimal_round P E_DEC_FATAL_ERROR thd value dec truncate in
    if 1 <? st then (None, set_null_value this true, thd)
    else (Some decimal_value, set_null_value this false, thd).

End DecimalRound.

(** ** LEAST and GREATEST *)

Section MinMax.
Context {A Arg : Type}.
Variable lt : A -> A -> bool.        (* the C++ [<] of the domain *)
Variable val : Arg -> A.             (* [args[i]->val_xxx()] *)
Variable null : Arg -> bool.         (* [args[i]->null_value] afterwards *)

(** The loop of [Item_func_min_max::val_int] and [val_real], from iteration
    [i] on.  [log] records the index of every operand whose value method is
    called, in call order. *)
Fixpoint min_max_loop (cmp_sign : Z) (i : nat) (args : list Arg) (value : A)
    (this : Item_func) (log : list nat) : A * Item_func * list nat :=
  match args with
  | [] => (value, this, log)
  | a :: rest =>
      let log := log ++ [i] in
      let value :=
        if Nat.eqb i 0 then val a
        else
          let tmp := val a in
          if negb (null a)
             && (0 <? (if lt tmp value then cmp_sign else - cmp_sign))
          then tmp else value in
      let this := set_null_value this (null a) in
      if null_value this then (value, this, log)     (* break *)
      else min_max_loop cmp_sign (S i) rest value this log
  end.

End MinMax.

(** The loop of [Item_func_min_max::get_date] over the packed temporal
    values of the operands; [None] when it returns early with
    [null_value= 1]. *)
Fixpoint get_date_loop (cmp_sign : Z) (i : nat) (args : list int_arg)
    (min_max : Z) (log : list nat) : option Z * list nat :=
  match args with
  | [] => (Some min_max, log)
  | a :: rest =>
      let res := val_int a in
      let log := log ++ [i] in
      if arg_null_value a then (None, log)
      else
        let min_max :=
          if Nat.eqb i 0
             || (0 <? (if res <? min_max then cmp_sign else - cmp_sign))
          then res else min_max in
        get_date_loop cmp_sign (S i) rest min_max log
  end.

Section MinMaxEval.
(** What remains of [get_date] after its loop (unpacking the extreme, the
    range and date checks, which can fail) followed by the conversion of the
    date to the caller's domain; [None] when a check fails. *)
Variable date_to_int : Z -> option Z.
Variable date_to_real : Z -> option float.

(** [Item_func_min_max::val_int]; [targs] are the operands as packed temporal
    values, read when the comparison type is [TIME_RESULT]. *)
Definition Item_func_min_max_val_int (cmp_type : Item_result) (cmp_sign : Z)
    (this : Item_func) (targs args : list int_arg)
  : Z * Item_func * list nat :=
  if Item_result_eqb cmp_type TIME_RESULT then
    match get_date_loop cmp_sign 0 targs 0 [] with
    | (None, log) => (0, set_null_value this true, log)
    | (Some min_max, log) =>
        match date_to_int min_max with
        | None => (0, set_null_value this true, log)
        | Some v => (v, set_null_value this false, log)
        end
    end
  else min_max_loop Z.ltb val_int arg_null_value cmp_sign 0 args 0 this [].

(** [Item_func_min_max::val_real]. *)
Definition Item_func_min_max_val_real (cmp_type : Item_result) (cmp_sign : Z)
    (this : Item_func) (targs : list int_arg) (args : list real_arg)
  : float * Item_func * list nat :=
  if Item_result_eqb cmp_type TIME_RESULT then
    match get_date_loop cmp_sign 0 targs 0 [] with
    | (None, log) => (0%float, set_null_value this true, log)
    | (Some min_max, log) =>
        match date_to_real min_max with
        | None => (0%float, set_null_value this true, log)
        | Some v => (v, set_null_value this false, log)
        end
    end
  else
    min_max_loop PrimFloat.ltb val_real real_null_value cmp_sign 0 args
      0%float this [].

End MinMaxEval.

(** ** Instances of the external collaborators *)

(** Modelled from the spec: the host's nearest-integer primitive [rint] under
    the default rounding mode, round-half-to-even.  Adding and subtracting
    2^52 rounds a double below 2^52 to an integer in that mode; larger doubles
    are integers already. *)
Definition two52 : float := 4503599627370496%float.

Definition rint_half_even (x : float) : float :=
  if PrimFloat.ltb (PrimFloat.abs x) two52 then
    if PrimFloat.get_sign x
    then PrimFloat.opp ((PrimFloat.abs x + two52) - two52)%float
    else ((x + two52) - two52)%float
  else x.

(** Modelled from the spec: [floor] and [ceil] of the C library, the nearest
    integers below and above. *)
Definition floor_double (x : float) : float :=
  let r := rint_half_even x in
  if PrimFloat.ltb x r then (r - 1)%float else r.

Definition ceil_double (x : float) : float :=
  let r := rint_half_even x in
  if PrimFloat.ltb r x then (r + 1)%float else r.

(** Modelled from the spec: the table [log_10] holds the doubles nearest to
    [10^0 .. 10^308]; beyond it [pow(10.0, n)] is infinite. *)
Definition pow10_double (n : Z) : float :=
  if 309 <=? n then infinity
  else SF2Prim (SpecFloat.binary_normalize prec emax (10 ^ n) 0 false).

Definition host_libm : Libm :=
  mkLibm floor_double ceil_double rint_half_even pow10_double.

(** Modelled from the spec: the decimal package's values are fixed-point
    numbers, [unscaled / 10^scale]. *)
Record fixed_point : Type := mk_fixed_point {
  unscaled : Z;
  scale : Z
}.

(** Modelled from the spec: decimal rounding to [new_scale] digits after the
    point ([new_scale < 0] rounds to a power of ten above the point); it
    truncates toward zero when [truncate] is set and otherwise rounds to
    nearest, a half-way value away from zero. *)
Definition fixed_point_round (x : fixed_point) (new_scale : Z)
    (truncate : bool) : Z * fixed_point :=
  if scale x <=? new_scale then (E_DEC_OK, x)
  else
    let p := 10 ^ (scale x - new_scale) in
    let q := Z.abs (unscaled x) / p in
    let r := Z.abs (unscaled x) mod p in
    let q := if truncate then q else if p <=? 2 * r then q + 1 else q in
    let q := Z.sgn (unscaled x) * q in
    if 0 <=? new_scale then (E_DEC_OK, mk_fixed_point q new_scale)
    else (E_DEC_OK, mk_fixed_point (q * 10 ^ (- new_scale)) 0).

(** Modelled from the spec: division and modulo report [E_DEC_DIV_ZERO] for
    a zero divisor; the quotient carries [scale_incr] more digits than the
    dividend. *)
Definition fixed_point_div (a b : fixed_point) (scale_incr : Z)
  : Z * fixed_point :=
  if unscaled b =? 0 then (E_DEC_DIV_ZERO, a)
  else
    (E_DEC_OK,
     mk_fixed_point
       (Z.quot (unscaled a * 10 ^ (scale b + Z.max 0 scale_incr)) (unscaled b))
       (scale a + Z.max 0 scale_incr)).

Definition fixed_point_mod (a b : fixed_point) : Z * fixed_point :=
  if unscaled b =? 0 then (E_DEC_DIV_ZERO, a)
  else
    let s := Z.max (scale a) (scale b) in
    (E_DEC_OK,
     mk_fixed_point
       (Z.rem (unscaled a * 10 ^ (s - scale a)) (unscaled b * 10 ^ (s - scale b)))
       s).

(** Modelled from the spec: conversion to a native 64-bit integer, reporting
    [E_DEC_OVERFLOW] when the rounded value does not fit. *)
Definition fixed_point2longlong (a : fixed_point) (unsigned_flag : bool)
  : Z * Z :=
  let v := unscaled (snd (fixed_point_round a 0 false)) in
  if unsigned_flag then
    if v <? 0 then (E_DEC_OVERFLOW, 0)
    else if ULONGLONG_MAX <? v then (E_DEC_OVERFLOW, longlong ULONGLONG_MAX)
    else (E_DEC_OK, longlong v)
  else
    if v <? LONGLONG_MIN then (E_DEC_OVERFLOW, LONGLONG_MIN)
    else if LONGLONG_MAX <? v then (E_DEC_OVERFLOW, LONGLONG_MAX)
    else (E_DEC_OK, v).

Definition fixed_point_package : Decimal_package :=
  mkDecimal_package fixed_point fixed_point_div fixed_point_mod
    fixed_point_round fixed_point2longlong.

(** A sample instance of the header declarations, used by the examples. *)
Definition sample_decls : Decls :=
  mkDecls 39 31 38 65 22
    (fun d => if d =? 39 then 23 else 17 + d)
    (fun precision scale unsigned_flag =>
       precision + (if 0 <? scale then 1 else 0)
       + (if unsigned_flag || (precision =? 0) then 0 else 1))
    (fun n => n)
    (fun d l => if d =? 39 then Z.min d (l - 1) else d).

(** Sample operands. *)
Definition int_item (t : Item_type) (const : bool) (v : Z) (u : bool) : Item :=
  mkItem t INT_RESULT INT_RESULT const u 0 20 0 19 19 v false.

(** The literal 18446744073709551615, an unsigned integer constant. *)
Definition ulonglong_max_item : Item :=
  mkItem INT_ITEM INT_RESULT INT_RESULT true true 0 20 0 20 20
    (longlong ULONGLONG_MAX) false.

Definition time_item : Item :=
  mkItem FIELD_ITEM TIME_RESULT STRING_RESULT false false 0 10 0 8 8 0 false.

Definition fresh_node : Item_func :=
  mkItem_func STRING_RESULT 0 0 false false false.

Definition default_thd : THD := mkTHD (mkSql_mode false false) 4 [].
Definition strict_thd : THD := mkTHD (mkSql_mode true false) 4 [].

(** ** Auxiliary notions used by the statements *)

(** The session after [signal_divide_by_null]: a division-by-zero warning is
    pushed exactly when [MODE_ERROR_FOR_DIVISION_BY_ZERO] is set. *)
Definition thd_after_division_by_zero (thd : THD) : THD :=
  if MODE_ERROR_FOR_DIVISION_BY_ZERO (sql_mode thd)
  then push_warning thd ER_DIVISION_BY_ZERO
  else thd.

(** The operands that an evaluation reaches: all of them up to and including
    the first one that is NULL. *)
Fixpoint up_to_first_null {Arg : Type} (null : Arg -> bool) (args : list Arg)
  : list Arg :=
  match args with
  | [] => []
  | a :: rest => if null a then [a] else a :: up_to_first_null null rest
  end.

(** [representable] as a test. *)
Definition fits (unsigned_flag : bool) (x : Z) : bool :=
  if unsigned_flag then (0 <=? x) && (x <=? ULONGLONG_MAX)
  else (LONGLONG_MIN <=? x) && (x <=? LONGLONG_MAX).

(** The operands on which [Item_func_plus::int_op] executes no undefined
    operation: the sum of the two [longlong]s is a [longlong]. *)
Definition plus_defined (a0 a1 : int_arg) : bool :=
  fits false (val_int a0 + val_int a1).

(** The operands, neither of them NULL, on which [Item_func_minus::int_op]
    executes no undefined operation: the difference of the two [longlong]s
    is a [longlong]; a signed subtrahend under an unsigned minuend is not
    [LONGLONG_MIN], which [-val1] would negate; and a signed minuend over an
    unsigned subtrahend is negative, or [val0 - LONGLONG_MIN] would
    overflow. *)
Definition minus_defined (a0 a1 : int_arg) : bool :=
  fits false (val_int a0 - val_int a1)
  && negb (arg_unsigned_flag a0 && negb (arg_unsigned_flag a1)
           && (val_int a1 =? LONGLONG_MIN))
  && negb (negb (arg_unsigned_flag a0) && arg_unsigned_flag a1
           && (0 <=? val_int a0)).

(** The operands, neither of them NULL and the divisor not zero, on which
    the integer branch of [Item_func_int_div::val_int] executes no undefined
    operation: no signed operand is [LONGLONG_MIN], which [-val0] or [-val1]
    would negate. *)
Definition int_div_defined (a0 a1 : int_arg) : bool :=
  negb (negb (arg_unsigned_flag a0) && (val_int a0 =? LONGLONG_MIN))
  && negb (negb (arg_unsigned_flag a1) && (val_int a1 =? LONGLONG_MIN)).

(** [x] is not beyond the extreme [r] under the order [le]: not below it for
    LEAST ([cmp_sign = 1]), not above it for GREATEST ([cmp_sign = -1]). *)
Definition within {A : Type} (le : A -> A -> bool) (cmp_sign : Z) (r x : A)
  : Prop :=
  (if cmp_sign <? 0 then le x r else le r x) = true.

(** An evaluation that is exact: [x] when it fits the node's signedness, the
    overflow outcome when it does not. *)
Definition exact_or_overflow (this : Item_func) (thd : THD) (x : Z)
  : eval Z :=
  if fits (unsigned_flag this) x
  then (longlong x, set_null_value this false, thd)
  else raise_integer_overflow (set_null_value this false) thd.

(** ** Shifts and bit functions *)



(** [Item_func_bit_neg::val_int]; [~] on a [ulonglong]. *)
Definition Item_func_bit_neg_val_int (this : Item_func) (thd : THD)
    (a0 : int_arg) : eval Z :=
  let res := ulonglong (val_int a0) in
  let this := set_null_value this (arg_null_value a0) in
  if null_value this then (0, this, thd)
  else (longlong (ulonglong (Z.lnot res)), this, thd).

(** [Item_func_bit_xor::val_int]. *)
Definition Item_func_bit_xor_val_int (this : Item_func) (thd : THD)
    (a0 a1 : int_arg) : eval Z :=
  let arg1 := ulonglong (val_int a0) in
  let arg2 := ulonglong (val_int a1) in
  let this := set_null_value this (arg_null_value a0 || arg_null_value a1) in
  if null_value this then (0, this, thd)
  else (longlong (Z.lxor arg1 arg2), this, thd).

(** The operand that the result of an evaluation is to an enclosing
    function. *)
Definition as_int_arg (unsigned_flag : bool) (r : eval Z) : int_arg :=
  mk_int_arg (returned r) (is_null r) unsigned_flag.

(** ** UUID_SHORT *)

(** [uuid_short_init]: the first value of the counter [uuid_value], from the
    server id (an [ulong]) and the server's start time (a [time_t]). *)
Definition uuid_short_init (server_id server_start_time : Z) : Z :=
  ulonglong (ulonglong (Z.shiftl (ulonglong server_id) 56)
             + ulonglong (Z.shiftl (ulonglong server_start_time) 24)).

(** [Item_func_uuid_short::val_int], run under [LOCK_short_uuid_generator]:
    the value returned and the counter it leaves ([uuid_value++]). *)
Definition Item_func_uuid_short_val_int (uuid_value : Z) : Z * Z :=
  let val := uuid_value in
  (longlong val, ulonglong (uuid_value + 1)).

(** The values of [n] calls in a row. *)
Fixpoint uuid_short_calls (n : nat) (uuid_value : Z) : list Z :=
  match n with
  | O => []
  | S n =>
      let '(val, uuid_value) := Item_func_uuid_short_val_int uuid_value in
      val :: uuid_short_calls n uuid_value
  end.

(** ** FIELD and FIND_IN_SET *)

(** The bytes of a [String]. *)
Definition String : Type := list Byte.byte.

(** The candidate loop of [Item_func_field::val_int], from [args[i]] on:
    the index of the first candidate that passes [test], 0 when the loop runs
    out. *)
Fixpoint field_loop {Arg : Type} (test : Arg -> bool) (i : Z)
    (args : list Arg) : Z :=
  match args with
  | [] => 0
  | a :: rest => if test a then i else field_loop test (i + 1) rest
  end.

Section Field.
Variable P : Decimal_package.
Variable sortcmp : String -> String -> Z.
Variable my_decimal_cmp : my_decimal P -> my_decimal P -> Z.

(** An operand of FIELD as its four value methods see it; [None] is the null
    pointer that [val_str] returns for NULL. *)
Record field_operand : Type := mk_field_operand {
  op_val_str : option String;
  op_val_int : int_arg;
  op_val_decimal : dec_arg P;
  op_val_real : real_arg
}.

(** [Item_func_field::val_int]; [a0] is [args[0]], [args] the candidates
    [args[1 ..]].  The method leaves [null_value] and the session alone. *)
Definition Item_func_field_val_int (cmp_type : Item_result)
    (a0 : field_operand) (args : list field_operand) : Z :=
  match cmp_type with
  | STRING_RESULT =>
      match op_val_str a0 with
      | None => 0
      | Some field =>
          field_loop
            (fun a =>
               match op_val_str a with
               | Some tmp_value => sortcmp field tmp_value =? 0
               | None => false
               end)
            1 args
      end
  | INT_RESULT =>
      let val := val_int (op_val_int a0) in
      if arg_null_value (op_val_int a0) then 0
      else
        field_loop
          (fun a =>
             (val =? val_int (op_val_int a))
             && negb (arg_null_value (op_val_int a)))
          1 args
  | DECIMAL_RESULT =>
      let dec := val_decimal P (op_val_decimal a0) in
      if dec_null_value P (op_val_decimal a0) then 0
      else
        field_loop
          (fun a =>
             negb (dec_null_value P (op_val_decimal a))
             && (my_decimal_cmp (val_decimal P (op_val_decimal a)) dec =? 0))
          1 args
  | REAL_RESULT | ROW_RESULT | TIME_RESULT =>
      let val := val_real (op_val_real a0) in
      if real_null_value (op_val_real a0) then 0
      else
        field_loop
          (fun a =>
             PrimFloat.eqb val (val_real (op_val_real a))
             && negb (real_null_value (op_val_real a)))
          1 args
  end.

End Field.

(** A character set with its collation, as the string functions of this
    file use it.  [mb_wc wc s] is [cs->cset->mb_wc(cs, &wc, s, end)]: it
    scans the first character of [s] and returns its length in bytes together
    with the character code it stored in [wc], or a number that is not
    positive together with what [wc] holds then.  [my_strnncoll a b] compares
    two strings under the collation and is 0 when they are equal.  [use_mb]
    tells whether the character set has multi-byte characters, and
    [my_ismbchar s] is the length in bytes of the multi-byte character that
    [s] starts with, 0 when it starts with a single-byte one. *)
Record CHARSET_INFO : Type := mkCHARSET_INFO {
  mb_wc : Z -> String -> Z * Z;
  my_strnncoll : String -> String -> Z;
  use_mb : bool;
  my_ismbchar : String -> Z
}.

(** The cast [(int) z] of a [uint32]. *)
Definition int32 (z : Z) : Z := (z + 2147483648) mod 4294967296 - 2147483648.

(** [static const char separator=','] *)
Definition separator : Z := 44.

(** The bytes of [s] between the offsets [from] and [to]. *)
Definition substring (s : String) (from to : Z) : String :=
  firstn (Z.to_nat (to - from)) (skipn (Z.to_nat from) s).

(** The [while (1)] loop of [Item_func_find_in_set::val_int].  [str_begin]
    and [str_end] are offsets into [buffer]; every iteration that does not
    return moves [str_end] forward, so [fuel] above the length of [buffer]
    is never used up. *)
Fixpoint find_in_set_loop (cs : CHARSET_INFO) (buffer find : String)
    (fuel : nat) (str_begin str_end position wc : Z) : Z :=
  match fuel with
  | O => 0
  | S fuel =>
      let real_end := Z.of_nat (length buffer) in
      let find_str_len := Z.of_nat (length find) in
      let '(symbol_len, wc) :=
        mb_wc cs wc (skipn (Z.to_nat str_end) buffer) in
      if 0 <? symbol_len then
        let substr_end := str_end + symbol_len in
        let is_last_item := substr_end =? real_end in
        let is_separator := wc =? separator in
        if is_separator || is_last_item then
          let position := position + 1 in
          let str_end :=
            if is_last_item && negb is_separator then substr_end
            else str_end in
          if my_strnncoll cs (substring buffer str_begin str_end) find =? 0
          then position
          else
            find_in_set_loop cs buffer find fuel substr_end substr_end
              position wc
        else
          find_in_set_loop cs buffer find fuel str_begin substr_end
            position wc
      else if (str_end - str_begin =? 0) && (find_str_len =? 0)
              && (wc =? separator)
      then position + 1
      else 0
  end.

(** [Item_func_find_in_set::val_int].  [enum_value] and [enum_bit] are the
    members that [fix_length_and_dec] sets for a constant needle and a SET
    column; [find] and [buffer] are what [val_str] returns for the two
    operands ([None] the null pointer), [a1] is [args[1]] as an integer. *)
Definition Item_func_find_in_set_val_int (cs : CHARSET_INFO)
    (enum_value enum_bit : Z) (this : Item_func) (thd : THD)
    (find buffer : option String) (a1 : int_arg) : eval Z :=
  if negb (enum_value =? 0) then
    let tmp := ulonglong (val_int a1) in
    let this := set_null_value this (arg_null_value a1) in
    if negb (null_value this) && negb (Z.land tmp enum_bit =? 0)
    then (enum_value, this, thd)
    else (0, this, thd)
  else
    match find, buffer with
    | Some find, Some buffer =>
        let this := set_null_value this false in
        if 0 <=? int32 (uint32 (Z.of_nat (length buffer)
                                - Z.of_nat (length find)))
        then
          (find_in_set_loop cs buffer find (S (length buffer)) 0 0 0 0,
           this, thd)
        else (0, this, thd)
    | _, _ => (0, set_null_value this true, thd)
    end.

(** A single-byte character set with a binary collation: every byte is one
    character whose code is the byte, and strings compare byte by byte. *)
Definition byte_code (b : Byte.byte) : Z := Z.of_N (Byte.to_N b).

Fixpoint compare_bytes (a b : String) : Z :=
  match a, b with
  | [], [] => 0
  | [], _ :: _ => -1
  | _ :: _, [] => 1
  | x :: a, y :: b =>
      if byte_code x <? byte_code y then -1
      else if byte_code y <? byte_code x then 1
      else compare_bytes a b
  end.

Definition MY_CS_TOOSMALL : Z := -101.

Definition binary_charset : CHARSET_INFO :=
  mkCHARSET_INFO
    (fun wc s =>
       match s with
       | [] => (MY_CS_TOOSMALL, wc)
       | b :: _ => (1, byte_code b)
       end)
    compare_bytes false (fun _ => 0).

(** ** Notions used by the statements about FIELD and FIND_IN_SET *)

(** A character set in which every byte is one character whose code is the
    byte, and whose [mb_wc] leaves [wc] alone at the end of the string. *)
Definition single_byte (cs : CHARSET_INFO) : Prop :=
  (forall wc b rest, mb_wc cs wc (b :: rest) = (1, byte_code b))
  /\ (forall wc, fst (mb_wc cs wc []) <= 0 /\ snd (mb_wc cs wc []) = wc).

(** The items of a separator-separated list; [n] separators make [n + 1]
    items. *)
Fixpoint split_items (s : String) : list String :=
  match s with
  | [] => [[]]
  | b :: rest =>
      if byte_code b =? separator then [] :: split_items rest
      else
        match split_items rest with
        | item :: items => (b :: item) :: items
        | [] => [[b]]
        end
  end.

(** The items FIND_IN_SET looks at: the empty string has none. *)
Definition set_items (buffer : String) : list String :=
  match buffer with
  | [] => []
  | _ :: _ => split_items buffer
  end.

(** The 1-based index of the first element that passes [test], 0 when there
    is none. *)
Fixpoint first_index_from {X : Type} (test : X -> bool) (i : Z) (l : list X)
  : Z :=
  match l with
  | [] => 0
  | x :: rest => if test x then i else first_index_from test (i + 1) rest
  end.

Definition first_index {X : Type} (test : X -> bool) (l : list X) : Z :=
  first_index_from test 1 l.

(** The loop of [find_in_set_loop] on the part of the buffer that is still
    to be read: [cur] is the item read so far, [rest] the bytes after it.
    The proofs go from the loop on offsets to the items through it. *)
Fixpoint find_in_set_scan (cs : CHARSET_INFO) (find cur rest : String)
    (position wc : Z) : Z :=
  match rest with
  | [] =>
      if (Z.of_nat (length cur) =? 0) && (Z.of_nat (length find) =? 0)
         && (wc =? separator)
      then position + 1 else 0
  | b :: rest' =>
      let wc := byte_code b in
      let is_last_item := match rest' with [] => true | _ :: _ => false end in
      let is_separator := wc =? separator in
      if is_separator || is_last_item then
        let item :=
          if is_last_item && negb is_separator then cur ++ [b] else cur in
        if my_strnncoll cs item find =? 0 then position + 1
        else find_in_set_scan cs find [] rest' (position + 1) wc
      else find_in_set_scan cs find (cur ++ [b]) rest' position wc
  end.


Section FieldNotions.
Variable P : Decimal_package.
Variable sortcmp : String -> String -> Z.
Variable my_decimal_cmp : my_decimal P -> my_decimal P -> Z.

(** Whether the first operand of FIELD is NULL in the comparison domain. *)
Definition field_needle_null (cmp_type : Item_result) (a0 : field_operand P)
  : bool :=
  match cmp_type with
  | STRING_RESULT =>
      match op_val_str P a0 with None => true | Some _ => false end
  | INT_RESULT => arg_null_value (op_val_int P a0)
  | DECIMAL_RESULT => dec_null_value P (op_val_decimal P a0)
  | REAL_RESULT | ROW_RESULT | TIME_RESULT =>
      real_null_value (op_val_real P a0)
  end.

(** Whether the candidate [a] is not NULL and equal to the first operand
    [a0] in the comparison domain: equal under the collation for strings,
    the same [longlong] for integers whatever their signedness, equal
    decimals, equal doubles. *)
Definition field_matches (cmp_type : Item_result) (a0 a : field_operand P)
  : bool :=
  match cmp_type with
  | STRING_RESULT =>
      match op_val_str P a0, op_val_str P a with
      | Some field, Some tmp_value => sortcmp field tmp_value =? 0
      | _, _ => false
      end
  | INT_RESULT =>
      negb (arg_null_value (op_val_int P a))
      && (val_int (op_val_int P a0) =? val_int (op_val_int P a))
  | DECIMAL_RESULT =>
      negb (dec_null_value P (op_val_decimal P a))
      && (my_decimal_cmp (val_decimal P (op_val_decimal P a))
            (val_decimal P (op_val_decimal P a0)) =? 0)
  | REAL_RESULT | ROW_RESULT | TIME_RESULT =>
      negb (real_null_value (op_val_real P a))
      && PrimFloat.eqb (val_real (op_val_real P a0))
           (val_real (op_val_real P a))
  end.

End FieldNotions.

(** ** ASCII and ORD *)

(** [Item_func_ascii::val_int]; [res] is what [val_str] returns, [None] the
    null pointer. *)
Definition Item_func_ascii_val_int (this : Item_func) (thd : THD)
    (res : option String) : eval Z :=
  match res with
  | None => (0, set_null_value this true, thd)
  | Some res =>
      let this := set_null_value this false in
      (match res with
       | [] => 0
       | b :: _ => byte_code b
       end, this, thd)
  end.

(** The loop [while (l--) n=(n<<8)|(uint32)((uchar) *str++)] of
    [Item_func_ord::val_int]; [n] is a [uint32].  [None] when the loop would
    read past the end of the string. *)
Fixpoint ord_loop (l : nat) (str : String) (n : Z) : option Z :=
  match l with
  | O => Some n
  | S l =>
      match str with
      | [] => None
      | b :: str => ord_loop l str (Z.lor (uint32 (Z.shiftl n 8)) (byte_code b))
      end
  end.

(** [Item_func_ord::val_int], compiled with [USE_MB]; [cs] is
    [res->charset()]. *)
Definition Item_func_ord_val_int (cs : CHARSET_INFO) (this : Item_func)
    (thd : THD) (res : option String) : eval (option Z) :=
  match res with
  | None => (Some 0, set_null_value this true, thd)
  | Some res =>
      let this := set_null_value this false in
      match res with
      | [] => (Some 0, this, thd)
      | b :: _ =>
          if use_mb cs then
            let l := uint32 (my_ismbchar cs res) in
            if l =? 0 then (Some (byte_code b), this, thd)
            else (ord_loop (Z.to_nat l) res 0, this, thd)
          else (Some (byte_code b), this, thd)
      end
  end.

(** The number that a sequence of bytes spells, most significant byte
    first, and the [l] bytes that spell a number. *)
Definition big_endian (bytes : String) : Z :=
  fold_left (fun n b => n * 256 + byte_code b) bytes 0.

Fixpoint big_endian_bytes (l : nat) (n : Z) : list Z :=
  match l with
  | O => []
  | S l => (n / 256 ^ Z.of_nat l) mod 256 :: big_endian_bytes l n
  end.

(** A character set for the examples in which a byte of 0x80 or more starts
    a character of two bytes; it compares byte by byte. *)
Definition two_byte_charset : CHARSET_INFO :=
  mkCHARSET_INFO
    (fun wc s =>
       match s with
       | [] => (MY_CS_TOOSMALL, wc)
       | b :: rest =>
           if byte_code b <? 128 then (1, byte_code b)
           else
             match rest with
             | [] => (MY_CS_TOOSMALL, wc)
             | c :: _ => (2, byte_code b * 256 + byte_code c)
             end
       end)
    compare_bytes true
    (fun s =>
       match s with
       | b :: _ :: _ => if 128 <=? byte_code b then 2 else 0
       | _ => 0
       end).

(** ** Logarithms, square root and inverse trigonometric functions *)

(** The functions of the C library that these methods call. *)
Record Libm_functions : Type := mkLibm_functions {
  log : float -> float;
  log10 : float -> float;
  acos : float -> float;
  asin : float -> float
}.

(** [M_LN2], the double nearest to the natural logarithm of 2. *)
Definition M_LN2 : float := 0x1.62e42fefa39efp-1%float.

(** [Item_func_ln::val_real]. *)
Definition Item_func_ln_val_real (m : Libm_functions) (this : Item_func)
    (thd : THD) (a0 : real_arg) : eval float :=
  let value := val_real a0 in
  let this := set_null_value this (real_null_value a0) in
  if null_value this then (0%float, this, thd) else
  if PrimFloat.leb value 0 then
    let '(this, thd) := signal_divide_by_null this thd in (0%float, this, thd)
  else (log m value, this, thd).

(** [Item_func_log::val_real]; [a1] is [args[1]] when [arg_count == 2]. *)
Definition Item_func_log_val_real (m : Libm_functions) (this : Item_func)
    (thd : THD) (a0 : real_arg) (a1 : option real_arg) : eval float :=
  let value := val_real a0 in
  let this := set_null_value this (real_null_value a0) in
  if null_value this then (0%float, this, thd) else
  if PrimFloat.leb value 0 then
    let '(this, thd) := signal_divide_by_null this thd in (0%float, this, thd)
  else
    match a1 with
    | Some a1 =>
        let value2 := val_real a1 in
        let this := set_null_value this (real_null_value a1) in
        if null_value this then (0%float, this, thd) else
        if PrimFloat.leb value2 0 || PrimFloat.eqb value 1 then
          let '(this, thd) := signal_divide_by_null this thd in
          (0%float, this, thd)
        else ((log m value2 / log m value)%float, this, thd)
    | None => (log m value, this, thd)
    end.

(** [Item_func_log2::val_real]. *)
Definition Item_func_log2_val_real (m : Libm_functions) (this : Item_func)
    (thd : THD) (a0 : real_arg) : eval float :=
  let value := val_real a0 in
  let this := set_null_value this (real_null_value a0) in
  if null_value this then (0%float, this, thd) else
  if PrimFloat.leb value 0 then
    let '(this, thd) := signal_divide_by_null this thd in (0%float, this, thd)
  else ((log m value / M_LN2)%float, this, thd).

(** [Item_func_log10::val_real]. *)
Definition Item_func_log10_val_real (m : Libm_functions) (this : Item_func)
    (thd : THD) (a0 : real_arg) : eval float :=
  let value := val_real a0 in
  let this := set_null_value this (real_null_value a0) in
  if null_value this then (0%float, this, thd) else
  if PrimFloat.leb value 0 then
    let '(this, thd) := signal_divide_by_null this thd in (0%float, this, thd)
  else (log10 m value, this, thd).

(** [Item_func_sqrt::val_real]; [sqrt] is the IEEE square root. *)
Definition Item_func_sqrt_val_real (this : Item_func) (thd : THD)
    (a0 : real_arg) : eval float :=
  let value := val_real a0 in
  let this :=
    set_null_value this (real_null_value a0 || PrimFloat.ltb value 0) in
  if null_value this then (0%float, this, thd)
  else (PrimFloat.sqrt value, this, thd).

(** [Item_func_acos::val_real]. *)
Definition Item_func_acos_val_real (m : Libm_functions) (this : Item_func)
    (thd : THD) (a0 : real_arg) : eval float :=
  let value := val_real a0 in
  let this :=
    set_null_value this
      (real_null_value a0
       || (PrimFloat.ltb value (-1) || PrimFloat.ltb 1 value)) in
  if null_value this then (0%float, this, thd)
  else (acos m value, this, thd).

(** [Item_func_asin::val_real]. *)
Definition Item_func_asin_val_real (m : Libm_functions) (this : Item_func)
    (thd : THD) (a0 : real_arg) : eval float :=
  let value := val_real a0 in
  let this :=
    set_null_value this
      (real_null_value a0
       || (PrimFloat.ltb value (-1) || PrimFloat.ltb 1 value)) in
  if null_value this then (0%float, this, thd)
  else (asin m value, this, thd).

(** A sample instance of the C library's functions, used by the examples;
    the examples only exercise arguments outside the domains, where these
    functions are not called. *)
Definition sample_libm_functions : Libm_functions :=
  mkLibm_functions (fun _ => nan) (fun _ => nan) (fun _ => nan)
    (fun _ => nan).

(** ** Unary minus, ABS and SIGN in the real domain *)

(** [Item_func_neg::real_op]. *)
Definition Item_func_neg_real_op (this : Item_func) (thd : THD)
    (a0 : real_arg) : eval float :=
  let value := val_real a0 in
  let this := set_null_value this (real_null_value a0) in
  (PrimFloat.opp value, this, thd).

(** [Item_func_abs::real_op]; [fabs] is the IEEE absolute value. *)
Definition Item_func_abs_real_op (this : Item_func) (thd : THD)
    (a0 : real_arg) : eval float :=
  let value := val_real a0 in
  let this := set_null_value this (real_null_value a0) in
  (PrimFloat.abs value, this, thd).

(** [Item_func_sign::val_int]. *)
Definition Item_func_sign_val_int (this : Item_func) (thd : THD)
    (a0 : real_arg) : eval Z :=
  let value := val_real a0 in
  let this := set_null_value this (real_null_value a0) in
  ((if PrimFloat.ltb value 0 then -1
    else if PrimFloat.ltb 0 value then 1 else 0),
   this, thd).

(** The real operand that the result of an evaluation is to an enclosing
    function. *)
Definition as_real_arg (r : eval float) : real_arg :=
  mk_real_arg (returned r) (is_null r).

(** ** Addition, subtraction and multiplication in the real domain *)

(** [Item_func_plus::real_op]. *)
Definition Item_func_plus_real_op (this : Item_func) (thd : THD)
    (a0 a1 : real_arg) : eval float :=
  let value := (val_real a0 + val_real a1)%float in
  let this :=
    set_null_value this (real_null_value a0 || real_null_value a1) in
  if null_value this then (0%float, this, thd)
  else check_float_overflow this thd value.

(** [Item_func_minus::real_op]. *)
Definition Item_func_minus_real_op (this : Item_func) (thd : THD)
    (a0 a1 : real_arg) : eval float :=
  let value := (val_real a0 - val_real a1)%float in
  let this :=
    set_null_value this (real_null_value a0 || real_null_value a1) in
  if null_value this then (0%float, this, thd)
  else check_float_overflow this thd value.

(** [Item_func_mul::real_op]. *)
Definition Item_func_mul_real_op (this : Item_func) (thd : THD)
    (a0 a1 : real_arg) : eval float :=
  let value := (val_real a0 * val_real a1)%float in
  let this :=
    set_null_value this (real_null_value a0 || real_null_value a1) in
  if null_value this then (0%float, this, thd)
  else check_float_overflow this thd value.

(** ** Addition, subtraction and multiplication in the decimal domain *)

Section DecimalArithmetic.
Variable P : Decimal_package.

(** [decimal_add], [decimal_sub] and [decimal_mul] of the decimal package:
    each returns a status together with its result. *)
Variable decimal_add : my_decimal P -> my_decimal P -> Z * my_decimal P.
Variable decimal_sub : my_decimal P -> my_decimal P -> Z * my_decimal P.
Variable decimal_mul : my_decimal P -> my_decimal P -> Z * my_decimal P.

Definition my_decimal_add (mask : Z) (thd : THD) (a b : my_decimal P)
  : Z * my_decimal P * THD :=
  let '(st, r) := decimal_add a b in (st, r, check_result mask thd st).

Definition my_decimal_sub (mask : Z) (thd : THD) (a b : my_decimal P)
  : Z * my_decimal P * THD :=
  let '(st, r) := decimal_sub a b in (st, r, check_result mask thd st).

Definition my_decimal_mul (mask : Z) (thd : THD) (a b : my_decimal P)
  : Z * my_decimal P * THD :=
  let '(st, r) := decimal_mul a b in (st, r, check_result mask thd st).

(** [Item_func_plus::decimal_op]; [None] is the null pointer it returns.
    The package is not called when [args[1]] is NULL. *)
Definition Item_func_plus_decimal_op (this : Item_func) (thd : THD)
    (a0 a1 : dec_arg P) : eval (option (my_decimal P)) :=
  let val1 := val_decimal P a0 in
  let this := set_null_value this (dec_null_value P a0) in
  if null_value this then (None, this, thd) else
  let val2 := val_decimal P a1 in
  if dec_null_value P a1 then (None, set_null_value this true, thd) else
  let '(st, decimal_value, thd) :=
    my_decimal_add (Z.land E_DEC_FATAL_ERROR (Z.lnot E_DEC_OVERFLOW))
      thd val1 val2 in
  let '(err, thd) := check_decimal_overflow thd st in
  if 3 <? err then (None, set_null_value this true, thd)
  else (Some decimal_value, set_null_value this false, thd).

(** [Item_func_minus::decimal_op]. *)
Definition Item_func_minus_decimal_op (this : Item_func) (thd : THD)
    (a0 a1 : dec_arg P) : eval (option (my_decimal P)) :=
  let val1 := val_decimal P a0 in
  let this := set_null_value this (dec_null_value P a0) in
  if null_value this then (None, this, thd) else
  let val2 := val_decimal P a1 in
  if dec_null_value P a1 then (None, set_null_value this true, thd) else
  let '(st, decimal_value, thd) :=
    my_decimal_sub (Z.land E_DEC_FATAL_ERROR (Z.lnot E_DEC_OVERFLOW))
      thd val1 val2 in
  let '(err, thd) := check_decimal_overflow thd st in
  if 3 <? err then (None, set_null_value this true, thd)
  else (Some decimal_value, set_null_value this false, thd).

(** [Item_func_mul::decimal_op]. *)
Definition Item_func_mul_decimal_op (this : Item_func) (thd : THD)
    (a0 a1 : dec_arg P) : eval (option (my_decimal P)) :=
  let val1 := val_decimal P a0 in
  let this := set_null_value this (dec_null_value P a0) in
  if null_value this then (None, this, thd) else
  let val2 := val_decimal P a1 in
  if dec_null_value P a1 then (None, set_null_value this true, thd) else
  let '(st, decimal_value, thd) :=
    my_decimal_mul (Z.land E_DEC_FATAL_ERROR (Z.lnot E_DEC_OVERFLOW))
      thd val1 val2 in
  let '(err, thd) := check_decimal_overflow thd st in
  if 3 <? err then (None, set_null_value this true, thd)
  else (Some decimal_value, set_null_value this false, thd).

End DecimalArithmetic.

(** What a decimal operator makes of the status [st] and the result [v] of
    the package's primitive, on operands that are not NULL: the result is
    kept for the statuses up to [E_DEC_OVERFLOW], and every status except
    [E_DEC_OK] and [E_DEC_TRUNCATED] is reported. *)
Definition decimal_outcome {V : Type} (this : Item_func) (thd : THD)
    (st : Z) (v : V) : eval (option V) :=
  if (st =? E_DEC_OK) || (st =? E_DEC_TRUNCATED) then
    (Some v, set_null_value this false, thd)
  else if st =? E_DEC_OVERFLOW then
    (Some v, set_null_value this false, push_warning thd ER_DATA_OUT_OF_RANGE)
  else (None, set_null_value this true, push_warning thd ER_DATA_OUT_OF_RANGE).

(** Addition, subtraction and multiplication of [fixed_point] numbers, for
    the examples; they report [E_DEC_OVERFLOW] beyond 65 digits. *)
Definition fixed_point_status (x : fixed_point) : Z :=
  if Z.abs (unscaled x) <? 10 ^ 65 then E_DEC_OK else E_DEC_OVERFLOW.

Definition fixed_point_add (a b : fixed_point) : Z * fixed_point :=
  let s := Z.max (scale a) (scale b) in
  let r :=
    mk_fixed_point
      (unscaled a * 10 ^ (s - scale a) + unscaled b * 10 ^ (s - scale b)) s in
  (fixed_point_status r, r).

Definition fixed_point_sub (a b : fixed_point) : Z * fixed_point :=
  let s := Z.max (scale a) (scale b) in
  let r :=
    mk_fixed_point
      (unscaled a * 10 ^ (s - scale a) - unscaled b * 10 ^ (s - scale b)) s in
  (fixed_point_status r, r).

Definition fixed_point_mul (a b : fixed_point) : Z * fixed_point :=
  let r := mk_fixed_point (unscaled a * unscaled b) (scale a + scale b) in
  (fixed_point_status r, r).

(** ** CEILING and FLOOR *)

Section IntVal.
Variable D : Decls.

(** [Item_func_int_val::fix_length_and_dec].  [tmp_max_length] is computed
    in [ulonglong]; the test on the digits before the point is one on
    [uint32] values. *)
Definition Item_func_int_val_fix_length_and_dec (this : Item_func)
    (a0 : Item) : Item_func :=
  let tmp_max_length :=
    ulonglong
      (item_max_length a0
       - (if item_decimals a0 =? 0 then 0 else item_decimals a0 + 1) + 2) in
  let this :=
    set_max_length this
      (if UINT_MAX32 <? tmp_max_length then UINT_MAX32
       else uint32 tmp_max_length) in
  let tmp := float_length D (decimals this) in
  let this := set_max_length this (Z.min (max_length this) tmp) in
  let this := set_decimals this 0 in
  (* Note, cast_to_int_type() can return TIME_RESULT *)
  match cast_to_int_type a0 with
  | STRING_RESULT | REAL_RESULT =>
      let this := set_handler_by_result_type this REAL_RESULT in
      set_max_length this (float_length D (decimals this))
  | INT_RESULT | TIME_RESULT | DECIMAL_RESULT =>
      (* -2 because in most high position can't be used any digit for
         longlong and one position for increasing value during operation *)
      if DECIMAL_LONGLONG_DIGITS D - 2
         <=? uint32 (item_max_length a0 - item_decimals a0)
      then set_handler_by_result_type this DECIMAL_RESULT
      else
        let this := set_unsigned_flag this (item_unsigned_flag a0) in
        set_handler_by_result_type this INT_RESULT
  | ROW_RESULT => this
  end.

End IntVal.

Section CeilingFloor.
Variable P : Decimal_package.

(** [decimal_ceiling] and [decimal_floor] of the decimal package. *)
Variable decimal_ceiling : my_decimal P -> Z * my_decimal P.
Variable decimal_floor : my_decimal P -> Z * my_decimal P.

(** The conversion [(longlong) x] of a double, which C leaves undefined
    outside the range of [longlong]. *)
Variable double_to_longlong : float -> Z.

Variable m : Libm.

Definition my_decimal_ceiling (mask : Z) (thd : THD) (a : my_decimal P)
  : Z * my_decimal P * THD :=
  let '(st, r) := decimal_ceiling a in (st, r, check_result mask thd st).

Definition my_decimal_floor (mask : Z) (thd : THD) (a : my_decimal P)
  : Z * my_decimal P * THD :=
  let '(st, r) := decimal_floor a in (st, r, check_result mask thd st).

(** [Item_func_ceiling::real_op]. *)
Definition Item_func_ceiling_real_op (this : Item_func) (thd : THD)
    (a0 : real_arg) : eval float :=
  let value := val_real a0 in
  let this := set_null_value this (real_null_value a0) in
  (ceil m value, this, thd).

(** [Item_func_ceiling::decimal_op]; the package is not called for a NULL
    operand. *)
Definition Item_func_ceiling_decimal_op (this : Item_func) (thd : THD)
    (a0 : dec_arg P) : eval (option (my_decimal P)) :=
  let value := val_decimal P a0 in
  if dec_null_value P a0 then (None, set_null_value this true, thd) else
  let '(st, decimal_value, thd) :=
    my_decimal_ceiling E_DEC_FATAL_ERROR thd value in
  if 1 <? st then (None, set_null_value this true, thd)
  else (Some decimal_value, set_null_value this false, thd).

(** [Item_func_ceiling::int_op]; [a0_result_type] is
    [args[0]->result_type()].  The status of [my_decimal2int] is not
    looked at. *)
Definition Item_func_ceiling_int_op (this : Item_func) (thd : THD)
    (a0_result_type : Item_result) (a0 : field_operand P) : eval Z :=
  match a0_result_type with
  | INT_RESULT =>
      let result := val_int (op_val_int P a0) in
      let this := set_null_value this (arg_null_value (op_val_int P a0)) in
      (result, this, thd)
  | DECIMAL_RESULT =>
      let '(dec, this, thd) :=
        Item_func_ceiling_decimal_op this thd (op_val_decimal P a0) in
      match dec with
      | Some dec =>
          let '(_, result, thd) :=
            my_decimal2int P E_DEC_FATAL_ERROR thd dec (unsigned_flag this) in
          (result, this, thd)
      | None => (0, this, thd)
      end
  | STRING_RESULT | REAL_RESULT | ROW_RESULT | TIME_RESULT =>
      let '(r, this, thd) :=
        Item_func_ceiling_real_op this thd (op_val_real P a0) in
      (double_to_longlong r, this, thd)
  end.

(** [Item_func_floor::real_op]. *)
Definition Item_func_floor_real_op (this : Item_func) (thd : THD)
    (a0 : real_arg) : eval float :=
  let value := val_real a0 in
  let this := set_null_value this (real_null_value a0) in
  (floor m value, this, thd).

(** [Item_func_floor::decimal_op]. *)
Definition Item_func_floor_decimal_op (this : Item_func) (thd : THD)
    (a0 : dec_arg P) : eval (option (my_decimal P)) :=
  let value := val_decimal P a0 in
  if dec_null_value P a0 then (None, set_null_value this true, thd) else
  let '(st, decimal_value, thd) :=
    my_decimal_floor E_DEC_FATAL_ERROR thd value in
  if 1 <? st then (None, set_null_value this true, thd)
  else (Some decimal_value, set_null_value this false, thd).

(** [Item_func_floor::int_op]. *)
Definition Item_func_floor_int_op (this : Item_func) (thd : THD)
    (a0_result_type : Item_result) (a0 : field_operand P) : eval Z :=
  match a0_result_type with
  | INT_RESULT =>
      let result := val_int (op_val_int P a0) in
      let this := set_null_value this (arg_null_value (op_val_int P a0)) in
      (result, this, thd)
  | DECIMAL_RESULT =>
      let '(dec, this, thd) :=
        Item_func_floor_decimal_op this thd (op_val_decimal P a0) in
      match dec with
      | Some dec =>
          let '(_, result, thd) :=
            my_decimal2int P E_DEC_FATAL_ERROR thd dec (unsigned_flag this) in
          (result, this, thd)
      | None => (0, this, thd)
      end
  | STRING_RESULT | REAL_RESULT | ROW_RESULT | TIME_RESULT =>
      let '(r, this, thd) :=
        Item_func_floor_real_op this thd (op_val_real P a0) in
      (double_to_longlong r, this, thd)
  end.

End CeilingFloor.

(** Floor, ceiling and the conversion to [longlong] for the examples: on
    [fixed_point] numbers, and the double cut toward zero. *)
Definition fixed_point_floor (x : fixed_point) : Z * fixed_point :=
  if scale x <=? 0 then (E_DEC_OK, x)
  else (E_DEC_OK, mk_fixed_point (unscaled x / 10 ^ scale x) 0).

Definition fixed_point_ceiling (x : fixed_point) : Z * fixed_point :=
  if scale x <=? 0 then (E_DEC_OK, x)
  else (E_DEC_OK, mk_fixed_point (- (- unscaled x / 10 ^ scale x)) 0).

Definition sample_double_to_longlong (x : float) : Z :=
  match Prim2SF x with
  | S754_finite s mant e =>
      if s then - Z.shiftl (Z.pos mant) e else Z.shiftl (Z.pos mant) e
  | _ => 0
  end.

(** An INT column: eleven characters, no digits after the point. *)
Definition int_column_item (v : Z) (u : bool) : Item :=
  mkItem FIELD_ITEM INT_RESULT INT_RESULT false u 0 11 0 10 10 v false.

(** ** LEAST and GREATEST of strings *)

(** The two buffers that [Item_func_min_max::val_str] hands to its
    operands: the caller's [str] and the node's [tmp_value]. *)
Inductive str_buffer : Type := BUF_str | BUF_tmp_value.

(** A [String *] that is not null: one of the two buffers, or storage of the
    operand that returned it, which holds [s] and which no other operand
    writes. *)
Inductive String_ptr : Type :=
| Ptr_buffer (b : str_buffer)
| Ptr_own (s : String).

(** What [args[i]->val_str(buf)] does: it returns the null pointer and sets
    [null_value]; or it writes its value into [buf] and returns [buf]; or it
    returns a pointer to storage of its own and leaves [buf] alone. *)
Inductive str_operand : Type :=
| Str_null
| Str_in_buffer (s : String)
| Str_own (s : String).

(** The contents of the two buffers. *)
Record str_store : Type := mk_str_store {
  buf_str : String;
  buf_tmp_value : String
}.

Definition deref (st : str_store) (p : String_ptr) : String :=
  match p with
  | Ptr_buffer BUF_str => buf_str st
  | Ptr_buffer BUF_tmp_value => buf_tmp_value st
  | Ptr_own s => s
  end.

Definition write_buffer (st : str_store) (b : str_buffer) (s : String)
  : str_store :=
  match b with
  | BUF_str => mk_str_store s (buf_tmp_value st)
  | BUF_tmp_value => mk_str_store (buf_str st) s
  end.

(** [args[i]->val_str(buf)] and [args[i]->null_value] afterwards. *)
Definition operand_val_str (a : str_operand) (buf : str_buffer)
    (st : str_store) : option String_ptr * str_store :=
  match a with
  | Str_null => (None, st)
  | Str_in_buffer s => (Some (Ptr_buffer buf), write_buffer st buf s)
  | Str_own s => (Some (Ptr_own s), st)
  end.

Definition operand_null_value (a : str_operand) : bool :=
  match a with
  | Str_null => true
  | Str_in_buffer _ | Str_own _ => false
  end.

(** The pointer comparison [res == str]. *)
Definition is_str (p : String_ptr) : bool :=
  match p with
  | Ptr_buffer BUF_str => true
  | Ptr_buffer BUF_tmp_value | Ptr_own _ => false
  end.

Section MinMaxStr.
Variable sortcmp : String -> String -> Z.

(** The loop of [Item_func_min_max::val_str] for the iterations [i > 0];
    [res] is the pointer to the extreme so far.  The strings are compared as
    the buffers hold them after the operand's [val_str]. *)
Fixpoint min_max_str_loop (cmp_sign : Z) (args : list str_operand)
    (res : String_ptr) (st : str_store) (this : Item_func)
  : option String_ptr * str_store * Item_func :=
  match args with
  | [] => (Some res, st, this)
  | a :: rest =>
      let '(res2, st) :=
        operand_val_str a (if is_str res then BUF_tmp_value else BUF_str)
          st in
      let res :=
        match res2 with
        | Some res2 =>
            let cmp := sortcmp (deref st res) (deref st res2) in
            if (if cmp_sign <? 0 then cmp else - cmp) <? 0 then res2
            else res
        | None => res
        end in
      let this := set_null_value this (operand_null_value a) in
      if null_value this then (None, st, this)
      else min_max_str_loop cmp_sign rest res st this
  end.

(** [Item_func_min_max::val_str], the case [STRING_RESULT] of a node whose
    comparison type is not [TIME_RESULT]; [a0] is [args[0]], [args] are
    [args[1 ..]] and [st] is what the two buffers hold at the call.  The
    result is the string that the returned pointer designates when the
    method returns, [None] for the null pointer. *)
Definition Item_func_min_max_val_str (cmp_sign : Z) (this : Item_func)
    (st : str_store) (a0 : str_operand) (args : list str_operand)
  : option String * Item_func :=
  let '(res, st) := operand_val_str a0 BUF_str st in
  let this := set_null_value this (operand_null_value a0) in
  if null_value this then (None, this)
  else
    match res with
    | Some res =>
        let '(res, st, this) := min_max_str_loop cmp_sign args res st this in
        (option_map (deref st) res, this)
    | None => (None, this)
    end.

End MinMaxStr.

(** The value of a string operand, [None] for NULL. *)
Definition str_value (a : str_operand) : option String :=
  match a with
  | Str_null => None
  | Str_in_buffer s | Str_own s => Some s
  end.

(** LEAST and GREATEST on values: the extreme of [res] and the values
    [vals] under [sortcmp], the earlier of two that compare equal; [None]
    when a value is NULL. *)
Fixpoint extreme_string (sortcmp : String -> String -> Z) (cmp_sign : Z)
    (res : String) (vals : list (option String)) : option String :=
  match vals with
  | [] => Some res
  | None :: _ => None
  | Some s :: rest =>
      extreme_string sortcmp cmp_sign
        (if (if cmp_sign <? 0 then sortcmp res s else - sortcmp res s) <? 0
         then s else res)
        rest
  end.

(** A comparison that orders the strings. *)
Definition orders (sortcmp : String -> String -> Z) : Prop :=
  (forall a, sortcmp a a = 0)
  /\ (forall a b, sortcmp a b < 0 <-> 0 < sortcmp b a)
  /\ (forall a b c, sortcmp a b <= 0 -> sortcmp b c <= 0 -> sortcmp a c <= 0).

(** * Theorems *)

(** ** Facts about the casts *)

(** A cast changes its argument by a multiple of 2^64 and lands in the range
    of its type. *)
Lemma ulonglong_spec z :
  exists k, ulonglong z = z + k * 18446744073709551616
            /\ 0 <= ulonglong z <= 18446744073709551615.
Proof.
  exists (- (z / 18446744073709551616)). unfold ulonglong.
  pose proof (Z.div_mod z 18446744073709551616 ltac:(lia)).
  pose proof (Z.mod_pos_bound z 18446744073709551616 ltac:(lia)). lia.
Qed.

Lemma longlong_spec z :
  exists k, longlong z = z + k * 18446744073709551616
            /\ -9223372036854775808 <= longlong z <= 9223372036854775807.
Proof.
  exists (- ((z + 9223372036854775808) / 18446744073709551616)).
  unfold longlong.
  pose proof (Z.div_mod (z + 9223372036854775808) 18446744073709551616
                ltac:(lia)).
  pose proof (Z.mod_pos_bound (z + 9223372036854775808) 18446744073709551616
                ltac:(lia)). lia.
Qed.

Ltac unfold_bounds :=
  unfold is_longlong, representable, fits, int_value, LONGLONG_MIN,
    LONGLONG_MAX, ULONGLONG_MAX in *.

(** A signed operation is defined exactly when its result is a
    [longlong]. *)
Lemma signed_cases (z : Z) :
  signed z = if fits false z then Some z else None.
Proof. reflexivity. Qed.

Lemma signed_defined (z : Z) : is_longlong z -> signed z = Some z.
Proof.
  intros H. unfold signed. unfold_bounds.
  destruct (Z.leb_spec (-9223372036854775808) z);
    destruct (Z.leb_spec z 9223372036854775807); cbn; first [reflexivity | lia].
Qed.

Lemma signed_undefined (z : Z) : ~ is_longlong z -> signed z = None.
Proof.
  intros H. unfold signed. unfold_bounds.
  destruct (Z.leb_spec (-9223372036854775808) z);
    destruct (Z.leb_spec z 9223372036854775807); cbn; first [reflexivity | lia].
Qed.

(** Every cast in the goal or in a hypothesis is replaced by a variable that
    is known by [ulonglong_spec] or [longlong_spec] only; what remains is
    linear integer arithmetic. *)
Ltac name_cast spec t :=
  let k := fresh "k" in
  let w := fresh "w" in
  let E := fresh "E" in
  let R := fresh "R" in
  destruct spec as (k & E & R);
  set (w := t) in *; clearbody w.

Ltac name_casts :=
  repeat match goal with
         | |- context [ulonglong ?x] =>
             name_cast (ulonglong_spec x) (ulonglong x)
         | |- context [longlong ?x] =>
             name_cast (longlong_spec x) (longlong x)
         | H : context [ulonglong ?x] |- _ =>
             name_cast (ulonglong_spec x) (ulonglong x)
         | H : context [longlong ?x] |- _ =>
             name_cast (longlong_spec x) (longlong x)
         end.

Ltac split_tests :=
  repeat match goal with
         | |- context [?a <=? ?b] => destruct (Z.leb_spec a b)
         | |- context [?a <? ?b] => destruct (Z.ltb_spec a b)
         | |- context [?a =? ?b] => destruct (Z.eqb_spec a b)
         end.

Lemma eval_value_eq (v v' : Z) (this : Item_func) (thd : THD) :
  v = v' -> (v, this, thd) = (v', this, thd).
Proof. intros ->. reflexivity. Qed.

Ltac solve_eval :=
  cbn [andb orb negb];
  first [ reflexivity
        | exfalso; lia
        | apply eval_value_eq; lia ].

(** Projections of the destructed node and operands. *)
Ltac simpl_int_op :=
  cbn [val_int arg_null_value arg_unsigned_flag unsigned_flag] in *;
  subst;
  cbn [val_int arg_null_value arg_unsigned_flag orb set_null_value
       null_value unsigned_flag result_type decimals max_length maybe_null
       fst snd].

Lemma fits_spec (u : bool) (x : Z) : fits u x = true <-> representable u x.
Proof. destruct u; unfold_bounds; lia. Qed.

Lemma fits_false (u : bool) (x : Z) : fits u x = false <-> ~ representable u x.
Proof. destruct u; unfold_bounds; lia. Qed.

Lemma fits_true_representable (x : Z) : fits false x = true -> is_longlong x.
Proof. unfold_bounds; lia. Qed.

(** A representable number is read back from the [longlong] that holds it. *)
Lemma int_value_longlong (u : bool) (x : Z) :
  representable u x -> int_value u (longlong x) = x.
Proof. destruct u; unfold_bounds; intros; name_casts; lia. Qed.

Lemma set_null_value_twice (this : Item_func) (b c : bool) :
  set_null_value (set_null_value this b) c = set_null_value this c.
Proof. reflexivity. Qed.

Lemma Item_type_eqb_eq (a b : Item_type) : Item_type_eqb a b = true <-> a = b.
Proof. destruct a, b; cbn; split; intros H; try reflexivity; discriminate. Qed.

(** The magnitude that multiplication, division and modulo work on is the
    absolute value of the operand. *)
Lemma magnitude_abs (v : Z) (u : bool) :
  is_longlong v ->
  ulonglong (if negb u && (v <? 0) then longlong (- v) else v)
  = Z.abs (int_value u v)
  /\ (negb u && (v <? 0) = (int_value u v <? 0))
  /\ 0 <= Z.abs (int_value u v) <= ULONGLONG_MAX.
Proof.
  intros Hv. destruct u; unfold_bounds; cbn [negb andb].
  - name_casts; lia.
  - destruct (Z.ltb_spec v 0); name_casts; lia.
Qed.

Lemma arg_value_nonzero (a : int_arg) :
  is_longlong (val_int a) -> val_int a <> 0 -> arg_value a <> 0.
Proof.
  destruct a as [v n u]; unfold arg_value; cbn. intros Hv Hn.
  destruct u; unfold_bounds; name_casts; lia.
Qed.

(** ** Integer addition and subtraction *)

(** [Item_func_plus::int_op] decides by the exact sum wherever its signed
    sum is defined. *)
Lemma Item_func_plus_int_op_cases :
  forall (this : Item_func) (thd : THD) (a0 a1 : int_arg),
    is_longlong (val_int a0) -> is_longlong (val_int a1) ->
    arg_null_value a0 = false -> arg_null_value a1 = false ->
    Item_func_plus_int_op this thd a0 a1
    = if plus_defined a0 a1
      then Defined (exact_or_overflow this thd (arg_value a0 + arg_value a1))
      else Undefined.
Proof.
  intros this thd a0 a1 H0 H1 N0 N1.
  unfold Item_func_plus_int_op, plus_defined. rewrite signed_cases.
  destruct (fits false (val_int a0 + val_int a1)) eqn:Ed; [|reflexivity].
  apply fits_true_representable in Ed. f_equal.
  unfold exact_or_overflow, arg_value, check_integer_overflow,
    test_if_sum_overflows_ull.
  destruct this as [rt dc ml uf mn nv], a0 as [v0 n0 u0], a1 as [v1 n1 u1].
  simpl_int_op.
  destruct uf, u0, u1;
    unfold_bounds; cbn [orb andb negb];
    name_casts; split_tests; solve_eval.
Qed.

(** C2.  Integer [+] at the operands [LONGLONG_MAX] and 1, both signed, where
    the claim asks for the overflow outcome: [int_op] computes the signed sum
    [val0 + val1] before any test, the sum 2^63 is not a [longlong], and so
    the method is undefined there, in every node and session.  It is
    undefined at [LONGLONG_MIN + (-1)] as well: the test [res >= 0] that is
    to detect the overflow of two negative operands reads an undefined
    sum. *)
Theorem Item_func_plus_int_op_signed_overflow_undefined :
  forall (this : Item_func) (thd : THD),
    Item_func_plus_int_op this thd
      (mk_int_arg LONGLONG_MAX false false) (mk_int_arg 1 false false)
    = Undefined
    /\ Item_func_plus_int_op this thd
         (mk_int_arg LONGLONG_MIN false false) (mk_int_arg (-1) false false)
       = Undefined
    /\ signed (LONGLONG_MAX + 1) = None
    /\ signed (LONGLONG_MIN + -1) = None.
Proof. intros this thd. repeat split. Qed.

(** [Item_func_minus::int_op] decides by the exact difference wherever its
    signed operations are defined. *)
Lemma Item_func_minus_int_op_cases :
  forall (this : Item_func) (thd : THD) (a0 a1 : int_arg),
    is_longlong (val_int a0) -> is_longlong (val_int a1) ->
    arg_null_value a0 = false -> arg_null_value a1 = false ->
    Item_func_minus_int_op this thd a0 a1
    = if minus_defined a0 a1
      then Defined (exact_or_overflow this thd (arg_value a0 - arg_value a1))
      else Undefined.
Proof.
  intros this thd a0 a1 H0 H1 N0 N1.
  unfold Item_func_minus_int_op, minus_defined. rewrite !signed_cases.
  destruct a0 as [v0 n0 u0], a1 as [v1 n1 u1].
  cbn [val_int arg_null_value arg_unsigned_flag] in *. subst n0 n1.
  cbn [orb]. cbv zeta.
  replace (null_value (set_null_value this false)) with false
    by (destruct this; reflexivity).
  destruct (fits false (v0 - v1)) eqn:Ed; [|reflexivity].
  apply fits_true_representable in Ed.
  unfold exact_or_overflow, arg_value, check_integer_overflow,
    test_if_sum_overflows_ull.
  cbn [val_int arg_unsigned_flag].
  destruct this as [rt dc ml uf mn nv].
  cbn [set_null_value unsigned_flag result_type decimals max_length
       maybe_null null_value].
  destruct uf, u0, u1;
    unfold_bounds; cbn [orb andb negb];
    split_tests; cbn [orb andb negb];
    try reflexivity; try (exfalso; lia);
    f_equal; name_casts; split_tests; solve_eval.
Qed.

(** X3.  Integer [+] and [-] on operands that are not NULL.  Wherever the
    method executes no undefined signed operation it is exact: the sum
    (difference) of the two operands, each read with its own signedness, is
    returned when it fits the node's signedness, and the result is the
    overflow outcome when it does not.  Everywhere else the method is
    undefined: where the sum (difference) of the two [longlong]s is not a
    [longlong], and for [-] also where [-val1] or [val0 - LONGLONG_MIN]
    overflows. *)
Theorem Item_func_plus_minus_int_op_exact_where_defined :
  forall (this : Item_func) (thd : THD) (a0 a1 : int_arg),
    is_longlong (val_int a0) -> is_longlong (val_int a1) ->
    arg_null_value a0 = false -> arg_null_value a1 = false ->
    let sum := arg_value a0 + arg_value a1 in
    let d := arg_value a0 - arg_value a1 in
    let plus := Item_func_plus_int_op this thd a0 a1 in
    let minus := Item_func_minus_int_op this thd a0 a1 in
    (plus_defined a0 a1 = true ->
       (representable (unsigned_flag this) sum ->
          plus = Defined (longlong sum, set_null_value this false, thd)
          /\ int_value (unsigned_flag this) (longlong sum) = sum)
       /\ (~ representable (unsigned_flag this) sum ->
           plus
           = Defined (raise_integer_overflow (set_null_value this false) thd)))
    /\ (plus_defined a0 a1 = false -> plus = Undefined)
    /\ (minus_defined a0 a1 = true ->
          (representable (unsigned_flag this) d ->
             minus = Defined (longlong d, set_null_value this false, thd)
             /\ int_value (unsigned_flag this) (longlong d) = d)
          /\ (~ representable (unsigned_flag this) d ->
              minus
              = Defined
                  (raise_integer_overflow (set_null_value this false) thd)))
    /\ (minus_defined a0 a1 = false -> minus = Undefined).
Proof.
  intros this thd a0 a1 H0 H1 N0 N1 sum d plus minus. subst plus minus sum d.
  rewrite (Item_func_plus_int_op_cases this thd a0 a1 H0 H1 N0 N1).
  rewrite (Item_func_minus_int_op_cases this thd a0 a1 H0 H1 N0 N1).
  unfold exact_or_overflow.
  repeat match goal with |- _ /\ _ => split end.
  - intros ->. split.
    + intros Hrep. pose proof Hrep as Hf. apply fits_spec in Hf. rewrite Hf.
      split; [reflexivity|]. apply int_value_longlong. exact Hrep.
    + intros Hrep. apply fits_false in Hrep. rewrite Hrep. reflexivity.
  - intros ->. reflexivity.
  - intros ->. split.
    + intros Hrep. pose proof Hrep as Hf. apply fits_spec in Hf. rewrite Hf.
      split; [reflexivity|]. apply int_value_longlong. exact Hrep.
    + intros Hrep. apply fits_false in Hrep. rewrite Hrep. reflexivity.
  - intros ->. reflexivity.
Qed.

(** X3 at concrete operands: [5 + (-7)] on signed operands and [7 - 9] on
    unsigned operands are both [-2] in a signed node. *)
Lemma Item_func_plus_minus_int_op_exact_where_defined_witness :
  Item_func_plus_int_op fresh_node default_thd
    (mk_int_arg 5 false false) (mk_int_arg (-7) false false)
  = Defined (-2, fresh_node, default_thd)
  /\ Item_func_minus_int_op fresh_node default_thd
       (mk_int_arg 7 false true) (mk_int_arg 9 false true)
     = Defined (-2, fresh_node, default_thd).
Proof.
  split.
  - destruct (Item_func_plus_minus_int_op_exact_where_defined fresh_node
                default_thd (mk_int_arg 5 false false)
                (mk_int_arg (-7) false false))
      as (H & _).
    + unfold is_longlong, LONGLONG_MIN, LONGLONG_MAX; simpl; lia.
    + unfold is_longlong, LONGLONG_MIN, LONGLONG_MAX; simpl; lia.
    + reflexivity.
    + reflexivity.
    + destruct (H eq_refl) as ((H' & _) & _).
      * unfold representable, LONGLONG_MIN, LONGLONG_MAX; simpl; lia.
      * exact H'.
  - destruct (Item_func_plus_minus_int_op_exact_where_defined fresh_node
                default_thd (mk_int_arg 7 false true)
                (mk_int_arg 9 false true))
      as (_ & _ & H & _).
    + unfold is_longlong, LONGLONG_MIN, LONGLONG_MAX; simpl; lia.
    + unfold is_longlong, LONGLONG_MIN, LONGLONG_MAX; simpl; lia.
    + reflexivity.
    + reflexivity.
    + destruct (H eq_refl) as ((H' & _) & _).
      * vm_compute. split; discriminate.
      * exact H'.
Defined.

(** ** Integer multiplication *)

(** C1.  Integer [*] at the operands -3 and 3074457345618258603, both
    signed, in a signed node.  The product is -9223372036854775809, one below
    [LONGLONG_MIN]; [int_op] nevertheless returns [LONGLONG_MAX], not NULL
    and with no diagnostic: the magnitude 2^63 + 1 passes the range test of
    the negative branch and its negation wraps. *)
Theorem Item_func_mul_int_op_wraps_below_min :
  Item_func_mul_int_op fresh_node default_thd
    (mk_int_arg (-3) false false)
    (mk_int_arg 3074457345618258603 false false)
  = (LONGLONG_MAX, fresh_node, default_thd)
  /\ -3 * 3074457345618258603 = LONGLONG_MIN - 1.
Proof. split; reflexivity. Qed.

(** The 32-bit halves of a [ulonglong]. *)
Lemma halves (A : Z) :
  0 <= A <= ULONGLONG_MAX ->
  A = Z.shiftr A 32 * 4294967296 + Z.land 4294967295 A
  /\ 0 <= Z.land 4294967295 A < 4294967296
  /\ 0 <= Z.shiftr A 32 < 4294967296.
Proof.
  unfold ULONGLONG_MAX. intros H.
  rewrite Z.land_comm. change 4294967295 with (Z.ones 32).
  rewrite Z.land_ones by lia. rewrite Z.shiftr_div_pow2 by lia.
  change (2 ^ 32) with 4294967296.
  pose proof (Z.div_mod A 4294967296 ltac:(lia)).
  pose proof (Z.mod_pos_bound A 4294967296 ltac:(lia)).
  assert (0 <= A / 4294967296 < 4294967296).
  { split; [apply Z.div_pos; lia | apply Z.div_lt_upper_bound; lia]. }
  lia.
Qed.

Lemma ulonglong_id z : 0 <= z <= 18446744073709551615 -> ulonglong z = z.
Proof. unfold ulonglong. intros. apply Z.mod_small. lia. Qed.

(** The half-word test of [Item_func_mul::int_op] on two magnitudes: it
    fails exactly when the product exceeds [ULONGLONG_MAX], and otherwise
    [res1 + res0] is the product. *)
Lemma mul_half_words (A B : Z) (X : Type) (err : X) (k : Z -> X) :
  0 <= A <= ULONGLONG_MAX -> 0 <= B <= ULONGLONG_MAX ->
  (let a0 := Z.land 4294967295 A in
   let a1 := Z.shiftr A 32 in
   let b0 := Z.land 4294967295 B in
   let b1 := Z.shiftr B 32 in
   if negb (a1 =? 0) && negb (b1 =? 0) then err else
   let res1 := ulonglong (a1 * b0 + a0 * b1) in
   if 4294967295 <? res1 then err else
   let res1 := ulonglong (Z.shiftl res1 32) in
   let res0 := ulonglong (a0 * b0) in
   if test_if_sum_overflows_ull res1 res0 then err else k (res1 + res0))
  = if ULONGLONG_MAX <? A * B then err else k (A * B).
Proof.
  intros HA HB.
  destruct (halves A HA) as (EA & Ha0 & Ha1).
  destruct (halves B HB) as (EB & Hb0 & Hb1).
  cbv zeta.
  generalize dependent (Z.land 4294967295 A).
  generalize dependent (Z.shiftr A 32).
  generalize dependent (Z.land 4294967295 B).
  generalize dependent (Z.shiftr B 32).
  intros b1 Hb1 b0 EB Hb0 a1 Ha1 a0 EA Ha0. subst A B.
  unfold test_if_sum_overflows_ull, ULONGLONG_MAX in *.
  destruct (Z.eqb_spec a1 0) as [->|Na]; cbn [negb andb].
  - (* a1 = 0 *)
    assert (R1 : 0 <= a0 * b1 <= 18446744073709551615) by nia.
    rewrite Z.mul_0_l, Z.add_0_l.
    rewrite (ulonglong_id (a0 * b1)) by lia.
    destruct (Z.ltb_spec 4294967295 (a0 * b1)).
    + destruct (Z.ltb_spec 18446744073709551615
                  ((0 * 4294967296 + a0) * (b1 * 4294967296 + b0)));
        [reflexivity | nia].
    + rewrite Z.shiftl_mul_pow2 by lia. change (2 ^ 32) with 4294967296.
      rewrite (ulonglong_id (a0 * b1 * 4294967296)) by lia.
      assert (R0 : 0 <= a0 * b0 <= 18446744073709551615) by nia.
      rewrite (ulonglong_id (a0 * b0)) by lia.
      replace ((0 * 4294967296 + a0) * (b1 * 4294967296 + b0))
        with (a0 * b1 * 4294967296 + a0 * b0) by ring.
      destruct (Z.ltb_spec (18446744073709551615 - a0 * b1 * 4294967296)
                  (a0 * b0));
        destruct (Z.ltb_spec 18446744073709551615
                    (a0 * b1 * 4294967296 + a0 * b0));
        try reflexivity; lia.
  - destruct (Z.eqb_spec b1 0) as [->|Nb]; cbn [negb andb].
    + assert (R1 : 0 <= a1 * b0 <= 18446744073709551615) by nia.
      rewrite Z.mul_0_r, Z.add_0_r.
      rewrite (ulonglong_id (a1 * b0)) by lia.
      destruct (Z.ltb_spec 4294967295 (a1 * b0)).
      * destruct (Z.ltb_spec 18446744073709551615
                    ((a1 * 4294967296 + a0) * (0 * 4294967296 + b0)));
          [reflexivity | nia].
      * rewrite Z.shiftl_mul_pow2 by lia. change (2 ^ 32) with 4294967296.
        rewrite (ulonglong_id (a1 * b0 * 4294967296)) by lia.
        assert (R0 : 0 <= a0 * b0 <= 18446744073709551615) by nia.
        rewrite (ulonglong_id (a0 * b0)) by lia.
        replace ((a1 * 4294967296 + a0) * (0 * 4294967296 + b0))
          with (a1 * b0 * 4294967296 + a0 * b0) by ring.
        destruct (Z.ltb_spec (18446744073709551615 - a1 * b0 * 4294967296)
                    (a0 * b0));
          destruct (Z.ltb_spec 18446744073709551615
                      (a1 * b0 * 4294967296 + a0 * b0));
          try reflexivity; lia.
    + destruct (Z.ltb_spec 18446744073709551615
                  ((a1 * 4294967296 + a0) * (b1 * 4294967296 + b0)));
        [reflexivity | nia].
Qed.

(** [Item_func_mul::int_op] decides by the exact product, unless the product
    is [LONGLONG_MIN - 1]. *)
Lemma Item_func_mul_int_op_cases :
  forall (this : Item_func) (thd : THD) (arg0 arg1 : int_arg),
    is_longlong (val_int arg0) -> is_longlong (val_int arg1) ->
    arg_null_value arg0 = false -> arg_null_value arg1 = false ->
    arg_value arg0 * arg_value arg1 <> LONGLONG_MIN - 1 ->
    Item_func_mul_int_op this thd arg0 arg1
    = if fits (unsigned_flag this) (arg_value arg0 * arg_value arg1)
      then (longlong (arg_value arg0 * arg_value arg1),
            set_null_value this false, thd)
      else raise_integer_overflow (set_null_value this false) thd.
Proof.
  intros this thd [v0 n0 u0] [v1 n1 u1] H0 H1 N0 N1;
    cbn in H0, H1, N0, N1.
  subst n0 n1. unfold arg_value; cbn [val_int arg_unsigned_flag].
  destruct (magnitude_abs v0 u0 H0) as (EA & SA & RA).
  destruct (magnitude_abs v1 u1 H1) as (EB & SB & RB).
  set (x := int_value u0 v0) in *. set (y := int_value u1 v1) in *.
  set (p := x * y). intros Hp.
  unfold Item_func_mul_int_op.
  cbn [val_int arg_null_value arg_unsigned_flag orb].
  cbv zeta. rewrite SA, SB, <- SA, <- SB, EA, EB. rewrite SA, SB.
  cbn [null_value set_null_value].
  fold (set_null_value this false).
  set (this' := set_null_value this false).
  pose proof (mul_half_words (Z.abs x) (Z.abs y) (eval Z)
                (raise_integer_overflow this' thd)
                (fun s =>
                   if negb (Bool.eqb (x <? 0) (y <? 0))
                   then
                     if ulonglong LONGLONG_MIN + 1 <? ulonglong (longlong s)
                     then raise_integer_overflow this' thd
                     else check_integer_overflow this' thd
                            (longlong (- longlong s)) false
                   else check_integer_overflow this' thd (longlong s) true)
                RA RB) as E.
  cbv zeta beta in E. rewrite E. clear E.
  rewrite <- Z.abs_mul. fold p.
  assert (Hsign : negb (Bool.eqb (x <? 0) (y <? 0)) = true -> p <= 0).
  { subst p. destruct (Z.ltb_spec x 0), (Z.ltb_spec y 0); cbn;
      intros; try discriminate; nia. }
  assert (Hsign' : negb (Bool.eqb (x <? 0) (y <? 0)) = false -> 0 <= p).
  { subst p. destruct (Z.ltb_spec x 0), (Z.ltb_spec y 0); cbn;
      intros; try discriminate; nia. }
  clearbody p. clear EA EB SA SB RA RB H0 H1.
  unfold check_integer_overflow. subst this'.
  destruct this as [rt dec ml uf mn nv].
  cbn [unsigned_flag set_null_value].
  destruct (negb (Bool.eqb (x <? 0) (y <? 0)));
    [specialize (Hsign eq_refl); clear Hsign'; rewrite Z.abs_neq by lia
    |specialize (Hsign' eq_refl); clear Hsign; rewrite Z.abs_eq by lia];
    destruct uf; unfold_bounds; cbn [orb andb negb];
    name_casts; split_tests; solve_eval.
Qed.



(** ** Integer division and modulo *)

(** C4.  Integer DIV at the operands [LONGLONG_MIN] and -1, both signed,
    where the claim asks for the overflow outcome: the magnitude of the
    dividend is computed as [-val0], the negation of [LONGLONG_MIN] is not a
    [longlong], and so the method is undefined there, in every node and
    session; the guard [res > LONGLONG_MAX] and the range check that follow
    read a value the source does not define.  The same holds at
    [LONGLONG_MIN DIV 1], whose quotient [LONGLONG_MIN] a signed node can
    hold. *)
Theorem Item_func_int_div_min_negation_undefined :
  forall (this : Item_func) (thd : THD),
    Item_func_int_div_val_int_int this thd
      (mk_int_arg LONGLONG_MIN false false) (mk_int_arg (-1) false false)
    = Undefined
    /\ Item_func_int_div_val_int_int this thd
         (mk_int_arg LONGLONG_MIN false false) (mk_int_arg 1 false false)
       = Undefined
    /\ signed (- LONGLONG_MIN) = None
    /\ Z.quot LONGLONG_MIN 1 = LONGLONG_MIN.
Proof. intros this thd. repeat split. Qed.

(** Truncated division and its remainder, from the magnitudes. *)
Lemma quot_magnitudes (x y : Z) :
  y <> 0 ->
  Z.quot x y
  = if negb (Bool.eqb (x <? 0) (y <? 0))
    then - (Z.abs x / Z.abs y) else Z.abs x / Z.abs y.
Proof.
  intros Hy.
  destruct (Z.ltb_spec x 0), (Z.ltb_spec y 0); cbn.
  - rewrite <- (Z.opp_involutive x) at 1. rewrite <- (Z.opp_involutive y) at 1.
    rewrite Z.quot_opp_opp by lia.
    rewrite Z.quot_div_nonneg by lia.
    rewrite !Z.abs_neq by lia. reflexivity.
  - rewrite <- (Z.opp_involutive x) at 1.
    rewrite Z.quot_opp_l by lia.
    rewrite Z.quot_div_nonneg by lia.
    rewrite Z.abs_neq, Z.abs_eq by lia. reflexivity.
  - rewrite <- (Z.opp_involutive y) at 1.
    rewrite Z.quot_opp_r by lia.
    rewrite Z.quot_div_nonneg by lia.
    rewrite Z.abs_eq, Z.abs_neq by lia. reflexivity.
  - rewrite Z.quot_div_nonneg by lia.
    rewrite !Z.abs_eq by lia. reflexivity.
Qed.

Lemma rem_magnitudes (x y : Z) :
  y <> 0 ->
  Z.rem x y = if x <? 0 then - (Z.abs x mod Z.abs y) else Z.abs x mod Z.abs y.
Proof.
  intros Hy.
  destruct (Z.ltb_spec x 0).
  - rewrite <- (Z.opp_involutive x) at 1. rewrite Z.rem_opp_l by lia.
    rewrite <- (Z.rem_abs_r (- x) y) by lia.
    rewrite Z.rem_mod_nonneg by lia.
    rewrite (Z.abs_neq x) by lia. reflexivity.
  - rewrite <- (Z.rem_abs_r x y) by lia.
    rewrite Z.rem_mod_nonneg by lia.
    rewrite (Z.abs_eq x) by lia. reflexivity.
Qed.

(** The magnitude of an operand whose negation is defined. *)
Lemma magnitude_defined (v : Z) (u : bool) :
  is_longlong v ->
  negb (negb u && (v =? LONGLONG_MIN)) = true ->
  (if negb u && (v <? 0) then signed (- v) else Some v)
  = Some (if negb u && (v <? 0) then longlong (- v) else v).
Proof.
  intros Hv Hd. destruct u; cbn [negb andb] in *; [reflexivity|].
  destruct (Z.ltb_spec v 0); [|reflexivity].
  destruct (Z.eqb_spec v LONGLONG_MIN); [discriminate|].
  rewrite signed_defined by (unfold_bounds; lia).
  f_equal. unfold_bounds. name_casts. lia.
Qed.

Lemma magnitude_undefined (v : Z) (u : bool) :
  negb (negb u && (v =? LONGLONG_MIN)) = false ->
  (if negb u && (v <? 0) then signed (- v) else Some v) = None.
Proof.
  intros Hd. destruct u; cbn [negb andb] in *; [discriminate|].
  destruct (Z.eqb_spec v LONGLONG_MIN) as [E|]; [|discriminate].
  rewrite E. reflexivity.
Qed.

(** The integer branch of DIV decides by the truncated quotient wherever its
    negations are defined, unless the quotient is [LONGLONG_MIN] in a signed
    node. *)
Lemma Item_func_int_div_val_int_int_cases :
  forall (this : Item_func) (thd : THD) (a0 a1 : int_arg),
    is_longlong (val_int a0) -> is_longlong (val_int a1) ->
    arg_null_value a0 = false -> arg_null_value a1 = false ->
    val_int a1 <> 0 ->
    int_div_defined a0 a1 = true ->
    (unsigned_flag this = false ->
     Z.quot (arg_value a0) (arg_value a1) <> LONGLONG_MIN) ->
    Item_func_int_div_val_int_int this thd a0 a1
    = Defined
        (exact_or_overflow this thd (Z.quot (arg_value a0) (arg_value a1))).
Proof.
  intros this thd a0 a1 H0 H1 N0 N1 Hnz Hdef.
  pose proof (arg_value_nonzero a1 H1 Hnz) as Hy.
  destruct a0 as [v0 n0 u0], a1 as [v1 n1 u1];
    cbn in H0, H1, N0, N1, Hnz.
  unfold int_div_defined in Hdef; cbn [val_int arg_unsigned_flag] in Hdef.
  apply andb_prop in Hdef as [Hd0 Hd1].
  subst n0 n1. unfold arg_value in *; cbn [val_int arg_unsigned_flag] in *.
  destruct (magnitude_abs v0 u0 H0) as (EA & SA & RA).
  destruct (magnitude_abs v1 u1 H1) as (EB & SB & RB).
  set (x := int_value u0 v0) in *. set (y := int_value u1 v1) in *.
  unfold Item_func_int_div_val_int_int, exact_or_overflow.
  cbn [val_int arg_null_value arg_unsigned_flag orb].
  cbv zeta.
  rewrite (magnitude_defined v0 u0 H0 Hd0), (magnitude_defined v1 u1 H1 Hd1).
  rewrite SA, SB, <- SA, <- SB, EA, EB. rewrite SA, SB.
  cbn [null_value set_null_value].
  fold (set_null_value this false).
  destruct (Z.eqb_spec v1 0) as [|_]; [contradiction|].
  rewrite (quot_magnitudes x y Hy).
  assert (HQ : 0 <= Z.abs x / Z.abs y <= ULONGLONG_MAX).
  { split; [apply Z.div_pos; lia|].
    apply Z.le_trans with (Z.abs x); [|lia].
    apply Z.div_le_upper_bound; nia. }
  set (Q := Z.abs x / Z.abs y) in *. clearbody Q.
  clear EA EB SA SB RA RB H0 H1 Hy Hd0 Hd1.
  unfold check_integer_overflow.
  destruct this as [rt dec ml uf mn nv].
  cbn [unsigned_flag set_null_value].
  intros Hex. f_equal.
  destruct (negb (Bool.eqb (x <? 0) (y <? 0)));
    destruct uf; try specialize (Hex eq_refl);
    unfold_bounds; cbn [orb andb negb];
    name_casts; split_tests; solve_eval.
Qed.

(** Where a negation is undefined, so is the integer branch of DIV. *)
Lemma Item_func_int_div_val_int_int_undefined :
  forall (this : Item_func) (thd : THD) (a0 a1 : int_arg),
    arg_null_value a0 = false -> arg_null_value a1 = false ->
    val_int a1 <> 0 ->
    int_div_defined a0 a1 = false ->
    Item_func_int_div_val_int_int this thd a0 a1 = Undefined.
Proof.
  intros this thd [v0 n0 u0] [v1 n1 u1] N0 N1 Hnz Hdef.
  cbn in N0, N1, Hnz. subst n0 n1.
  unfold int_div_defined in Hdef; cbn [val_int arg_unsigned_flag] in Hdef.
  unfold Item_func_int_div_val_int_int.
  cbn [val_int arg_null_value arg_unsigned_flag orb]. cbv zeta.
  replace (null_value (set_null_value this false)) with false
    by (destruct this; reflexivity).
  destruct (Z.eqb_spec v1 0) as [|_]; [contradiction|].
  apply andb_false_iff in Hdef as [Hd|Hd].
  - rewrite (magnitude_undefined v0 u0 Hd). reflexivity.
  - rewrite (magnitude_undefined v1 u1 Hd).
    destruct (if negb u0 && (v0 <? 0) then signed (- v0) else Some v0);
      reflexivity.
Qed.

(** X2.  Integer DIV on operands that are not NULL and a divisor that is not
    zero.  The method is undefined exactly when a signed operand is
    [LONGLONG_MIN], whose negation it computes.  Everywhere else it computes
    on the magnitudes and restores the sign: for a truncated quotient other
    than [LONGLONG_MIN], the quotient is returned when it fits the node's
    signedness and the result is the overflow outcome when it does not.
    [(-7) DIV 2] is [-3]. *)
Theorem Item_func_int_div_exact_where_defined :
  forall (this : Item_func) (thd : THD) (a0 a1 : int_arg),
    is_longlong (val_int a0) -> is_longlong (val_int a1) ->
    arg_null_value a0 = false -> arg_null_value a1 = false ->
    val_int a1 <> 0 ->
    let q := Z.quot (arg_value a0) (arg_value a1) in
    let r := Item_func_int_div_val_int_int this thd a0 a1 in
    (int_div_defined a0 a1 = true ->
       (q <> LONGLONG_MIN -> representable (unsigned_flag this) q ->
          r = Defined (longlong q, set_null_value this false, thd)
          /\ int_value (unsigned_flag this) (longlong q) = q)
       /\ (~ representable (unsigned_flag this) q ->
           r = Defined
                 (raise_integer_overflow (set_null_value this false) thd)))
    /\ (int_div_defined a0 a1 = false -> r = Undefined)
    /\ (unsigned_flag this = false ->
        Item_func_int_div_val_int_int this thd
          (mk_int_arg (-7) false false) (mk_int_arg 2 false false)
        = Defined (-3, set_null_value this false, thd)).
Proof.
  intros this thd a0 a1 H0 H1 N0 N1 Hnz q r. subst r q.
  split; [|split].
  - intros Hdef. split.
    + intros Hq Hrep.
      rewrite (Item_func_int_div_val_int_int_cases this thd a0 a1 H0 H1 N0 N1
                 Hnz Hdef (fun _ => Hq)).
      unfold exact_or_overflow.
      pose proof Hrep as Hf. apply fits_spec in Hf. rewrite Hf.
      split; [reflexivity|]. apply int_value_longlong. exact Hrep.
    + intros Hrep.
      rewrite (Item_func_int_div_val_int_int_cases this thd a0 a1 H0 H1 N0 N1
                 Hnz Hdef).
      * unfold exact_or_overflow.
        apply fits_false in Hrep. rewrite Hrep. reflexivity.
      * intros Hu Hq. apply Hrep. rewrite Hu, Hq. vm_compute.
        split; discriminate.
  - intros Hdef.
    apply Item_func_int_div_val_int_int_undefined; assumption.
  - intros Hu. destruct this as [rt dec ml uf mn nv]. cbn in Hu. subst uf.
    reflexivity.
Qed.

(** X2 at concrete operands: [(-7) DIV 2] on signed operands in a signed
    node. *)
Lemma Item_func_int_div_exact_where_defined_witness :
  Item_func_int_div_val_int_int fresh_node default_thd
    (mk_int_arg (-7) false false) (mk_int_arg 2 false false)
  = Defined (-3, fresh_node, default_thd).
Proof.
  destruct (Item_func_int_div_exact_where_defined fresh_node default_thd
              (mk_int_arg (-7) false false) (mk_int_arg 2 false false))
    as [H _].
  - unfold is_longlong, LONGLONG_MIN, LONGLONG_MAX; simpl; lia.
  - unfold is_longlong, LONGLONG_MIN, LONGLONG_MAX; simpl; lia.
  - reflexivity.
  - reflexivity.
  - simpl. discriminate.
  - destruct (H eq_refl) as [H' _]. destruct H' as [H' _].
    + vm_compute. discriminate.
    + vm_compute. split; discriminate.
    + exact H'.
Defined.



(** ** Division by zero *)

(** C3.  Division and modulo by zero, in every domain: with non-NULL
    operands and a zero divisor (for decimals: the package reports
    [E_DEC_DIV_ZERO]) the evaluation is defined, the result is NULL, and the
    only diagnostic is the division-by-zero warning, pushed exactly when the
    strict mode flag is set.  In particular [5 % 0], [5 DIV 0] and the
    decimal [5 / 0] are NULL, and [5.0 / 0.0] is NULL although the IEEE
    quotient is infinite. *)
Theorem division_by_zero_is_null :
  forall (P : Decimal_package) (fmod : float -> float -> float)
         (this : Item_func) (thd : THD),
    (forall a0 a1 : int_arg,
        arg_null_value a0 = false -> arg_null_value a1 = false ->
        val_int a1 = 0 ->
        Item_func_int_div_val_int_int this thd a0 a1
        = Defined
            (0, set_null_value this true, thd_after_division_by_zero thd)
        /\ Item_func_mod_int_op this thd a0 a1
           = (0, set_null_value this true, thd_after_division_by_zero thd)) /\
    (forall a0 a1 : real_arg,
        real_null_value a0 = false -> real_null_value a1 = false ->
        PrimFloat.eqb (val_real a1) 0 = true ->
        Item_func_div_real_op this thd a0 a1
        = (0%float, set_null_value this true, thd_after_division_by_zero thd)
        /\ Item_func_mod_real_op fmod this thd a0 a1
           = (0%float, set_null_value this true,
              thd_after_division_by_zero thd)) /\
    (forall (prec_increment : Z) (a0 a1 : dec_arg P),
        dec_null_value P a0 = false -> dec_null_value P a1 = false ->
        fst (decimal_div P (val_decimal P a0) (val_decimal P a1) prec_increment)
        = E_DEC_DIV_ZERO ->
        Item_func_div_decimal_op P prec_increment this thd a0 a1
        = (None, set_null_value this true, thd_after_division_by_zero thd)) /\
    (forall a0 a1 : dec_arg P,
        dec_null_value P a0 = false -> dec_null_value P a1 = false ->
        fst (decimal_mod P (val_decimal P a0) (val_decimal P a1))
        = E_DEC_DIV_ZERO ->
        Item_func_mod_decimal_op P this thd a0 a1
        = (None, set_null_value this true, thd_after_division_by_zero thd)) /\
    (forall a0 a1 : dec_arg P,
        dec_null_value P a0 = false -> dec_null_value P a1 = false ->
        fst (decimal_div P (val_decimal P a0) (val_decimal P a1) 0)
        = E_DEC_DIV_ZERO ->
        Item_func_int_div_val_int_decimal P this thd a0 a1
        = (0, set_null_value this true, thd_after_division_by_zero thd)) /\
    (let five := mk_int_arg 5 false false in
     let zero := mk_int_arg 0 false false in
     is_null (Item_func_mod_int_op this thd five zero) = true
     /\ exists r,
          Item_func_int_div_val_int_int this thd five zero = Defined r
          /\ is_null r = true) /\
    (let five := mk_real_arg 5%float false in
     let zero := mk_real_arg 0%float false in
     is_null (Item_func_div_real_op this thd five zero) = true
     /\ (5 / 0)%float = infinity).
Proof.
  intros P fmod this thd.
  assert (Hsig : signal_divide_by_null (set_null_value this false) thd
                 = (set_null_value this true, thd_after_division_by_zero thd)).
  { unfold signal_divide_by_null, thd_after_division_by_zero.
    rewrite set_null_value_twice. reflexivity. }
  repeat match goal with |- _ /\ _ => split end.
  - intros a0 a1 N0 N1 Hz. split.
    + unfold Item_func_int_div_val_int_int. rewrite N0, N1, Hz.
      cbn [orb null_value set_null_value Z.eqb].
      fold (set_null_value this false). rewrite Hsig. reflexivity.
    + unfold Item_func_mod_int_op. rewrite N0, N1, Hz.
      cbn [orb null_value set_null_value Z.eqb].
      fold (set_null_value this false). rewrite Hsig. reflexivity.
  - intros a0 a1 N0 N1 Hz. split.
    + unfold Item_func_div_real_op. rewrite N0, N1, Hz.
      cbn [orb null_value set_null_value].
      fold (set_null_value this false). rewrite Hsig. reflexivity.
    + unfold Item_func_mod_real_op. rewrite N0, N1, Hz.
      cbn [orb null_value set_null_value].
      fold (set_null_value this false). rewrite Hsig. reflexivity.
  - intros prec a0 a1 N0 N1 Hst.
    unfold Item_func_div_decimal_op, my_decimal_div. rewrite N0, N1.
    cbn [null_value set_null_value].
    destruct (decimal_div P _ _ _) as [st q]. cbn in Hst. subst st.
    cbn. fold (set_null_value this false).
    unfold signal_divide_by_null, thd_after_division_by_zero.
    destruct (MODE_ERROR_FOR_DIVISION_BY_ZERO (sql_mode thd)); reflexivity.
  - intros a0 a1 N0 N1 Hst.
    unfold Item_func_mod_decimal_op, my_decimal_mod. rewrite N0, N1.
    cbn [null_value set_null_value].
    destruct (decimal_mod P _ _) as [st q]. cbn in Hst. subst st.
    cbn. unfold signal_divide_by_null, thd_after_division_by_zero.
    destruct (MODE_ERROR_FOR_DIVISION_BY_ZERO (sql_mode thd)); reflexivity.
  - intros a0 a1 N0 N1 Hst.
    unfold Item_func_int_div_val_int_decimal, my_decimal_div. rewrite N0, N1.
    cbn [null_value set_null_value].
    destruct (decimal_div P _ _ _) as [st q]. cbn in Hst. subst st.
    cbn. unfold signal_divide_by_null, thd_after_division_by_zero.
    destruct (MODE_ERROR_FOR_DIVISION_BY_ZERO (sql_mode thd)); reflexivity.
  - cbv zeta. split; [reflexivity|].
    eexists. split; reflexivity.
  - cbv zeta. split; reflexivity.
Qed.

(** C3 at concrete operands: the decimal [5 / 0] in strict mode is NULL with
    one division-by-zero warning. *)
Lemma division_by_zero_is_null_witness :
  Item_func_div_decimal_op fixed_point_package 4 fresh_node strict_thd
    (mk_dec_arg fixed_point_package (mk_fixed_point 5 0) false)
    (mk_dec_arg fixed_point_package (mk_fixed_point 0 0) false)
  = (None, set_null_value fresh_node true,
     mkTHD (mkSql_mode true false) 4 [ER_DIVISION_BY_ZERO]).
Proof.
  pose proof (division_by_zero_is_null fixed_point_package
                (fun x _ => x) fresh_node strict_thd)
    as (_ & _ & H & _).
  apply (H 4
           (mk_dec_arg fixed_point_package (mk_fixed_point 5 0) false)
           (mk_dec_arg fixed_point_package (mk_fixed_point 0 0) false));
    reflexivity.
Defined.

(** ** Unary minus and ABS *)

(** C6, counterexample to the claim as stated: a constant integer literal
    ([INT_ITEM]) whose value is [LONGLONG_MIN] keeps the negation in the
    integer domain. *)
Lemma Item_func_neg_literal_min_stays_integer :
  let node :=
    Item_func_neg_fix_length_and_dec sample_decls fresh_node
      (int_item INT_ITEM true LONGLONG_MIN false) in
  result_type node = INT_RESULT /\ result_type node <> DECIMAL_RESULT.
Proof. split; [reflexivity | discriminate]. Qed.

(** In a signed node [Item_func_neg::int_op] decides by the exact negation. *)
Lemma Item_func_neg_int_op_exact :
  forall (this : Item_func) (thd : THD) (a0 : int_arg),
    is_longlong (val_int a0) -> arg_null_value a0 = false ->
    unsigned_flag this = false ->
    Item_func_neg_int_op this thd a0
    = if (LONGLONG_MIN <=? - arg_value a0) && (- arg_value a0 <=? LONGLONG_MAX)
      then (- arg_value a0, set_null_value this false, thd)
      else raise_integer_overflow (set_null_value this false) thd.
Proof.
  intros this thd [v n u] Hv Hn Hu; cbn in Hv, Hn, Hu. subst n.
  destruct this as [rt dec ml uf mn nv]; cbn in Hu; subst uf.
  unfold Item_func_neg_int_op, arg_value, check_integer_overflow.
  cbn [val_int arg_null_value arg_unsigned_flag orb set_null_value
       null_value unsigned_flag result_type decimals max_length maybe_null].
  destruct u; unfold_bounds; cbn [orb andb negb Bool.eqb];
    name_casts; split_tests; solve_eval.
Qed.

(** C6 (amended).  Unary minus always resolves to a signed node.  For a
    constant operand of the integer domain whose value is [LONGLONG_MIN],
    resolution moves the node to the decimal domain exactly when the operand is
    not an integer literal ([INT_ITEM]); for a literal the node stays in the
    integer domain.  In a node resolved this way integer evaluation returns
    the exact negation of the operand when that fits a signed [longlong] and
    the overflow outcome otherwise: it never wraps. *)
Theorem Item_func_neg_resolution :
  forall (D : Decls) (this : Item_func) (a0 : Item),
    let this' := Item_func_neg_fix_length_and_dec D this a0 in
    unsigned_flag this' = false /\
    (cast_to_int_type a0 = INT_RESULT -> const_item a0 = true ->
     item_val_int a0 = LONGLONG_MIN ->
       (type a0 <> INT_ITEM -> result_type this' = DECIMAL_RESULT) /\
       (type a0 = INT_ITEM -> result_type this' = INT_RESULT)) /\
    (forall (thd : THD) (a : int_arg),
        is_longlong (val_int a) -> arg_null_value a = false ->
        let r := Item_func_neg_int_op this' thd a in
        (representable false (- arg_value a) ->
           r = (- arg_value a, set_null_value this' false, thd)) /\
        (~ representable false (- arg_value a) ->
           r = raise_integer_overflow (set_null_value this' false) thd)).
Proof.
  intros D this a0 this'.
  assert (Hu : unsigned_flag this' = false) by reflexivity.
  split; [exact Hu|split].
  - intros Hc Hk Hv. subst this'.
    unfold Item_func_neg_fix_length_and_dec, Item_func_num1_fix_length_and_dec.
    rewrite Hc, Hk, Hv. cbn.
    split; intros Ht.
    + destruct (Item_type_eqb (type a0) INT_ITEM) eqn:E.
      * apply Item_type_eqb_eq in E. contradiction.
      * reflexivity.
    + rewrite Ht. reflexivity.
  - intros thd a Ha Hn r. subst r.
    rewrite (Item_func_neg_int_op_exact this' thd a Ha Hn Hu).
    unfold representable.
    destruct (Z.leb_spec LONGLONG_MIN (- arg_value a));
      destruct (Z.leb_spec (- arg_value a) LONGLONG_MAX); cbn [andb];
      split; intros; try reflexivity; lia.
Qed.

(** C6 at a concrete operand: the literal 9223372036854775808, an unsigned
    [INT_ITEM], negated in the integer domain gives [LONGLONG_MIN]. *)
Lemma Item_func_neg_resolution_witness :
  let lit := int_item INT_ITEM true LONGLONG_MIN true in
  let node := Item_func_neg_fix_length_and_dec sample_decls fresh_node lit in
  result_type node = INT_RESULT /\
  Item_func_neg_int_op node default_thd (int_arg_of lit)
  = (LONGLONG_MIN, set_null_value node false, default_thd).
Proof.
  pose proof (Item_func_neg_resolution sample_decls fresh_node
                (int_item INT_ITEM true LONGLONG_MIN true)) as (_ & H1 & H2).
  split.
  - apply H1; reflexivity.
  - destruct (H2 default_thd
                (int_arg_of (int_item INT_ITEM true LONGLONG_MIN true)))
      as [H3 _].
    + unfold is_longlong, LONGLONG_MIN, LONGLONG_MAX; simpl; lia.
    + reflexivity.
    + apply H3. vm_compute. split; discriminate.
Defined.

(** C10.  Integer ABS.  Resolution copies the operand's [unsigned_flag].  In
    an unsigned node [int_op] returns the operand unchanged; in a signed node
    it yields the overflow outcome exactly for [LONGLONG_MIN] and the
    absolute value, which fits a [longlong], for every other operand.  A NULL
    operand gives NULL. *)
Theorem Item_func_abs_int_op_spec :
  forall (D : Decls) (this : Item_func) (thd : THD) (a0 : int_arg),
    is_longlong (val_int a0) ->
    let r := Item_func_abs_int_op this thd a0 in
    (forall a : Item,
        unsigned_flag (Item_func_abs_fix_length_and_dec D this a)
        = item_unsigned_flag a) /\
    (arg_null_value a0 = true -> r = (0, set_null_value this true, thd)) /\
    (arg_null_value a0 = false ->
     (unsigned_flag this = true ->
        r = (val_int a0, set_null_value this false, thd)) /\
     (unsigned_flag this = false ->
        (r = raise_integer_overflow (set_null_value this false) thd
         <-> val_int a0 = LONGLONG_MIN) /\
        (val_int a0 <> LONGLONG_MIN ->
           r = (Z.abs (val_int a0), set_null_value this false, thd)
           /\ is_longlong (Z.abs (val_int a0))))).
Proof.
  intros D this thd [v n u] Hv r; subst r; cbn in Hv.
  unfold Item_func_abs_int_op; cbn [val_int arg_null_value].
  split; [|split].
  - intros a. unfold Item_func_abs_fix_length_and_dec. reflexivity.
  - intros ->. reflexivity.
  - intros ->. destruct this as [rt dec ml uf mn nv]; cbn.
    split; intros ->.
    + reflexivity.
    + destruct (Z.eqb_spec v LONGLONG_MIN) as [->|Hne].
      * split; [split; reflexivity | intros H; now elim H].
      * split.
        -- split; [|intros; contradiction].
           unfold raise_integer_overflow. intros H. inversion H.
        -- intros _. unfold is_longlong, LONGLONG_MIN, LONGLONG_MAX in *.
           destruct (Z.leb_spec 0 v); split;
             try (apply eval_value_eq); lia.
Qed.

(** C10 at concrete operands: ABS(-7) in a signed node. *)
Lemma Item_func_abs_int_op_spec_witness :
  Item_func_abs_int_op fresh_node default_thd (mk_int_arg (-7) false false)
  = (7, fresh_node, default_thd).
Proof.
  destruct (Item_func_abs_int_op_spec sample_decls fresh_node default_thd
              (mk_int_arg (-7) false false)) as (_ & _ & H).
  - unfold is_longlong, LONGLONG_MIN, LONGLONG_MAX; simpl; lia.
  - destruct (H eq_refl) as [_ H2].
    destruct (H2 eq_refl) as [_ H3].
    destruct H3 as [H3 _].
    + simpl. unfold LONGLONG_MIN. lia.
    + exact H3.
Defined.

(** ** Type resolution of the binary operators *)

(** C5, counterexample to the claim as stated: [+] over a temporal and an
    integer operand with scale 0 resolves to the integer domain, so the
    downgrade is not particular to [-]. *)
Lemma Item_func_plus_temporal_resolves_to_integer :
  let node :=
    Item_num_op_fix_length_and_dec sample_decls OP_PLUS 0 fresh_node
      time_item (int_item FIELD_ITEM false 1 false) in
  result_type node = INT_RESULT /\ result_type node <> DECIMAL_RESULT.
Proof. split; [reflexivity | discriminate]. Qed.

Lemma result_precision_result_type (D : Decls) (op : num_op) (prec : Z)
    (this : Item_func) (a0 a1 : Item) :
  result_type (result_precision D op prec this a0 a1) = result_type this.
Proof. destruct op; reflexivity. Qed.

(** C5 (amended).  The shared resolution of the binary arithmetic operators
    combines the operands' coercion domains [r0] and [r1] the same way for
    every operator: real when either is real or string; otherwise, when
    either is decimal or temporal, decimal, except that the node is moved to
    the integer domain when at least one operand is temporal and the computed
    scale is 0; otherwise integer.  [+] and [*] use this resolution as it is,
    [-] keeps its domain, and [/] turns an integer outcome into decimal. *)
Theorem Item_num_op_fix_length_and_dec_domain :
  forall (D : Decls) (op : num_op) (prec_increment : Z) (this : Item_func)
         (a0 a1 : Item) (thd : THD),
    let r0 := cast_to_int_type a0 in
    let r1 := cast_to_int_type a1 in
    let node := Item_num_op_fix_length_and_dec D op prec_increment this a0 a1 in
    result_type node =
      (if real_or_string r0 || real_or_string r1 then REAL_RESULT
       else if decimal_or_time r0 || decimal_or_time r1 then
         if (Item_result_eqb r0 TIME_RESULT || Item_result_eqb r1 TIME_RESULT)
            && (decimals node =? 0)
         then INT_RESULT else DECIMAL_RESULT
       else INT_RESULT)
    /\ result_type (Item_func_minus_fix_length_and_dec D thd this a0 a1)
       = result_type (Item_num_op_fix_length_and_dec D OP_MINUS 0 this a0 a1)
    /\ result_type (Item_func_div_fix_length_and_dec D thd this a0 a1)
       = match result_type
                 (Item_num_op_fix_length_and_dec D OP_DIV
                    (div_precincrement thd) this a0 a1) with
         | INT_RESULT => DECIMAL_RESULT
         | r => r
         end.
Proof.
  intros D op prec this a0 a1 thd r0 r1 node.
  split; [|split].
  - subst node. unfold Item_num_op_fix_length_and_dec. fold r0 r1.
    destruct (real_or_string r0 || real_or_string r1); [reflexivity|].
    destruct (decimal_or_time r0 || decimal_or_time r1).
    + set (n := fix_decimals D _).
      assert (Hn : result_type n = DECIMAL_RESULT).
      { subst n. unfold fix_decimals. cbn [result_type set_decimals].
        apply result_precision_result_type. }
      destruct (Item_result_eqb r0 TIME_RESULT
                || Item_result_eqb r1 TIME_RESULT); cbn [andb].
      * destruct (decimals n =? 0) eqn:E.
        -- cbn [decimals set_handler_by_result_type]. rewrite E. reflexivity.
        -- rewrite E. exact Hn.
      * exact Hn.
    + cbn [result_type set_decimals].
      apply result_precision_result_type.
  - unfold Item_func_minus_fix_length_and_dec.
    destruct (_ && _); reflexivity.
  - unfold Item_func_div_fix_length_and_dec.
    set (n := Item_num_op_fix_length_and_dec D OP_DIV _ _ _ _).
    cbn [result_type set_maybe_null].
    destruct (result_type n) eqn:E; try reflexivity; try exact E.
    destruct (_ =? _); cbn; exact E.
Qed.

(** ** ROUND *)

(** C8.  Integer ROUND at the unsigned literal 18446744073709551615 and the
    constant digit count -1.  The node resolves to the integer domain,
    unsigned.  [my_unsigned_round] adds 10 to 18446744073709551610, which
    wraps around to 4; rounding that result again gives 0.  So
    ROUND(ROUND(x, -1), -1) and ROUND(x, -1) differ, and neither call is NULL
    or leaves a diagnostic. *)
Theorem Item_func_round_int_op_not_idempotent :
  let n := int_item INT_ITEM true (-1) false in
  let node :=
    Item_func_round_fix_length_and_dec sample_decls false fresh_node
      ulonglong_max_item n in
  let r1 :=
    Item_func_round_int_op false node default_thd
      (int_arg_of ulonglong_max_item) (int_arg_of n) in
  let r2 :=
    Item_func_round_int_op false node default_thd
      (mk_int_arg (returned r1) false true) (int_arg_of n) in
  result_type node = INT_RESULT /\ unsigned_flag node = true
  /\ r1 = (4, node, default_thd) /\ r2 = (0, node, default_thd)
  /\ my_unsigned_round ULONGLONG_MAX 10 = 4.
Proof. repeat split. Qed.

Lemma fixed_point_round_half (k : Z) :
  0 <= k ->
  fixed_point_round (mk_fixed_point (10 * k + 5) 1) 0 false
  = (E_DEC_OK, mk_fixed_point (k + 1) 0)
  /\ fixed_point_round (mk_fixed_point (- (10 * k + 5)) 1) 0 false
     = (E_DEC_OK, mk_fixed_point (- (k + 1)) 0).
Proof.
  intros Hk.
  assert (Hq : (10 * k + 5) / 10 = k)
    by (symmetry; apply (Z.div_unique _ 10 k 5); lia).
  assert (Hr : (10 * k + 5) mod 10 = 5)
    by (symmetry; apply (Z.mod_unique _ 10 k 5); lia).
  unfold fixed_point_round; cbn [scale unscaled].
  change (1 <=? 0) with false. change (1 - 0) with 1.
  change (10 ^ 1) with 10. change (0 <=? 0) with true. cbv iota.
  split.
  - rewrite Z.abs_eq by lia. rewrite Hq, Hr.
    change (10 <=? 2 * 5) with true. cbv iota.
    rewrite Z.sgn_pos by lia. apply f_equal, f_equal2; lia.
  - rewrite Z.abs_neq by lia. rewrite Z.opp_involutive. rewrite Hq, Hr.
    change (10 <=? 2 * 5) with true. cbv iota.
    rewrite Z.sgn_neg by lia. apply f_equal, f_equal2; lia.
Qed.

(** C7.  ROUND in the decimal and in the real domain, on the models of the
    decimal package and of the host's [rint].  A decimal half-way value is
    rounded away from zero: 2.5 gives 3, and so does every [k + 0.5] and its
    negative.  The real path is [rint (value * tmp) / tmp]: 2.5e0 gives 2,
    3.5e0 gives 4 and -2.5e0 gives -2.  The two paths disagree on 2.5. *)
Theorem Item_func_round_half_way_by_domain :
  forall (this : Item_func) (thd : THD),
    decimals this = 0 ->
    let zero := mk_int_arg 0 false false in
    let dec_round (u : Z) :=
      returned
        (Item_func_round_decimal_op fixed_point_package false this thd
           (mk_dec_arg fixed_point_package (mk_fixed_point u 1) false) zero) in
    let real_round (x : float) :=
      returned
        (Item_func_round_real_op host_libm false this thd
           (mk_real_arg x false) zero) in
    dec_round 25 = Some (mk_fixed_point 3 0)
    /\ (forall k : Z, 0 <= k ->
          dec_round (10 * k + 5) = Some (mk_fixed_point (k + 1) 0)
          /\ dec_round (- (10 * k + 5)) = Some (mk_fixed_point (- (k + 1)) 0))
    /\ real_round 2.5%float = 2%float
    /\ real_round 3.5%float = 4%float
    /\ real_round (-2.5)%float = (-2)%float
    /\ (forall (m : Libm) (x : float),
          isinf (pow10 m 0) = false -> isinf (x * pow10 m 0)%float = false ->
          my_double_round m x 0 false false
          = (rint m (x * pow10 m 0) / pow10 m 0)%float).
Proof.
  intros this thd Hd zero dec_round real_round.
  assert (Hk : forall k : Z, 0 <= k ->
            dec_round (10 * k + 5) = Some (mk_fixed_point (k + 1) 0)
            /\ dec_round (- (10 * k + 5)) = Some (mk_fixed_point (- (k + 1)) 0)).
  { intros k Hk. subst dec_round.
    unfold Item_func_round_decimal_op, my_decimal_round, returned.
    cbn [val_int arg_unsigned_flag arg_null_value zero dec_null_value
         val_decimal orb Z.leb Z.compare].
    rewrite Hd. cbn [Z.min Z.compare ulonglong Z.modulo Z.div_eucl].
    cbn [decimal_round fixed_point_package].
    destruct (fixed_point_round_half k Hk) as [-> ->].
    split; reflexivity. }
  repeat match goal with |- _ /\ _ => split end.
  - apply (Hk 2). lia.
  - exact Hk.
  - reflexivity.
  - reflexivity.
  - reflexivity.
  - intros m x H1 H2. unfold my_double_round.
    cbn [Z.ltb Z.compare andb negb ulonglong Z.modulo Z.div_eucl].
    rewrite H1, H2. reflexivity.
Qed.

(** C7 at a concrete node. *)
Lemma Item_func_round_half_way_by_domain_witness :
  returned
    (Item_func_round_decimal_op fixed_point_package false fresh_node
       default_thd
       (mk_dec_arg fixed_point_package (mk_fixed_point 25 1) false)
       (mk_int_arg 0 false false))
  = Some (mk_fixed_point 3 0)
  /\ returned
       (Item_func_round_real_op host_libm false fresh_node default_thd
          (mk_real_arg 2.5%float false) (mk_int_arg 0 false false))
     = 2%float.
Proof.
  pose proof (Item_func_round_half_way_by_domain fresh_node default_thd
                eq_refl) as (H1 & _ & H2 & _).
  split; [exact H1 | exact H2].
Defined.

(** The powers of ten that [Item_func_round::int_op] divides by. *)
Lemma log_10_int_cases (k : Z) :
  1 <= k < 20 ->
  10 <= log_10_int k <= 10000000000000000000.
Proof.
  intros Hk. unfold log_10_int.
  assert (C : k = 1 \/ k = 2 \/ k = 3 \/ k = 4 \/ k = 5 \/ k = 6 \/ k = 7
              \/ k = 8 \/ k = 9 \/ k = 10 \/ k = 11 \/ k = 12 \/ k = 13
              \/ k = 14 \/ k = 15 \/ k = 16 \/ k = 17 \/ k = 18 \/ k = 19)
    by lia.
  repeat (destruct C as [-> | C]; [vm_compute; split; discriminate|]).
  subst k. vm_compute; split; discriminate.
Qed.

(** Truncating a [ulonglong] to a multiple of [T] does not wrap and is
    stable. *)
Lemma truncate_unsigned (U T : Z) :
  0 <= U <= ULONGLONG_MAX -> 0 < T ->
  0 <= U / T * T <= U /\ (U / T * T) / T * T = U / T * T.
Proof.
  intros HU HT.
  pose proof (Z.div_mod U T ltac:(lia)).
  pose proof (Z.mod_pos_bound U T HT).
  pose proof (Z.div_pos U T ltac:(lia) HT).
  split; [nia|]. rewrite Z.div_mul by lia. reflexivity.
Qed.




(** ** LEAST and GREATEST *)

Section MinMaxFacts.
Context {A Arg : Type}.
Variable lt : A -> A -> bool.
Variable val : Arg -> A.
Variable null : Arg -> bool.

Lemma min_max_loop_log (cmp_sign : Z) (args : list Arg) :
  forall (i : nat) (value : A) (this : Item_func) (log : list nat),
    snd (min_max_loop lt val null cmp_sign i args value this log)
    = log ++ seq i (length (up_to_first_null null args)).
Proof.
  induction args as [|a rest IH]; intros i value this log; cbn.
  - now rewrite app_nil_r.
  - destruct (null a) eqn:E; cbn.
    + reflexivity.
    + rewrite IH, <- app_assoc. reflexivity.
Qed.

Lemma min_max_loop_null (cmp_sign : Z) (args : list Arg) :
  forall (i : nat) (value : A) (this : Item_func) (log : list nat),
    null_value (snd (fst (min_max_loop lt val null cmp_sign i args value
                            this log)))
    = match args with
      | [] => null_value this
      | _ => existsb null args
      end.
Proof.
  induction args as [|a rest IH]; intros i value this log; cbn.
  - reflexivity.
  - destruct (null a) eqn:E; cbn.
    + reflexivity.
    + rewrite IH. destruct rest; reflexivity.
Qed.

End MinMaxFacts.

Lemma min_max_loop_least (args : list int_arg) :
  forall (i : nat) (value : Z) (this : Item_func) (log : list nat),
    i <> 0%nat -> existsb arg_null_value args = false ->
    fst (fst (min_max_loop Z.ltb val_int arg_null_value 1 i args value
                this log))
    = fold_left Z.min (map val_int args) value.
Proof.
  induction args as [|a rest IH]; intros i value this log Hi Hn; cbn.
  - reflexivity.
  - cbn in Hn. apply orb_false_elim in Hn as [Ha Hr]. rewrite Ha. cbn.
    destruct i as [|i]; [contradiction|]. cbn [Nat.eqb].
    rewrite IH by (auto; discriminate). f_equal.
    destruct (Z.ltb_spec (val_int a) value); cbn; lia.
Qed.

Lemma min_max_loop_greatest (args : list int_arg) :
  forall (i : nat) (value : Z) (this : Item_func) (log : list nat),
    i <> 0%nat -> existsb arg_null_value args = false ->
    fst (fst (min_max_loop Z.ltb val_int arg_null_value (-1) i args value
                this log))
    = fold_left Z.max (map val_int args) value.
Proof.
  induction args as [|a rest IH]; intros i value this log Hi Hn; cbn.
  - reflexivity.
  - cbn in Hn. apply orb_false_elim in Hn as [Ha Hr]. rewrite Ha. cbn.
    destruct i as [|i]; [contradiction|]. cbn [Nat.eqb].
    rewrite IH by (auto; discriminate). f_equal.
    destruct (Z.ltb_spec (val_int a) value); cbn; lia.
Qed.

Lemma fold_left_min_spec (l : list Z) :
  forall v, let m := fold_left Z.min l v in
    (m = v \/ In m l) /\ m <= v /\ Forall (fun x => m <= x) l.
Proof.
  induction l as [|x l IH]; intros v; cbn.
  - repeat split; [now left | lia | constructor].
  - destruct (IH (Z.min v x)) as (Hin & Hle & Hall).
    repeat split.
    + destruct Hin as [-> | Hin]; [|now right; right].
      destruct (Z.min_spec v x) as [[_ ->] | [_ ->]]; [now left | now right; left].
    + lia.
    + constructor; [lia | exact Hall].
Qed.

Lemma fold_left_max_spec (l : list Z) :
  forall v, let m := fold_left Z.max l v in
    (m = v \/ In m l) /\ v <= m /\ Forall (fun x => x <= m) l.
Proof.
  induction l as [|x l IH]; intros v; cbn.
  - repeat split; [now left | lia | constructor].
  - destruct (IH (Z.max v x)) as (Hin & Hle & Hall).
    repeat split.
    + destruct Hin as [-> | Hin]; [|now right; right].
      destruct (Z.max_spec v x) as [[_ ->] | [_ ->]]; [now right; left | now left].
    + lia.
    + constructor; [lia | exact Hall].
Qed.

(** A signed operand stands for the [longlong] it evaluates to. *)
Lemma signed_args_value (args : list int_arg) :
  forallb (fun a => negb (arg_unsigned_flag a)) args = true ->
  map arg_value args = map val_int args
  /\ Forall (fun a => arg_value a = val_int a) args.
Proof.
  induction args as [|a rest IH]; cbn; intros H.
  - split; constructor.
  - apply andb_prop in H as [Ha Hr]. destruct (IH Hr) as [IH1 IH2].
    assert (E : arg_value a = val_int a).
    { unfold arg_value. destruct (arg_unsigned_flag a);
        [discriminate | reflexivity]. }
    split; [now rewrite E, IH1 | constructor; assumption].
Qed.

(** *** The order of the doubles *)

Ltac split_compare :=
  repeat match goal with
         | H : context [PosDef.Pos.compare_cont Eq ?a ?b] |- _ =>
             change (PosDef.Pos.compare_cont Eq a b) with (Pos.compare a b)
               in H
         | |- context [PosDef.Pos.compare_cont Eq ?a ?b] =>
             change (PosDef.Pos.compare_cont Eq a b) with (Pos.compare a b)
         end;
  repeat match goal with
         | H : context [Z.compare ?a ?b] |- _ =>
             destruct (Z.compare_spec a b)
         | |- context [Z.compare ?a ?b] => destruct (Z.compare_spec a b)
         | H : context [Pos.compare ?a ?b] |- _ =>
             destruct (Pos.compare_spec a b)
         | |- context [Pos.compare ?a ?b] => destruct (Pos.compare_spec a b)
         end.

(** [<=] on IEEE values is transitive, and off NaN it is reflexive and
    total. *)
Lemma SFleb_trans (x y z : spec_float) :
  SFleb x y = true -> SFleb y z = true -> SFleb x z = true.
Proof.
  unfold SFleb, SFcompare.
  destruct x as [sx|sx| |sx mx ex], y as [sy|sy| |sy my ey],
    z as [sz|sz| |sz mz ez];
    try discriminate; try reflexivity;
    try destruct sx; try destruct sy; try destruct sz;
    try discriminate; try reflexivity;
    intros Hxy Hyz; split_compare; cbn in *;
    try discriminate; try reflexivity; exfalso; subst; lia.
Qed.

Lemma SFltb_false_leb (x y : spec_float) :
  x <> S754_nan -> y <> S754_nan -> SFltb x y = false -> SFleb y x = true.
Proof.
  unfold SFleb, SFltb, SFcompare.
  destruct x as [sx|sx| |sx mx ex], y as [sy|sy| |sy my ey];
    try congruence; try reflexivity;
    try destruct sx; try destruct sy;
    try discriminate; try reflexivity;
    intros _ _ H; split_compare; cbn in *;
    try discriminate; try reflexivity; exfalso; subst; lia.
Qed.

Lemma SFltb_leb (x y : spec_float) : SFltb x y = true -> SFleb x y = true.
Proof.
  unfold SFleb, SFltb. destruct (SFcompare x y) as [[| |]|];
    try discriminate; reflexivity.
Qed.

Lemma SFleb_refl (x : spec_float) : x <> S754_nan -> SFleb x x = true.
Proof.
  unfold SFleb, SFcompare.
  destruct x as [sx|sx| |sx mx ex]; try congruence; try reflexivity;
    destruct sx; try reflexivity; intros _;
    rewrite Z.compare_refl;
    change (PosDef.Pos.compare_cont Eq mx mx) with (Pos.compare mx mx);
    rewrite Pos.compare_refl; reflexivity.
Qed.

Lemma is_nan_false (x : float) : is_nan x = false -> Prim2SF x <> S754_nan.
Proof.
  unfold is_nan. rewrite eqb_spec. intros H E. rewrite E in H. discriminate.
Qed.

Lemma float_leb_trans (x y z : float) :
  PrimFloat.leb x y = true -> PrimFloat.leb y z = true ->
  PrimFloat.leb x z = true.
Proof. rewrite !leb_spec. apply SFleb_trans. Qed.

Lemma float_ltb_false_leb (x y : float) :
  is_nan x = false -> is_nan y = false ->
  PrimFloat.ltb x y = false -> PrimFloat.leb y x = true.
Proof.
  intros Hx Hy. rewrite ltb_spec, leb_spec.
  apply SFltb_false_leb; apply is_nan_false; assumption.
Qed.

Lemma float_ltb_leb (x y : float) :
  PrimFloat.ltb x y = true -> PrimFloat.leb x y = true.
Proof. rewrite ltb_spec, leb_spec. apply SFltb_leb. Qed.

Lemma float_leb_refl (x : float) :
  is_nan x = false -> PrimFloat.leb x x = true.
Proof.
  intros Hx. rewrite leb_spec. apply SFleb_refl, is_nan_false, Hx.
Qed.

(** *** The extreme that the loops keep *)

Section MinMaxExtreme.
Context {A Arg : Type}.
Variable lt le : A -> A -> bool.
Variable good : A -> Prop.
Variable val : Arg -> A.
Variable null : Arg -> bool.
Hypothesis le_trans :
  forall x y z, le x y = true -> le y z = true -> le x z = true.
Hypothesis lt_le : forall x y, lt x y = true -> le x y = true.
Hypothesis not_lt_le :
  forall x y, good x -> good y -> lt x y = false -> le y x = true.
Hypothesis le_refl : forall x, good x -> le x x = true.

(** One comparison of the loop. *)
Lemma min_max_step (cmp_sign : Z) (value tmp : A) :
  cmp_sign = 1 \/ cmp_sign = -1 -> good value -> good tmp ->
  let value' :=
    if 0 <? (if lt tmp value then cmp_sign else - cmp_sign) then tmp
    else value in
  (value' = tmp \/ value' = value)
  /\ within le cmp_sign value' tmp
  /\ (forall x, within le cmp_sign value x -> within le cmp_sign value' x).
Proof.
  intros Hs Hv Ht value'. subst value'. unfold within.
  destruct Hs as [-> | ->]; cbn [Z.ltb Z.compare Z.opp];
    destruct (lt tmp value) eqn:El; cbn [Z.ltb Z.compare].
  - split; [left; reflexivity|]. split; [apply le_refl, Ht|].
    intros x Hx. apply le_trans with value; [apply lt_le, El | exact Hx].
  - split; [right; reflexivity|].
    split; [apply not_lt_le; assumption|]. intros x Hx. exact Hx.
  - split; [right; reflexivity|]. split; [apply lt_le, El|].
    intros x Hx. exact Hx.
  - split; [left; reflexivity|]. split; [apply le_refl, Ht|].
    intros x Hx. apply le_trans with value; [exact Hx|].
    apply not_lt_le; assumption.
Qed.

(** What the loop returns is the value of an operand, and no operand's
    value is beyond it. *)
Lemma min_max_loop_extreme (cmp_sign : Z) (args : list Arg) :
  cmp_sign = 1 \/ cmp_sign = -1 ->
  forall (i : nat) (value : A) (this : Item_func) (log : list nat),
    i <> 0%nat -> existsb null args = false ->
    Forall (fun a => good (val a)) args -> good value ->
    let r := fst (fst (min_max_loop lt val null cmp_sign i args value this
                         log)) in
    (r = value \/ In r (map val args))
    /\ within le cmp_sign r value
    /\ Forall (fun a => within le cmp_sign r (val a)) args.
Proof.
  intros Hs.
  induction args as [|a rest IH]; intros i value this log Hi Hn Hg Hv.
  - cbn. split; [left; reflexivity|]. split; [|constructor].
    unfold within. destruct (cmp_sign <? 0); apply le_refl, Hv.
  - cbn in Hn. apply orb_false_elim in Hn as [Ha Hr].
    inversion Hg as [|? ? Hga Hgr]; subst.
    cbn [min_max_loop]. rewrite Ha. cbn [negb andb].
    destruct i as [|i]; [contradiction|]. cbn [Nat.eqb].
    replace (null_value (set_null_value this false)) with false
      by (destruct this; reflexivity).
    destruct (min_max_step cmp_sign value (val a) Hs Hv Hga)
      as (Hwhich & Hin & Hkeep).
    set (value' := if 0 <? _ then val a else value) in *.
    assert (Hv' : good value')
      by (destruct Hwhich as [-> | ->]; assumption).
    specialize (IH (S (S i)) value' (set_null_value this false)
                  (log ++ [S i]) ltac:(discriminate) Hr Hgr Hv').
    cbv zeta in IH.
    set (r := fst (fst (min_max_loop lt val null cmp_sign (S (S i)) rest
                          value' (set_null_value this false)
                          (log ++ [S i])))) in *.
    destruct IH as (IH1 & IH2 & IH3).
    assert (Hstep : forall x, within le cmp_sign value' x -> within le cmp_sign r x).
    { intros x Hx. unfold within in *.
      destruct (cmp_sign <? 0).
      - apply le_trans with value'; assumption.
      - apply le_trans with value'; assumption. }
    split; [|split].
    + destruct IH1 as [-> | IH1].
      * destruct Hwhich as [-> | ->];
          [right; left; reflexivity | left; reflexivity].
      * right. right. exact IH1.
    + apply Hstep, Hkeep. unfold within.
      destruct (cmp_sign <? 0); apply le_refl, Hv.
    + constructor; [apply Hstep, Hin | exact IH3].
Qed.

(** The same from the first iteration. *)
Lemma min_max_loop_extreme_first (cmp_sign : Z) (args : list Arg) (a0 : A)
    (this : Item_func) :
  cmp_sign = 1 \/ cmp_sign = -1 ->
  args <> [] -> existsb null args = false ->
  Forall (fun a => good (val a)) args ->
  let r := fst (fst (min_max_loop lt val null cmp_sign 0 args a0 this [])) in
  In r (map val args) /\ Forall (fun a => within le cmp_sign r (val a)) args.
Proof.
  intros Hs Hne Hn Hg.
  destruct args as [|a rest]; [contradiction|].
  cbn in Hn. apply orb_false_elim in Hn as [Ha Hr].
  inversion Hg as [|? ? Hga Hgr]; subst.
  cbn [min_max_loop Nat.eqb]. rewrite Ha.
  replace (null_value (set_null_value this false)) with false
    by (destruct this; reflexivity).
  destruct (min_max_loop_extreme cmp_sign rest Hs 1%nat (val a)
              (set_null_value this false) ([] ++ [0%nat])
              ltac:(discriminate) Hr Hgr Hga) as (H1 & H2 & H3).
  split.
  - destruct H1 as [-> | H1]; [left; reflexivity | right; exact H1].
  - constructor; assumption.
Qed.

End MinMaxExtreme.

(** The loop of [get_date] logs the operands up to the first NULL, fails
    exactly when there is one, and keeps the extreme packed value. *)
Lemma get_date_loop_log (cmp_sign : Z) (args : list int_arg) :
  forall (i : nat) (min_max : Z) (log : list nat),
    snd (get_date_loop cmp_sign i args min_max log)
    = log ++ seq i (length (up_to_first_null arg_null_value args)).
Proof.
  induction args as [|a rest IH]; intros i m log; cbn.
  - now rewrite app_nil_r.
  - destruct (arg_null_value a) eqn:E; cbn.
    + reflexivity.
    + rewrite IH, <- app_assoc. reflexivity.
Qed.

Lemma get_date_loop_null (cmp_sign : Z) (args : list int_arg) :
  forall (i : nat) (min_max : Z) (log : list nat),
    existsb arg_null_value args = true ->
    fst (get_date_loop cmp_sign i args min_max log) = None.
Proof.
  induction args as [|a rest IH]; intros i m log H; cbn in *.
  - discriminate.
  - destruct (arg_null_value a); [reflexivity|]. apply IH. exact H.
Qed.

Lemma get_date_loop_extreme (cmp_sign : Z) (args : list int_arg) :
  cmp_sign = 1 \/ cmp_sign = -1 ->
  forall (i : nat) (min_max : Z) (log : list nat),
    i <> 0%nat -> existsb arg_null_value args = false ->
    exists m,
      fst (get_date_loop cmp_sign i args min_max log) = Some m
      /\ (m = min_max \/ In m (map val_int args))
      /\ (if cmp_sign <? 0 then min_max <= m else m <= min_max)
      /\ Forall (fun a => if cmp_sign <? 0 then val_int a <= m
                          else m <= val_int a) args.
Proof.
  intros Hs.
  induction args as [|a rest IH]; intros i m log Hi Hn.
  - exists m. cbn. split; [reflexivity|]. split; [left; reflexivity|].
    split; [destruct (cmp_sign <? 0); lia | constructor].
  - cbn in Hn. apply orb_false_elim in Hn as [Ha Hr].
    cbn [get_date_loop]. rewrite Ha.
    destruct i as [|i]; [contradiction|]. cbn [Nat.eqb orb].
    set (m' := if 0 <? _ then val_int a else m).
    destruct (IH (S (S i)) m' (log ++ [S i]) ltac:(discriminate) Hr)
      as (r & Er & Hin & Hle & Hall).
    exists r. split; [exact Er|].
    assert (Hm' : (m' = val_int a \/ m' = m)
                  /\ (if cmp_sign <? 0 then m <= m' /\ val_int a <= m'
                      else m' <= m /\ m' <= val_int a)).
    { subst m'. destruct Hs as [-> | ->]; cbn [Z.ltb Z.compare Z.opp];
        destruct (Z.ltb_spec (val_int a) m); cbn [Z.ltb Z.compare]; lia. }
    destruct Hm' as (Hwhich & Hb).
    split; [|split].
    + destruct Hin as [-> | Hin].
      * destruct Hwhich as [-> | ->];
          [right; left; reflexivity | left; reflexivity].
      * right. right. exact Hin.
    + destruct (cmp_sign <? 0); lia.
    + constructor; [destruct (cmp_sign <? 0); lia | exact Hall].
Qed.

Lemma get_date_loop_extreme_first (cmp_sign : Z) (args : list int_arg) :
  cmp_sign = 1 \/ cmp_sign = -1 ->
  args <> [] -> existsb arg_null_value args = false ->
  exists m,
    fst (get_date_loop cmp_sign 0 args 0 []) = Some m
    /\ In m (map val_int args)
    /\ Forall (fun a => if cmp_sign <? 0 then val_int a <= m
                        else m <= val_int a) args.
Proof.
  intros Hs Hne Hn. destruct args as [|a rest]; [contradiction|].
  cbn in Hn. apply orb_false_elim in Hn as [Ha Hr].
  cbn [get_date_loop Nat.eqb orb]. rewrite Ha.
  destruct (get_date_loop_extreme cmp_sign rest Hs 1%nat (val_int a)
              ([] ++ [0%nat]) ltac:(discriminate) Hr)
    as (r & Er & Hin & Hle & Hall).
  exists r. split; [exact Er|]. split.
  - destruct Hin as [-> | Hin]; [left; reflexivity | right; exact Hin].
  - constructor; [exact Hle | exact Hall].
Qed.

(** C9, counterexample to the claim as stated: in LEAST(NULL, 1) only the
    first operand is evaluated; the loop leaves at the NULL and the second
    operand is never evaluated. *)
Lemma Item_func_min_max_stops_at_first_null :
  Item_func_min_max_val_int (fun _ => None) INT_RESULT 1 fresh_node []
    [mk_int_arg 0 true false; mk_int_arg 1 false false]
  = (0, set_null_value fresh_node true, [0%nat]).
Proof. reflexivity. Qed.

(** C9 (amended).  LEAST/GREATEST over [n >= 1] operands.  In every domain
    the operands are evaluated from left to right, each at most once, up to
    and including the first operand that is NULL (later operands are not
    evaluated), and a NULL operand makes the result NULL.  In a non-temporal
    domain the result is NULL exactly when some operand is NULL.  When none
    is, the loop has kept the extreme, the least value for [cmp_sign = 1] and
    the greatest one for [cmp_sign = -1]: for signed integer operands the
    integer result is an operand value and no operand value is beyond it; for
    real operands none of which is NaN the real result is an operand value
    and no operand value is beyond it under the IEEE comparison; in the
    temporal domain the packed value that is handed to the conversion into
    the caller's domain is an operand's packed value and none is beyond it.
    LEAST(1, 2, NULL) is NULL. *)
Theorem Item_func_min_max_null_propagation :
  forall (date_to_int : Z -> option Z) (date_to_real : Z -> option float)
         (cmp_type : Item_result) (cmp_sign : Z) (this : Item_func)
         (targs args : list int_arg) (rargs : list real_arg),
    let ri :=
      Item_func_min_max_val_int date_to_int cmp_type cmp_sign this targs args in
    let rr :=
      Item_func_min_max_val_real date_to_real cmp_type cmp_sign this targs
        rargs in
    (cmp_type <> TIME_RESULT -> args <> [] -> rargs <> [] ->
       snd ri = seq 0 (length (up_to_first_null arg_null_value args))
       /\ snd rr = seq 0 (length (up_to_first_null real_null_value rargs))
       /\ null_value (snd (fst ri)) = existsb arg_null_value args
       /\ null_value (snd (fst rr)) = existsb real_null_value rargs
       /\ (existsb arg_null_value args = false ->
           forallb (fun a => negb (arg_unsigned_flag a)) args = true ->
           cmp_sign = 1 ->
             In (fst (fst ri)) (map arg_value args)
             /\ Forall (fun a => fst (fst ri) <= arg_value a) args)
       /\ (existsb arg_null_value args = false ->
           forallb (fun a => negb (arg_unsigned_flag a)) args = true ->
           cmp_sign = -1 ->
             In (fst (fst ri)) (map arg_value args)
             /\ Forall (fun a => arg_value a <= fst (fst ri)) args)
       /\ (existsb real_null_value rargs = false ->
           Forall (fun a => is_nan (val_real a) = false) rargs ->
           cmp_sign = 1 ->
             In (fst (fst rr)) (map val_real rargs)
             /\ Forall (fun a =>
                          PrimFloat.leb (fst (fst rr)) (val_real a) = true)
                  rargs)
       /\ (existsb real_null_value rargs = false ->
           Forall (fun a => is_nan (val_real a) = false) rargs ->
           cmp_sign = -1 ->
             In (fst (fst rr)) (map val_real rargs)
             /\ Forall (fun a =>
                          PrimFloat.leb (val_real a) (fst (fst rr)) = true)
                  rargs))
    /\ (cmp_type = TIME_RESULT -> existsb arg_null_value targs = true ->
          null_value (snd (fst ri)) = true
          /\ null_value (snd (fst rr)) = true)
    /\ (cmp_type = TIME_RESULT -> targs <> [] ->
          snd ri = seq 0 (length (up_to_first_null arg_null_value targs))
          /\ snd rr = seq 0 (length (up_to_first_null arg_null_value targs))
          /\ (existsb arg_null_value targs = false ->
              cmp_sign = 1 \/ cmp_sign = -1 ->
              exists m,
                In m (map val_int targs)
                /\ Forall (fun a => if cmp_sign <? 0 then val_int a <= m
                                    else m <= val_int a) targs
                /\ fst ri
                   = match date_to_int m with
                     | Some v => (v, set_null_value this false)
                     | None => (0, set_null_value this true)
                     end
                /\ fst rr
                   = match date_to_real m with
                     | Some v => (v, set_null_value this false)
                     | None => (0%float, set_null_value this true)
                     end))
    /\ null_value
         (snd (fst (Item_func_min_max_val_int date_to_int INT_RESULT 1 this []
                      [mk_int_arg 1 false false; mk_int_arg 2 false false;
                       mk_int_arg 0 true false])))
       = true.
Proof.
  intros d2i d2r cmp_type cmp_sign this targs args rargs ri rr.
  split; [|split; [|split]].
  - intros Ht Ha Hr.
    assert (E : Item_result_eqb cmp_type TIME_RESULT = false)
      by (destruct cmp_type; try reflexivity; now elim Ht).
    subst ri rr.
    unfold Item_func_min_max_val_int, Item_func_min_max_val_real.
    rewrite E.
    rewrite !min_max_loop_log, !min_max_loop_null. cbn [app].
    repeat match goal with |- _ /\ _ => split end; try reflexivity.
    + destruct args; [contradiction | reflexivity].
    + destruct rargs; [contradiction | reflexivity].
    + intros Hn Hs ->. destruct (signed_args_value args Hs) as [Em Ev].
      rewrite Em. clear Em Hs.
      destruct args as [|a rest]; [contradiction|].
      cbn in Hn. apply orb_false_elim in Hn as [Hna Hnr].
      cbn [min_max_loop Nat.eqb]. rewrite Hna.
      cbn [set_null_value null_value].
      rewrite min_max_loop_least by (auto; discriminate).
      destruct (fold_left_min_spec (map val_int rest) (val_int a))
        as (Hin & Hle & Hall).
      split.
      * destruct Hin as [-> | Hin]; cbn; auto.
      * assert (Hv : Forall (fun b => fold_left Z.min (map val_int rest)
                                        (val_int a) <= val_int b) (a :: rest)).
        { constructor; [exact Hle|].
          rewrite Forall_map in Hall. exact Hall. }
        clear - Hv Ev. induction Hv; inversion Ev; subst; constructor.
        -- congruence.
        -- auto.
    + intros Hn Hs ->. destruct (signed_args_value args Hs) as [Em Ev].
      rewrite Em. clear Em Hs.
      destruct args as [|a rest]; [contradiction|].
      cbn in Hn. apply orb_false_elim in Hn as [Hna Hnr].
      cbn [min_max_loop Nat.eqb]. rewrite Hna.
      cbn [set_null_value null_value].
      rewrite min_max_loop_greatest by (auto; discriminate).
      destruct (fold_left_max_spec (map val_int rest) (val_int a))
        as (Hin & Hle & Hall).
      split.
      * destruct Hin as [-> | Hin]; cbn; auto.
      * assert (Hv : Forall (fun b => val_int b
                                      <= fold_left Z.max (map val_int rest)
                                           (val_int a)) (a :: rest)).
        { constructor; [exact Hle|].
          rewrite Forall_map in Hall. exact Hall. }
        clear - Hv Ev. induction Hv; inversion Ev; subst; constructor.
        -- congruence.
        -- auto.
    + intros Hn Hg ->.
      destruct (min_max_loop_extreme_first PrimFloat.ltb PrimFloat.leb
                  (fun x => is_nan x = false) val_real real_null_value
                  float_leb_trans float_ltb_leb float_ltb_false_leb
                  float_leb_refl 1 rargs 0%float this
                  (or_introl eq_refl) Hr Hn Hg) as (Hin & Hall).
      split; [exact Hin | exact Hall].
    + intros Hn Hg ->.
      destruct (min_max_loop_extreme_first PrimFloat.ltb PrimFloat.leb
                  (fun x => is_nan x = false) val_real real_null_value
                  float_leb_trans float_ltb_leb float_ltb_false_leb
                  float_leb_refl (-1) rargs 0%float this
                  (or_intror eq_refl) Hr Hn Hg) as (Hin & Hall).
      split; [exact Hin | exact Hall].
  - intros -> Hn. subst ri rr.
    unfold Item_func_min_max_val_int, Item_func_min_max_val_real.
    cbn [Item_result_eqb].
    pose proof (get_date_loop_null cmp_sign targs 0%nat 0 [] Hn) as G.
    destruct (get_date_loop cmp_sign 0 targs 0 []) as [[v|] lg];
      cbn in G; [discriminate|].
    split; reflexivity.
  - intros -> Hne. subst ri rr.
    unfold Item_func_min_max_val_int, Item_func_min_max_val_real.
    cbn [Item_result_eqb].
    pose proof (get_date_loop_log cmp_sign targs 0%nat 0 []) as L.
    cbn [app] in L.
    split; [|split].
    + destruct (get_date_loop cmp_sign 0 targs 0 []) as [[v|] lg];
        cbn [snd] in L; [destruct (d2i v) | ]; exact L.
    + destruct (get_date_loop cmp_sign 0 targs 0 []) as [[v|] lg];
        cbn [snd] in L; [destruct (d2r v) | ]; exact L.
    + intros Hn Hs.
      destruct (get_date_loop_extreme_first cmp_sign targs Hs Hne Hn)
        as (m & Em & Hin & Hall).
      exists m. split; [exact Hin|]. split; [exact Hall|].
      destruct (get_date_loop cmp_sign 0 targs 0 []) as [[v|] lg];
        cbn [fst] in Em; [|discriminate].
      injection Em as ->.
      split; [destruct (d2i m) | destruct (d2r m)]; reflexivity.
  - reflexivity.
Qed.

(** C9 at concrete operands: LEAST(3, 1, 2) evaluates the three operands in
    order, is not NULL and returns the least value. *)
Lemma Item_func_min_max_null_propagation_witness :
  let args :=
    [mk_int_arg 3 false false; mk_int_arg 1 false false;
     mk_int_arg 2 false false] in
  let r :=
    Item_func_min_max_val_int (fun _ => None) INT_RESULT 1 fresh_node []
      args in
  snd r = [0%nat; 1%nat; 2%nat]
  /\ null_value (snd (fst r)) = false
  /\ In (fst (fst r)) [3; 1; 2]
  /\ Forall (fun a => fst (fst r) <= arg_value a) args.
Proof.
  pose proof (Item_func_min_max_null_propagation (fun _ => None)
                (fun _ => None) INT_RESULT 1 fresh_node []
                [mk_int_arg 3 false false; mk_int_arg 1 false false;
                 mk_int_arg 2 false false]
                [mk_real_arg 0%float false]) as [H _].
  destruct H as (Hlog & _ & Hnull & _ & Hmin & _); try discriminate.
  destruct (Hmin eq_refl eq_refl eq_refl) as [Hin Hall].
  exact (conj Hlog (conj Hnull (conj Hin Hall))).
Defined.

(** X6.  [Item_func_min_max::val_int] compares the operands as signed
    [longlong]s whatever their [unsigned_flag]: for operands none of which is
    NULL it returns an operand's [longlong], the least one for LEAST and the
    greatest one for GREATEST.  So over unsigned operands LEAST returns a
    number of 2^63 or more as soon as one operand is that large, whatever the
    other operands are, and GREATEST returns a number below 2^63 as soon as
    one operand is that small. *)
Theorem Item_func_min_max_val_int_compares_signed :
  forall (date_to_int : Z -> option Z) (cmp_sign : Z) (this : Item_func)
         (targs args : list int_arg),
    args <> [] -> existsb arg_null_value args = false ->
    Forall (fun a => is_longlong (val_int a)) args ->
    let r :=
      Item_func_min_max_val_int date_to_int INT_RESULT cmp_sign this targs
        args in
    (cmp_sign = 1 ->
       In (fst (fst r)) (map val_int args)
       /\ Forall (fun a => fst (fst r) <= val_int a) args
       /\ (Exists (fun a => 2 ^ 63 <= int_value true (val_int a)) args ->
           2 ^ 63 <= int_value true (fst (fst r))))
    /\ (cmp_sign = -1 ->
        In (fst (fst r)) (map val_int args)
        /\ Forall (fun a => val_int a <= fst (fst r)) args
        /\ (Exists (fun a => int_value true (val_int a) < 2 ^ 63) args ->
            int_value true (fst (fst r)) < 2 ^ 63)).
Proof.
  intros d2i cmp_sign this targs args Hne Hn Hll r. subst r.
  unfold Item_func_min_max_val_int. cbn [Item_result_eqb].
  assert (Hg : Forall (fun a : int_arg => True) args)
    by (apply Forall_forall; intros; exact I).
  assert (Hext : cmp_sign = 1 \/ cmp_sign = -1 ->
            In (fst (fst (min_max_loop Z.ltb val_int arg_null_value cmp_sign
                            0 args 0 this [])))
              (map val_int args)
            /\ Forall (fun a =>
                 within Z.leb cmp_sign
                   (fst (fst (min_max_loop Z.ltb val_int arg_null_value
                                cmp_sign 0 args 0 this [])))
                   (val_int a)) args).
  { intros Hs.
    apply (min_max_loop_extreme_first Z.ltb Z.leb (fun _ => True) val_int
             arg_null_value); try assumption.
    - intros x y z H1 H2. apply Z.leb_le in H1, H2. apply Z.leb_le. lia.
    - intros x y H. apply Z.ltb_lt in H. apply Z.leb_le. lia.
    - intros x y _ _ H. apply Z.ltb_ge in H. apply Z.leb_le. exact H.
    - intros x _. apply Z.leb_refl. }
  set (v := fst (fst (min_max_loop Z.ltb val_int arg_null_value cmp_sign 0
                        args 0 this []))) in *.
  assert (P : 2 ^ 63 = 9223372036854775808) by reflexivity.
  split.
  - intros Hs. destruct (Hext (or_introl Hs)) as (Hin & Hall). subst cmp_sign.
    assert (Hle : Forall (fun a => v <= val_int a) args).
    { eapply Forall_impl; [|exact Hall]. intros a H. unfold within in H.
      cbn in H. apply Z.leb_le. exact H. }
    split; [exact Hin|]. split; [exact Hle|].
    intros Hex. apply Exists_exists in Hex as (a & Ha & Hbig).
    rewrite Forall_forall in Hle, Hll.
    pose proof (Hle a Ha) as H1. pose proof (Hll a Ha) as H2.
    apply in_map_iff in Hin as (b & Eb & Hb). pose proof (Hll b Hb) as H3.
    rewrite Eb in H3. rewrite P in *. clearbody v.
    unfold_bounds. name_casts. lia.
  - intros Hs. destruct (Hext (or_intror Hs)) as (Hin & Hall). subst cmp_sign.
    assert (Hle : Forall (fun a => val_int a <= v) args).
    { eapply Forall_impl; [|exact Hall]. intros a H. unfold within in H.
      cbn in H. apply Z.leb_le. exact H. }
    split; [exact Hin|]. split; [exact Hle|].
    intros Hex. apply Exists_exists in Hex as (a & Ha & Hsmall).
    rewrite Forall_forall in Hle, Hll.
    pose proof (Hle a Ha) as H1. pose proof (Hll a Ha) as H2.
    apply in_map_iff in Hin as (b & Eb & Hb). pose proof (Hll b Hb) as H3.
    rewrite Eb in H3. rewrite P in *. clearbody v.
    unfold_bounds. name_casts. lia.
Qed.

(** X6 at concrete operands: LEAST over the unsigned operands
    18446744073709551615 and 1 returns a number of 2^63 or more. *)
Lemma Item_func_min_max_val_int_compares_signed_witness :
  let big := mk_int_arg (longlong ULONGLONG_MAX) false true in
  let one := mk_int_arg 1 false true in
  let r :=
    Item_func_min_max_val_int (fun _ => None) INT_RESULT 1
      (set_unsigned_flag fresh_node true) [] [big; one] in
  arg_value big = ULONGLONG_MAX /\ arg_value one = 1
  /\ 2 ^ 63 <= int_value true (fst (fst r)).
Proof.
  intros big one r. split; [reflexivity|]. split; [reflexivity|].
  destruct (Item_func_min_max_val_int_compares_signed (fun _ => None) 1
              (set_unsigned_flag fresh_node true) [] [big; one])
    as (H & _).
  - discriminate.
  - reflexivity.
  - repeat constructor; vm_compute; discriminate.
  - destruct (H eq_refl) as (_ & _ & Hbig). apply Hbig.
    apply Exists_cons_hd. vm_compute. discriminate.
Defined.
(** ** Integer ROUND and TRUNCATE, value by value *)








(** X8.  Integer TRUNCATE to a negative digit count [-k]: the operand with
    its last [k] decimal digits zeroed (truncation toward zero), which always
    fits and is never NULL, for [1 <= k <= 19] in an unsigned node and for
    [1 <= k <= 18] in a signed one.  In a signed node the table entry
    [10^19] does not fit the [longlong] divisor and wraps to
    [10^19 - 2^64]: TRUNCATE(x, -19) is then the truncation of [x] to a
    multiple of that number, which is not 0 for
    [|x| >= 8446744073709551616]. *)
Theorem Item_func_round_int_op_truncates_toward_zero :
  forall (this : Item_func) (thd : THD) (a0 a1 : int_arg) (k : Z),
    is_longlong (val_int a0) ->
    arg_null_value a0 = false -> arg_null_value a1 = false ->
    arg_unsigned_flag a1 = false -> val_int a1 = - k -> 1 <= k <= 19 ->
    let x := int_value (unsigned_flag this) (val_int a0) in
    let truncated := Z.quot x (10 ^ k) * 10 ^ k in
    let r := Item_func_round_int_op true this thd a0 a1 in
    let this' := set_null_value (set_decimals this 0) false in
    (unsigned_flag this = true \/ k <= 18 ->
       r = (longlong truncated, this', thd)
       /\ int_value (unsigned_flag this) (returned r) = truncated
       /\ truncated mod 10 ^ k = 0
       /\ Z.abs truncated <= Z.abs x
       /\ Z.abs (x - truncated) < 10 ^ k)
    /\ (unsigned_flag this = false -> k = 19 ->
          let t := 10 ^ 19 - 2 ^ 64 in
          r = (Z.quot x t * t, this', thd)
          /\ (8446744073709551616 <= Z.abs x ->
              returned r = Z.sgn x * 8446744073709551616)).
Proof.
  intros this thd [v n0 u0] [dec n1 u1] k H0 N0 N1 U1 Hdec Hk;
    cbn in H0, N0, N1, U1, Hdec. subst n0 n1 u1 dec.
  intros x truncated r this'.
  pose proof (log_10_int_cases k ltac:(lia)) as HT.
  assert (Er : r = ((if unsigned_flag this
                     then longlong (ulonglong v / log_10_int k
                                    * log_10_int k)
                     else longlong (Z.quot v (longlong (log_10_int k))
                                    * longlong (log_10_int k))),
                    this', thd)).
  { subst r this'. unfold Item_func_round_int_op.
    cbn [val_int arg_null_value arg_unsigned_flag orb].
    destruct this as [rt dc ml uf mn nv].
    cbn [set_decimals set_null_value null_value unsigned_flag result_type
         max_length maybe_null decimals] in *.
    destruct (Z.leb_spec 0 (- k)) as [|_]; [lia|]. cbn [orb].
    rewrite Z.opp_involutive.
    assert (Habs : ulonglong (longlong k) = k)
      by (unfold_bounds; name_casts; lia).
    rewrite Habs.
    destruct (Z.leb_spec array_elements_log_10_int k) as [Hbig|_];
      [unfold array_elements_log_10_int in Hbig; lia|].
    set (T := log_10_int k) in *. clearbody T.
    assert (ETT : ulonglong (longlong T) = T)
      by (unfold_bounds; name_casts; lia).
    rewrite ETT. apply (f_equal (fun z => (z, _, thd))).
    destruct uf; [|reflexivity].
    destruct (ulonglong_spec v) as (j & EU & RU).
    set (U := ulonglong v) in *. clearbody U.
    destruct (truncate_unsigned U T ltac:(unfold ULONGLONG_MAX; lia)
                ltac:(lia)) as (Hr & _).
    set (W := U / T * T) in *. clearbody W.
    unfold_bounds. name_casts. lia. }
  subst x truncated. cbn [val_int] in *.
  fold (log_10_int k). set (T := log_10_int k) in *.
  split.
  - intros Hcase.
    assert (Ex : int_value (unsigned_flag this) v = ulonglong v
                 /\ unsigned_flag this = true
                 \/ int_value (unsigned_flag this) v = v
                    /\ unsigned_flag this = false /\ k <= 18).
    { destruct (unsigned_flag this); cbn [int_value];
        [left; split; reflexivity | right].
      destruct Hcase as [|]; [discriminate|]. repeat split; assumption. }
    assert (ET18 : k <= 18 -> T <= 1000000000000000000).
    { intros Hk18. subst T. unfold log_10_int.
      change 1000000000000000000 with (10 ^ 18).
      apply Z.pow_le_mono_r; lia. }
    clearbody T.
    assert (Et : forall y, 0 <= Z.abs y ->
                 (Z.quot y T * T) mod T = 0
                 /\ Z.abs (Z.quot y T * T) <= Z.abs y
                 /\ Z.abs (y - Z.quot y T * T) < T).
    { intros y _. split; [apply Z.mod_mul; lia|].
      pose proof (Z.quot_rem' y T) as QR.
      pose proof (Z.rem_bound_abs y T ltac:(lia)) as RB.
      destruct (Z.le_ge_cases 0 y) as [Hy|Hy].
      - pose proof (Z.rem_nonneg y T ltac:(lia) Hy).
        pose proof (Z.quot_pos y T Hy ltac:(lia)). nia.
      - pose proof (Z.rem_nonpos y T ltac:(lia) Hy).
        assert (Z.quot y T <= 0).
        { rewrite <- (Z.opp_involutive y). rewrite Z.quot_opp_l by lia.
          pose proof (Z.quot_pos (- y) T ltac:(lia) ltac:(lia)). lia. }
        nia. }
    destruct Ex as [(Ex & Eu) | (Ex & Eu & Hk18)]; rewrite Ex, Er, Eu.
    + destruct (ulonglong_spec v) as (j & EU & RU).
      set (U := ulonglong v) in *. clearbody U.
      rewrite Z.quot_div_nonneg by lia.
      destruct (Et U ltac:(lia)) as (E1 & E2 & E3).
      rewrite Z.quot_div_nonneg in E1, E2, E3 by lia.
      destruct (truncate_unsigned U T ltac:(unfold ULONGLONG_MAX; lia)
                  ltac:(lia)) as (Hr & _).
      unfold returned; cbn [fst int_value].
      repeat match goal with |- _ /\ _ => split end;
        try assumption; try reflexivity.
      set (W := U / T * T) in *. clearbody W.
      unfold_bounds. name_casts. lia.
    + specialize (ET18 Hk18).
      assert (ETT : longlong T = T) by (unfold_bounds; name_casts; lia).
      rewrite ETT.
      destruct (Et v ltac:(lia)) as (E1 & E2 & E3).
      unfold returned; cbn [fst int_value].
      repeat match goal with |- _ /\ _ => split end;
        try assumption; try reflexivity.
      set (W := Z.quot v T * T) in *. clearbody W.
      unfold_bounds. name_casts. lia.
  - intros Eu ->. rewrite Er, Eu. cbn [int_value].
    assert (ETT : longlong T = 10 ^ 19 - 2 ^ 64) by (vm_compute; reflexivity).
    rewrite ETT. set (t := 10 ^ 19 - 2 ^ 64).
    assert (Ht : t = -8446744073709551616) by reflexivity.
    assert (Hq : -1 <= Z.quot v t <= 1).
    { rewrite Ht. unfold_bounds.
      pose proof (Z.quot_rem' v (-8446744073709551616)) as QR.
      pose proof (Z.rem_bound_abs v (-8446744073709551616) ltac:(lia)).
      destruct (Z.le_ge_cases 0 v) as [Hv|Hv].
      - pose proof (Z.rem_nonneg v (-8446744073709551616) ltac:(lia) Hv).
        lia.
      - pose proof (Z.rem_nonpos v (-8446744073709551616) ltac:(lia) Hv).
        lia. }
    assert (EW : longlong (Z.quot v t * t) = Z.quot v t * t).
    { rewrite Ht in *. set (q := Z.quot v _) in *. clearbody q.
      unfold_bounds. name_casts. lia. }
    rewrite EW. split; [reflexivity|].
    intros Hbig. unfold returned; cbn [fst].
    rewrite Ht in *.
    pose proof (Z.quot_rem' v (-8446744073709551616)) as QR.
    pose proof (Z.rem_bound_abs v (-8446744073709551616) ltac:(lia)).
    unfold_bounds.
    destruct (Z.le_ge_cases 0 v) as [Hv|Hv].
    + pose proof (Z.rem_nonneg v (-8446744073709551616) ltac:(lia) Hv).
      rewrite Z.sgn_pos by lia. lia.
    + pose proof (Z.rem_nonpos v (-8446744073709551616) ltac:(lia) Hv).
      rewrite Z.sgn_neg by lia. lia.
Qed.

(** X8 at concrete operands: TRUNCATE(-1987, -2) is -1900. *)
Lemma Item_func_round_int_op_truncates_toward_zero_witness :
  Item_func_round_int_op true fresh_node default_thd
    (mk_int_arg (-1987) false false) (mk_int_arg (-2) false false)
  = (-1900, fresh_node, default_thd).
Proof.
  destruct (Item_func_round_int_op_truncates_toward_zero fresh_node
              default_thd (mk_int_arg (-1987) false false)
              (mk_int_arg (-2) false false) 2) as [H _].
  - unfold is_longlong, LONGLONG_MIN, LONGLONG_MAX; simpl; lia.
  - reflexivity.
  - reflexivity.
  - reflexivity.
  - reflexivity.
  - lia.
  - destruct H as [H _]; [right; lia | exact H].
Defined.



(** ** How the integer operators compose *)

(** X9.  Integer [+] and [*] are commutative as evaluations: swapping the
    operands gives the same value, the same NULL flag and the same
    diagnostics, whatever the signedness of the operands and of the node,
    NULL operands and overflow outcomes included; [+] is undefined for both
    orders or for neither. *)
Theorem Item_func_plus_mul_int_op_commute :
  forall (this : Item_func) (thd : THD) (a0 a1 : int_arg),
    is_longlong (val_int a0) -> is_longlong (val_int a1) ->
    Item_func_plus_int_op this thd a0 a1 = Item_func_plus_int_op this thd a1 a0
    /\ Item_func_mul_int_op this thd a0 a1
       = Item_func_mul_int_op this thd a1 a0.
Proof.
  intros this thd a0 a1 H0 H1. split.
  - destruct (arg_null_value a0) eqn:N0; [|destruct (arg_null_value a1) eqn:N1].
    + unfold Item_func_plus_int_op. rewrite N0.
      rewrite (Z.add_comm (val_int a1) (val_int a0)).
      destruct (signed (val_int a0 + val_int a1)); [|reflexivity].
      destruct (arg_null_value a1); reflexivity.
    + unfold Item_func_plus_int_op. rewrite N0, N1.
      rewrite (Z.add_comm (val_int a1) (val_int a0)).
      destruct (signed (val_int a0 + val_int a1)); reflexivity.
    + rewrite (Item_func_plus_int_op_cases this thd a0 a1 H0 H1 N0 N1).
      rewrite (Item_func_plus_int_op_cases this thd a1 a0 H1 H0 N1 N0).
      unfold plus_defined.
      rewrite (Z.add_comm (val_int a1) (val_int a0)).
      rewrite (Z.add_comm (arg_value a1) (arg_value a0)). reflexivity.
  - unfold Item_func_mul_int_op. cbv zeta.
    rewrite (orb_comm (arg_null_value a1) (arg_null_value a0)).
    destruct (null_value
                (set_null_value this (arg_null_value a0 || arg_null_value a1)));
      [reflexivity|].
    set (na := negb (arg_unsigned_flag a0) && (val_int a0 <? 0)).
    set (nb := negb (arg_unsigned_flag a1) && (val_int a1 <? 0)).
    set (A := ulonglong (if na then longlong (- val_int a0) else val_int a0)).
    set (B := ulonglong (if nb then longlong (- val_int a1) else val_int a1)).
    rewrite (andb_comm (negb (Z.shiftr B 32 =? 0))).
    rewrite (Z.add_comm (Z.shiftr B 32 * Z.land 4294967295 A)).
    rewrite (Z.mul_comm (Z.land 4294967295 B) (Z.shiftr A 32)).
    rewrite (Z.mul_comm (Z.land 4294967295 B) (Z.land 4294967295 A)).
    rewrite (Z.mul_comm (Z.shiftr B 32) (Z.land 4294967295 A)).
    replace (Bool.eqb nb na) with (Bool.eqb na nb)
      by (destruct na, nb; reflexivity).
    reflexivity.
Qed.

(** X9 at concrete operands: [3 + -5] and [-5 + 3] in a signed node. *)
Lemma Item_func_plus_mul_int_op_commute_witness :
  Item_func_plus_int_op fresh_node default_thd
    (mk_int_arg 3 false false) (mk_int_arg (-5) false false)
  = Item_func_plus_int_op fresh_node default_thd
      (mk_int_arg (-5) false false) (mk_int_arg 3 false false).
Proof.
  apply (Item_func_plus_mul_int_op_commute fresh_node default_thd
           (mk_int_arg 3 false false) (mk_int_arg (-5) false false)).
  - unfold is_longlong, LONGLONG_MIN, LONGLONG_MAX; simpl; lia.
  - unfold is_longlong, LONGLONG_MIN, LONGLONG_MAX; simpl; lia.
Defined.

(** In a signed node a truncated quotient equal to [LONGLONG_MIN] is the
    overflow outcome. *)
Lemma Item_func_int_div_val_int_int_min :
  forall (this : Item_func) (thd : THD) (a0 a1 : int_arg),
    is_longlong (val_int a0) -> is_longlong (val_int a1) ->
    arg_null_value a0 = false -> arg_null_value a1 = false ->
    val_int a1 <> 0 ->
    int_div_defined a0 a1 = true ->
    unsigned_flag this = false ->
    Z.quot (arg_value a0) (arg_value a1) = LONGLONG_MIN ->
    Item_func_int_div_val_int_int this thd a0 a1
    = Defined (raise_integer_overflow (set_null_value this false) thd).
Proof.
  intros this thd a0 a1 H0 H1 N0 N1 Hnz Hdef.
  pose proof (arg_value_nonzero a1 H1 Hnz) as Hy.
  destruct a0 as [v0 n0 u0], a1 as [v1 n1 u1];
    cbn in H0, H1, N0, N1, Hnz.
  unfold int_div_defined in Hdef; cbn [val_int arg_unsigned_flag] in Hdef.
  apply andb_prop in Hdef as [Hd0 Hd1].
  subst n0 n1. unfold arg_value in *; cbn [val_int arg_unsigned_flag] in *.
  destruct (magnitude_abs v0 u0 H0) as (EA & SA & RA).
  destruct (magnitude_abs v1 u1 H1) as (EB & SB & RB).
  set (x := int_value u0 v0) in *. set (y := int_value u1 v1) in *.
  unfold Item_func_int_div_val_int_int.
  cbn [val_int arg_null_value arg_unsigned_flag orb].
  cbv zeta.
  rewrite (magnitude_defined v0 u0 H0 Hd0), (magnitude_defined v1 u1 H1 Hd1).
  rewrite SA, SB, <- SA, <- SB, EA, EB. rewrite SA, SB.
  cbn [null_value set_null_value].
  fold (set_null_value this false).
  destruct (Z.eqb_spec v1 0) as [|_]; [contradiction|].
  rewrite (quot_magnitudes x y Hy).
  assert (HQ : 0 <= Z.abs x / Z.abs y <= ULONGLONG_MAX).
  { split; [apply Z.div_pos; lia|].
    apply Z.le_trans with (Z.abs x); [|lia].
    apply Z.div_le_upper_bound; nia. }
  set (Q := Z.abs x / Z.abs y) in *. clearbody Q.
  clear EA EB SA SB RA RB H0 H1 Hy Hd0 Hd1.
  unfold check_integer_overflow.
  destruct this as [rt dec ml uf mn nv].
  cbn [unsigned_flag set_null_value].
  intros -> Hex. f_equal.
  destruct (negb (Bool.eqb (x <? 0) (y <? 0)));
    unfold_bounds; cbn [orb andb negb];
    name_casts; split_tests; solve_eval.
Qed.

(** A DIV that is defined and not NULL returned the truncated quotient. *)
Lemma Item_func_int_div_val_int_int_non_null :
  forall (this : Item_func) (thd : THD) (a0 a1 : int_arg) (q : eval Z),
    is_longlong (val_int a0) -> is_longlong (val_int a1) ->
    arg_null_value a0 = false -> arg_null_value a1 = false ->
    val_int a1 <> 0 ->
    Item_func_int_div_val_int_int this thd a0 a1 = Defined q ->
    is_null q = false ->
    representable (unsigned_flag this)
      (Z.quot (arg_value a0) (arg_value a1))
    /\ q = (longlong (Z.quot (arg_value a0) (arg_value a1)),
            set_null_value this false, thd).
Proof.
  intros this thd a0 a1 q H0 H1 N0 N1 Hnz.
  destruct (int_div_defined a0 a1) eqn:Hdef.
  2:{ rewrite (Item_func_int_div_val_int_int_undefined this thd a0 a1 N0 N1
                 Hnz Hdef). discriminate. }
  destruct (unsigned_flag this) eqn:Eu.
  - rewrite (Item_func_int_div_val_int_int_cases this thd a0 a1 H0 H1 N0 N1
               Hnz Hdef) by (rewrite Eu; discriminate).
    unfold exact_or_overflow. rewrite Eu.
    destruct (fits true _) eqn:Ef; intros [= <-]; [|discriminate].
    intros _. apply fits_spec in Ef. split; [exact Ef | reflexivity].
  - destruct (Z.eq_dec (Z.quot (arg_value a0) (arg_value a1)) LONGLONG_MIN)
      as [Hq|Hq].
    + rewrite (Item_func_int_div_val_int_int_min this thd a0 a1 H0 H1 N0 N1
                 Hnz Hdef Eu Hq). intros [= <-]. discriminate.
    + rewrite (Item_func_int_div_val_int_int_cases this thd a0 a1 H0 H1 N0 N1
                 Hnz Hdef (fun _ => Hq)).
      unfold exact_or_overflow. rewrite Eu.
      destruct (fits false _) eqn:Ef; intros [= <-]; [|discriminate].
      intros _. apply fits_spec in Ef. split; [exact Ef | reflexivity].
Qed.

(** [Item_func_mod::int_op] decides by the remainder of the truncated
    division. *)
Lemma Item_func_mod_int_op_cases :
  forall (this : Item_func) (thd : THD) (a0 a1 : int_arg),
    is_longlong (val_int a0) -> is_longlong (val_int a1) ->
    arg_null_value a0 = false -> arg_null_value a1 = false ->
    val_int a1 <> 0 ->
    Item_func_mod_int_op this thd a0 a1
    = if fits (unsigned_flag this) (Z.rem (arg_value a0) (arg_value a1))
      then (longlong (Z.rem (arg_value a0) (arg_value a1)),
            set_null_value this false, thd)
      else raise_integer_overflow (set_null_value this false) thd.
Proof.
  intros this thd a0 a1 H0 H1 N0 N1 Hnz.
  pose proof (arg_value_nonzero a1 H1 Hnz) as Hy.
  destruct a0 as [v0 n0 u0], a1 as [v1 n1 u1];
    cbn in H0, H1, N0, N1, Hnz.
  subst n0 n1. unfold arg_value in *; cbn [val_int arg_unsigned_flag] in *.
  destruct (magnitude_abs v0 u0 H0) as (EA & SA & RA).
  destruct (magnitude_abs v1 u1 H1) as (EB & SB & RB).
  assert (HX : int_value u0 v0 < 0 ->
               Z.abs (int_value u0 v0) <= 9223372036854775808).
  { destruct u0; unfold_bounds; name_casts; lia. }
  set (x := int_value u0 v0) in *. set (y := int_value u1 v1) in *.
  unfold Item_func_mod_int_op.
  cbn [val_int arg_null_value arg_unsigned_flag orb].
  cbv zeta. rewrite SA, SB, <- SA, <- SB, EA, EB. rewrite SA.
  cbn [null_value set_null_value].
  fold (set_null_value this false).
  destruct (Z.eqb_spec v1 0) as [|_]; [contradiction|].
  rewrite (rem_magnitudes x y Hy).
  assert (HQ : 0 <= Z.abs x mod Z.abs y <= ULONGLONG_MAX).
  { pose proof (Z.mod_pos_bound (Z.abs x) (Z.abs y)). lia. }
  assert (HQ' : Z.abs x mod Z.abs y <= Z.abs x) by (apply Z.mod_le; lia).
  set (Q := Z.abs x mod Z.abs y) in *. clearbody Q.
  assert (HX' : x < 0 -> Q <= 9223372036854775808) by lia.
  clear EA EB SA SB RA RB H0 H1 Hy HQ' HX.
  unfold check_integer_overflow.
  destruct this as [rt dec ml uf mn nv].
  cbn [unsigned_flag set_null_value].
  destruct (Z.ltb_spec x 0); destruct uf; unfold_bounds; cbn [orb andb negb];
    try specialize (HX' ltac:(assumption));
    name_casts; split_tests; solve_eval.
Qed.

(** X10.  DIV and [%] are the two halves of one truncated division: for
    non-NULL operands and a non-zero divisor, whenever DIV is defined and
    both results are not NULL,
    dividend = (dividend DIV divisor) * divisor + (dividend % divisor),
    the remainder is smaller in magnitude than the divisor and it is zero or
    has the sign of the dividend. *)
Theorem Item_func_int_div_mod_identity :
  forall (this : Item_func) (thd : THD) (a0 a1 : int_arg) (q : eval Z),
    is_longlong (val_int a0) -> is_longlong (val_int a1) ->
    arg_null_value a0 = false -> arg_null_value a1 = false ->
    val_int a1 <> 0 ->
    Item_func_int_div_val_int_int this thd a0 a1 = Defined q ->
    let m := Item_func_mod_int_op this thd a0 a1 in
    let quotient := int_value (unsigned_flag this) (returned q) in
    let remainder := int_value (unsigned_flag this) (returned m) in
    is_null q = false -> is_null m = false ->
    arg_value a0 = quotient * arg_value a1 + remainder
    /\ Z.abs remainder < Z.abs (arg_value a1)
    /\ 0 <= remainder * arg_value a0.
Proof.
  intros this thd a0 a1 q H0 H1 N0 N1 Hnz Eq' m quotient remainder Hq Hm.
  pose proof (arg_value_nonzero a1 H1 Hnz) as Hy.
  destruct (Item_func_int_div_val_int_int_non_null this thd a0 a1 q H0 H1 N0
              N1 Hnz Eq' Hq) as (Rq & Eq).
  assert (Em : representable (unsigned_flag this)
                 (Z.rem (arg_value a0) (arg_value a1))
               /\ returned m = longlong (Z.rem (arg_value a0) (arg_value a1))).
  { subst m. revert Hm.
    rewrite (Item_func_mod_int_op_cases this thd a0 a1 H0 H1 N0 N1 Hnz).
    destruct (fits _ _) eqn:Ef; [|discriminate].
    intros _. apply fits_spec in Ef. split; [exact Ef | reflexivity]. }
  destruct Em as (Rm & Em).
  subst quotient remainder. rewrite Eq, Em.
  unfold returned at 1; cbn [fst].
  rewrite !int_value_longlong by assumption.
  pose proof (Z.quot_rem' (arg_value a0) (arg_value a1)) as QR.
  pose proof (Z.rem_bound_abs (arg_value a0) (arg_value a1) Hy) as RB.
  split; [lia|]. split; [lia|].
  destruct (Z.le_ge_cases 0 (arg_value a0)) as [Hx|Hx].
  - pose proof (Z.rem_nonneg (arg_value a0) (arg_value a1) Hy Hx). nia.
  - pose proof (Z.rem_nonpos (arg_value a0) (arg_value a1) Hy Hx). nia.
Qed.

(** X10 at concrete operands: [-7 = (-7 DIV 2) * 2 + (-7 % 2)], with the
    quotient -3 and the remainder -1. *)
Lemma Item_func_int_div_mod_identity_witness :
  let a0 := mk_int_arg (-7) false false in
  let a1 := mk_int_arg 2 false false in
  Item_func_int_div_val_int_int fresh_node default_thd a0 a1
  = Defined (-3, fresh_node, default_thd)
  /\ -7 = -3 * 2
          + returned (Item_func_mod_int_op fresh_node default_thd a0 a1).
Proof.
  intros a0 a1. split; [reflexivity|].
  apply (Item_func_int_div_mod_identity fresh_node default_thd a0 a1
           (-3, fresh_node, default_thd)).
  - unfold is_longlong, LONGLONG_MIN, LONGLONG_MAX; simpl; lia.
  - unfold is_longlong, LONGLONG_MIN, LONGLONG_MAX; simpl; lia.
  - reflexivity.
  - reflexivity.
  - simpl. discriminate.
  - reflexivity.
  - reflexivity.
  - reflexivity.
Defined.

(** X11.  Unary minus and ABS on a signed operand other than [LONGLONG_MIN],
    in a signed node: negating twice gives the operand back, ABS of the
    negation is ABS of the operand, ABS is idempotent and its result is not
    negative; none of these evaluations is NULL or raises a diagnostic. *)
Theorem Item_func_neg_abs_int_op_compose :
  forall (this : Item_func) (thd : THD) (a0 : int_arg),
    is_longlong (val_int a0) -> arg_null_value a0 = false ->
    arg_unsigned_flag a0 = false -> unsigned_flag this = false ->
    val_int a0 <> LONGLONG_MIN ->
    let x := val_int a0 in
    let neg := Item_func_neg_int_op this thd a0 in
    let abs := Item_func_abs_int_op this thd a0 in
    let arg (r : eval Z) := mk_int_arg (returned r) (is_null r) false in
    neg = (- x, set_null_value this false, thd)
    /\ Item_func_neg_int_op this thd (arg neg)
       = (x, set_null_value this false, thd)
    /\ abs = (Z.abs x, set_null_value this false, thd)
    /\ Item_func_abs_int_op this thd (arg neg) = abs
    /\ Item_func_abs_int_op this thd (arg abs) = abs.
Proof.
  intros this thd [v n u] Hv Hn Hu Hthis Hmin; cbn in Hv, Hn, Hu, Hmin.
  subst n u. intros x neg abs arg. subst x. cbn [val_int].
  assert (Hneg : forall w, is_longlong w -> w <> LONGLONG_MIN ->
            Item_func_neg_int_op this thd (mk_int_arg w false false)
            = (- w, set_null_value this false, thd)).
  { intros w Hw Hne.
    rewrite (Item_func_neg_int_op_exact this thd (mk_int_arg w false false)
               Hw eq_refl Hthis).
    unfold arg_value; cbn [val_int arg_unsigned_flag int_value].
    unfold_bounds. split_tests; solve_eval. }
  assert (Habs : forall w, is_longlong w -> w <> LONGLONG_MIN ->
            Item_func_abs_int_op this thd (mk_int_arg w false false)
            = (Z.abs w, set_null_value this false, thd)).
  { intros w Hw Hne. unfold Item_func_abs_int_op.
    cbn [val_int arg_null_value].
    destruct this as [rt dc ml uf mn nv]; cbn in Hthis; subst uf.
    cbn [set_null_value null_value unsigned_flag].
    destruct (Z.eqb_spec w LONGLONG_MIN); [contradiction|].
    destruct (Z.leb_spec 0 w); apply eval_value_eq; lia. }
  assert (Hx : is_longlong (- v) /\ - v <> LONGLONG_MIN
               /\ is_longlong (Z.abs v) /\ Z.abs v <> LONGLONG_MIN).
  { unfold_bounds. lia. }
  destruct Hx as (Hx1 & Hx2 & Hx3 & Hx4).
  assert (En : neg = (- v, set_null_value this false, thd))
    by (apply Hneg; assumption).
  assert (Ea : abs = (Z.abs v, set_null_value this false, thd))
    by (apply Habs; assumption).
  split; [exact En|].
  assert (Eargn : arg neg = mk_int_arg (- v) false false).
  { subst arg. cbv beta. rewrite En. reflexivity. }
  assert (Earga : arg abs = mk_int_arg (Z.abs v) false false).
  { subst arg. cbv beta. rewrite Ea. reflexivity. }
  rewrite Eargn, Earga.
  split; [rewrite Hneg by assumption; rewrite Z.opp_involutive; reflexivity|].
  split; [exact Ea|].
  rewrite Ea.
  split; [rewrite Habs by assumption; rewrite Z.abs_opp; reflexivity|].
  rewrite Habs by assumption. rewrite Z.abs_idemp. reflexivity.
Qed.

(** X11 at concrete operands: [-(-7)] is 7 in a signed node. *)
Lemma Item_func_neg_abs_int_op_compose_witness :
  let neg :=
    Item_func_neg_int_op fresh_node default_thd (mk_int_arg 7 false false) in
  Item_func_neg_int_op fresh_node default_thd
    (mk_int_arg (returned neg) (is_null neg) false)
  = (7, fresh_node, default_thd).
Proof.
  intros neg.
  apply (Item_func_neg_abs_int_op_compose fresh_node default_thd
           (mk_int_arg 7 false false)).
  - unfold is_longlong, LONGLONG_MIN, LONGLONG_MAX; simpl; lia.
  - reflexivity.
  - reflexivity.
  - reflexivity.
  - simpl. discriminate.
Defined.

Lemma arg_value_representable (a : int_arg) :
  is_longlong (val_int a) ->
  representable (arg_unsigned_flag a) (arg_value a)
  /\ longlong (arg_value a) = val_int a.
Proof.
  destruct a as [v n u]; unfold arg_value; cbn. intros Hv.
  destruct u; unfold_bounds; name_casts; lia.
Qed.

(** X18.  Integer [+] and [-] undo each other.  For operands and nodes of
    one signedness: when [a + b] is defined and not the overflow outcome,
    subtracting [b] from it is defined and gives [a] back, and when [a - b]
    is defined and not the overflow outcome, adding [b] to it is defined and
    gives [a] back, without NULL or diagnostic. *)
Theorem Item_func_plus_minus_int_op_inverse :
  forall (this : Item_func) (thd : THD) (a0 a1 : int_arg) (u : bool)
         (s d : eval Z),
    is_longlong (val_int a0) -> is_longlong (val_int a1) ->
    arg_null_value a0 = false -> arg_null_value a1 = false ->
    arg_unsigned_flag a0 = u -> arg_unsigned_flag a1 = u ->
    unsigned_flag this = u ->
    (Item_func_plus_int_op this thd a0 a1 = Defined s ->
     is_null s = false ->
       Item_func_minus_int_op this thd (as_int_arg u s) a1
       = Defined (val_int a0, set_null_value this false, thd))
    /\ (Item_func_minus_int_op this thd a0 a1 = Defined d ->
        is_null d = false ->
        Item_func_plus_int_op this thd (as_int_arg u d) a1
        = Defined (val_int a0, set_null_value this false, thd)).
Proof.
  intros this thd a0 a1 u s d H0 H1 N0 N1 U0 U1 Uthis.
  destruct (arg_value_representable a0 H0) as (R0 & L0).
  destruct (arg_value_representable a1 H1) as (R1 & L1).
  rewrite U0 in R0. rewrite U1 in R1.
  assert (Hll : forall z, is_longlong (longlong z)).
  { intros z. unfold_bounds. name_casts. lia. }
  split.
  - rewrite (Item_func_plus_int_op_cases this thd a0 a1 H0 H1 N0 N1).
    destruct (plus_defined a0 a1) eqn:Hdef; [|discriminate].
    intros [= <-]. unfold exact_or_overflow. rewrite Uthis.
    destruct (fits u (arg_value a0 + arg_value a1)) eqn:Ef; [|discriminate].
    intros _. apply fits_spec in Ef.
    unfold as_int_arg, returned, is_null, node_after.
    cbn [fst snd set_null_value null_value].
    set (b := mk_int_arg (longlong (arg_value a0 + arg_value a1)) false u).
    assert (Eb : arg_value b = arg_value a0 + arg_value a1).
    { unfold arg_value, b; cbn [val_int arg_unsigned_flag].
      apply int_value_longlong. exact Ef. }
    assert (Hb : minus_defined b a1 = true).
    { unfold minus_defined, b. cbn [val_int arg_unsigned_flag].
      rewrite U1. unfold plus_defined in Hdef.
      replace (u && negb u) with false by (destruct u; reflexivity).
      replace (negb u && u) with false by (destruct u; reflexivity).
      cbn [andb negb]. rewrite !andb_true_r.
      unfold arg_value in *. rewrite U0, U1 in *.
      destruct u; unfold_bounds; name_casts; lia. }
    rewrite (Item_func_minus_int_op_cases this thd b a1 (Hll _) H1 eq_refl N1).
    rewrite Hb. unfold exact_or_overflow. rewrite Eb, Uthis.
    replace (arg_value a0 + arg_value a1 - arg_value a1)
      with (arg_value a0) by lia.
    apply fits_spec in R0. rewrite R0, L0. reflexivity.
  - rewrite (Item_func_minus_int_op_cases this thd a0 a1 H0 H1 N0 N1).
    destruct (minus_defined a0 a1) eqn:Hdef; [|discriminate].
    intros [= <-]. unfold exact_or_overflow. rewrite Uthis.
    destruct (fits u (arg_value a0 - arg_value a1)) eqn:Ef; [|discriminate].
    intros _. apply fits_spec in Ef.
    unfold as_int_arg, returned, is_null, node_after.
    cbn [fst snd set_null_value null_value].
    set (b := mk_int_arg (longlong (arg_value a0 - arg_value a1)) false u).
    assert (Eb : arg_value b = arg_value a0 - arg_value a1).
    { unfold arg_value, b; cbn [val_int arg_unsigned_flag].
      apply int_value_longlong. exact Ef. }
    assert (Hb : plus_defined b a1 = true).
    { unfold plus_defined, b. cbn [val_int arg_unsigned_flag].
      unfold minus_defined in Hdef.
      apply andb_prop in Hdef as [Hdef _].
      apply andb_prop in Hdef as [Hdef _].
      unfold arg_value in *. rewrite U0, U1 in *.
      destruct u; unfold_bounds; name_casts; lia. }
    rewrite (Item_func_plus_int_op_cases this thd b a1 (Hll _) H1 eq_refl N1).
    rewrite Hb. unfold exact_or_overflow. rewrite Eb, Uthis.
    replace (arg_value a0 - arg_value a1 + arg_value a1)
      with (arg_value a0) by lia.
    apply fits_spec in R0. rewrite R0, L0. reflexivity.
Qed.

(** X18 at concrete operands: [(3 + 4) - 4] is 3 in a signed node. *)
Lemma Item_func_plus_minus_int_op_inverse_witness :
  Item_func_plus_int_op fresh_node default_thd
    (mk_int_arg 3 false false) (mk_int_arg 4 false false)
  = Defined (7, fresh_node, default_thd)
  /\ Item_func_minus_int_op fresh_node default_thd
       (mk_int_arg 7 false false) (mk_int_arg 4 false false)
     = Defined (3, fresh_node, default_thd).
Proof.
  split; [reflexivity|].
  destruct (Item_func_plus_minus_int_op_inverse fresh_node default_thd
              (mk_int_arg 3 false false) (mk_int_arg 4 false false) false
              (7, fresh_node, default_thd) (-1, fresh_node, default_thd))
    as [H _].
  - unfold is_longlong, LONGLONG_MIN, LONGLONG_MAX; simpl; lia.
  - unfold is_longlong, LONGLONG_MIN, LONGLONG_MAX; simpl; lia.
  - reflexivity.
  - reflexivity.
  - reflexivity.
  - reflexivity.
  - reflexivity.
  - apply H; reflexivity.
Defined.

(** X27.  Integer DIV undoes [*].  For operands and nodes of one signedness
    and a non-zero [b]: when [a * b] is not the overflow outcome,
    [(a * b) DIV b] returns [a], without NULL or diagnostic, wherever DIV is
    defined; it is undefined where the product or [b] is a signed
    [LONGLONG_MIN], which DIV negates.  Two cases are left out, where the
    operators themselves do not return the exact result: a product equal to
    [LONGLONG_MIN - 1], and [a = LONGLONG_MIN] in a signed node. *)
Theorem Item_func_mul_int_div_inverse :
  forall (this : Item_func) (thd : THD) (a0 a1 : int_arg) (u : bool),
    is_longlong (val_int a0) -> is_longlong (val_int a1) ->
    arg_null_value a0 = false -> arg_null_value a1 = false ->
    arg_unsigned_flag a0 = u -> arg_unsigned_flag a1 = u ->
    unsigned_flag this = u ->
    val_int a1 <> 0 ->
    arg_value a0 * arg_value a1 <> LONGLONG_MIN - 1 ->
    (u = false -> val_int a0 <> LONGLONG_MIN) ->
    let p := Item_func_mul_int_op this thd a0 a1 in
    is_null p = false ->
    Item_func_int_div_val_int_int this thd (as_int_arg u p) a1
    = if int_div_defined (as_int_arg u p) a1
      then Defined (val_int a0, set_null_value this false, thd)
      else Undefined.
Proof.
  intros this thd a0 a1 u H0 H1 N0 N1 U0 U1 Uthis Hnz Hp Hmin p.
  destruct (arg_value_representable a0 H0) as (R0 & L0).
  rewrite U0 in R0.
  pose proof (arg_value_nonzero a1 H1 Hnz) as Hy.
  assert (Hll : forall z, is_longlong (longlong z)).
  { intros z. unfold_bounds. name_casts. lia. }
  subst p.
  rewrite (Item_func_mul_int_op_cases this thd a0 a1 H0 H1 N0 N1 Hp), Uthis.
  destruct (fits u (arg_value a0 * arg_value a1)) eqn:Ef; [|discriminate].
  intros _. apply fits_spec in Ef.
  unfold as_int_arg, returned, is_null, node_after.
  cbn [fst snd set_null_value null_value].
  set (b := mk_int_arg (longlong (arg_value a0 * arg_value a1)) false u).
  assert (Eb : arg_value b = arg_value a0 * arg_value a1).
  { unfold arg_value, b; cbn [val_int arg_unsigned_flag].
    apply int_value_longlong. exact Ef. }
  assert (Eq : Z.quot (arg_value b) (arg_value a1) = arg_value a0).
  { rewrite Eb. apply Z.quot_mul. exact Hy. }
  destruct (int_div_defined b a1) eqn:Hdef.
  - rewrite (Item_func_int_div_val_int_int_cases this thd b a1 (Hll _) H1
               eq_refl N1 Hnz Hdef).
    + unfold exact_or_overflow.
      rewrite Eq, Uthis. apply fits_spec in R0. rewrite R0, L0. reflexivity.
    + rewrite Eq, Uthis. intros Hu. specialize (Hmin Hu).
      unfold arg_value. rewrite U0, Hu. cbn [int_value]. exact Hmin.
  - apply Item_func_int_div_val_int_int_undefined;
      [reflexivity | exact N1 | exact Hnz | exact Hdef].
Qed.

(** X27 at concrete operands: [(-6 * 7) DIV 7] is -6 in a signed node. *)
Lemma Item_func_mul_int_div_inverse_witness :
  Item_func_int_div_val_int_int fresh_node default_thd
    (as_int_arg false
       (Item_func_mul_int_op fresh_node default_thd
          (mk_int_arg (-6) false false) (mk_int_arg 7 false false)))
    (mk_int_arg 7 false false)
  = Defined (-6, fresh_node, default_thd).
Proof.
  apply (Item_func_mul_int_div_inverse fresh_node default_thd
           (mk_int_arg (-6) false false) (mk_int_arg 7 false false) false).
  - unfold is_longlong, LONGLONG_MIN, LONGLONG_MAX; simpl; lia.
  - unfold is_longlong, LONGLONG_MIN, LONGLONG_MAX; simpl; lia.
  - reflexivity.
  - reflexivity.
  - reflexivity.
  - reflexivity.
  - reflexivity.
  - simpl. discriminate.
  - vm_compute. discriminate.
  - intros _. simpl. discriminate.
  - reflexivity.
Defined.

(** ** Integer arithmetic from resolution to evaluation *)






(** ** Signedness of the resolved arithmetic operators *)

Lemma count_real_length_unsigned_flag (D : Decls) (this : Item_func)
    (items : list Item) :
  unsigned_flag (count_real_length D this items) = false.
Proof.
  unfold count_real_length.
  destruct (fold_left _ items (0, 0, 0)) as [[length decimals] max_length].
  destruct (decimals <? FLOATING_POINT_DECIMALS D); [|reflexivity].
  destruct (_ <? _); reflexivity.
Qed.

Lemma result_precision_unsigned_flag (D : Decls) (op : num_op) (p : Z)
    (this : Item_func) (a0 a1 : Item) :
  unsigned_flag (result_precision D op p this a0 a1)
  = match op with
    | OP_MOD => item_unsigned_flag a0
    | _ => num_op_unsigned this a0 a1
    end.
Proof. destruct op; reflexivity. Qed.

Lemma Item_num_op_fix_length_and_dec_result_type (D : Decls) (op : num_op)
    (p : Z) (this : Item_func) (a0 a1 : Item) :
  let node := Item_num_op_fix_length_and_dec D op p this a0 a1 in
  if real_or_string (cast_to_int_type a0) || real_or_string (cast_to_int_type a1)
  then result_type node = REAL_RESULT
  else result_type node = INT_RESULT \/ result_type node = DECIMAL_RESULT.
Proof.
  unfold Item_num_op_fix_length_and_dec.
  destruct (real_or_string _ || real_or_string _); [reflexivity|].
  destruct (decimal_or_time _ || decimal_or_time _).
  - set (n := fix_decimals D _).
    assert (Hn : result_type n = DECIMAL_RESULT).
    { subst n. unfold fix_decimals. cbn [result_type set_decimals].
      apply result_precision_result_type. }
    destruct (_ && _); [left; reflexivity | right; exact Hn].
  - left. cbn [result_type set_decimals].
    apply result_precision_result_type.
Qed.

(** X23.  The signedness that resolution gives a binary arithmetic node.
    For [+], [-], [*] and [/] the shared step makes the node signed in the
    real domain, unsigned in the decimal domain (and in the integer domain
    reached from a temporal operand) only when both operands are unsigned,
    and unsigned in the integer domain as soon as one operand is.  [-] is
    signed in every domain under [MODE_NO_UNSIGNED_SUBTRACTION]; [/], which
    never stays in the integer domain, is unsigned only when both operands
    are and the domain is not real; [%] always takes the signedness of its
    first operand. *)
Theorem Item_num_op_fix_length_and_dec_signedness :
  forall (D : Decls) (thd : THD) (this : Item_func) (a0 a1 : Item),
    let r0 := cast_to_int_type a0 in
    let r1 := cast_to_int_type a1 in
    let u0 := item_unsigned_flag a0 in
    let u1 := item_unsigned_flag a1 in
    let real := real_or_string r0 || real_or_string r1 in
    let shared :=
      if real then false
      else if decimal_or_time r0 || decimal_or_time r1 then u0 && u1
           else u0 || u1 in
    (forall (op : num_op) (p : Z),
        unsigned_flag (Item_num_op_fix_length_and_dec D op p this a0 a1)
        = match op with
          | OP_MOD => if real then false else u0
          | _ => shared
          end)
    /\ unsigned_flag (Item_func_minus_fix_length_and_dec D thd this a0 a1)
       = shared && negb (MODE_NO_UNSIGNED_SUBTRACTION (sql_mode thd))
    /\ unsigned_flag (Item_func_div_fix_length_and_dec D thd this a0 a1)
       = (if real then false else u0 && u1)
    /\ unsigned_flag (Item_func_mod_fix_length_and_dec D this a0 a1) = u0.
Proof.
  intros D thd this a0 a1 r0 r1 u0 u1 real shared.
  assert (Hshared : forall (op : num_op) (p : Z),
            unsigned_flag (Item_num_op_fix_length_and_dec D op p this a0 a1)
            = match op with
              | OP_MOD => if real then false else u0
              | _ => shared
              end).
  { intros op p. unfold Item_num_op_fix_length_and_dec.
    fold r0 r1. fold real. subst shared.
    destruct real.
    - cbn [unsigned_flag set_handler_by_result_type set_max_length].
      rewrite count_real_length_unsigned_flag. destruct op; reflexivity.
    - destruct (decimal_or_time r0 || decimal_or_time r1).
      + set (n := fix_decimals D _).
        assert (Hn : unsigned_flag n
                     = match op with
                       | OP_MOD => u0
                       | _ => u0 && u1
                       end).
        { subst n. unfold fix_decimals. cbn [unsigned_flag set_decimals].
          rewrite result_precision_unsigned_flag.
          destruct op; reflexivity. }
        destruct ((Item_result_eqb r0 TIME_RESULT
                   || Item_result_eqb r1 TIME_RESULT) && (decimals n =? 0));
          cbn [unsigned_flag set_handler_by_result_type];
          rewrite Hn; destruct op; reflexivity.
      + cbn [unsigned_flag set_decimals].
        rewrite result_precision_unsigned_flag. destruct op; reflexivity. }
  split; [exact Hshared|]. split; [|split].
  - unfold Item_func_minus_fix_length_and_dec.
    pose proof (Hshared OP_MINUS 0) as E. cbv beta iota in E.
    rewrite E.
    destruct shared, (MODE_NO_UNSIGNED_SUBTRACTION (sql_mode thd));
      cbn [andb negb unsigned_flag set_unsigned_flag];
      try reflexivity; exact E.
  - unfold Item_func_div_fix_length_and_dec.
    pose proof (Hshared OP_DIV (div_precincrement thd)) as E.
    cbv beta iota in E.
    pose proof (Item_num_op_fix_length_and_dec_result_type D OP_DIV
                  (div_precincrement thd) this a0 a1) as T.
    cbv zeta in T. fold r0 r1 in T. fold real in T.
    set (n := Item_num_op_fix_length_and_dec D OP_DIV _ _ _ _) in *.
    cbn [unsigned_flag set_maybe_null].
    subst shared.
    destruct real.
    + rewrite T.
      destruct (_ =? _); cbn [unsigned_flag set_max_length set_decimals];
        exact E.
    + destruct T as [T|T]; rewrite T.
      * reflexivity.
      * unfold fix_decimals, Item_func_div_result_precision, num_op_unsigned.
        cbn [unsigned_flag set_decimals set_max_length set_unsigned_flag
             result_type].
        rewrite T. reflexivity.
  - reflexivity.
Qed.

(** ** Shifts and bit functions *)

Lemma ulonglong_range (z : Z) : 0 <= ulonglong z < 2 ^ 64.
Proof. unfold ulonglong. apply Z.mod_pos_bound. reflexivity. Qed.

Lemma ulonglong_longlong (z : Z) : ulonglong (longlong z) = ulonglong z.
Proof. name_casts. lia. Qed.

Lemma ulonglong_small (z : Z) : 0 <= z < 2 ^ 64 -> ulonglong z = z.
Proof. intros H. unfold ulonglong. apply Z.mod_small. exact H. Qed.








Lemma lxor_range (A B : Z) :
  0 <= A < 2 ^ 64 -> 0 <= B < 2 ^ 64 -> 0 <= Z.lxor A B < 2 ^ 64.
Proof.
  intros HA HB.
  assert (Hn : 0 <= Z.lxor A B) by (apply Z.lxor_nonneg; lia).
  split; [exact Hn|].
  destruct (Z.eq_dec (Z.lxor A B) 0) as [->|Hz]; [reflexivity|].
  apply Z.log2_lt_pow2; [lia|].
  pose proof (Z.log2_lxor A B ltac:(lia) ltac:(lia)) as L.
  assert (LA : Z.log2 A < 64).
  { destruct (Z.eq_dec A 0) as [->|]; [reflexivity|].
    apply Z.log2_lt_pow2; lia. }
  assert (LB : Z.log2 B < 64).
  { destruct (Z.eq_dec B 0) as [->|]; [reflexivity|].
    apply Z.log2_lt_pow2; lia. }
  lia.
Qed.

Lemma lxor_complement (A : Z) :
  0 <= A < 2 ^ 64 -> Z.lxor A (2 ^ 64 - 1 - A) = 2 ^ 64 - 1.
Proof.
  intros HA.
  assert (LA : Z.log2 A < 64).
  { destruct (Z.eq_dec A 0) as [->|]; [reflexivity|].
    apply Z.log2_lt_pow2; lia. }
  assert (EO : 2 ^ 64 - 1 = Z.ones 64) by reflexivity.
  assert (EN : 2 ^ 64 - 1 - A = Z.ldiff (Z.ones 64) A).
  { rewrite EO. apply Z.sub_nocarry_ldiff.
    apply Z.ldiff_ones_r_low; lia. }
  rewrite EN. rewrite <- Z.add_nocarry_lxor.
  - rewrite <- EN. lia.
  - apply Z.bits_inj'. intros n Hn.
    rewrite Z.land_spec, Z.ldiff_spec, Z.bits_0.
    destruct (Z.testbit A n); [|reflexivity].
    cbn. apply andb_false_r.
Qed.

(** X14.  Bit negation and XOR on the 64-bit patterns of non-NULL operands:
    [~x] is the complement [2^64 - 1 - x] and negating twice gives [x] back;
    [x ^ x] is 0, XOR-ing twice with the same value gives [x] back, [x ^ ~x]
    has all 64 bits set, and XOR is commutative. *)
Theorem Item_func_bit_neg_xor_val_int_involutive :
  forall (this : Item_func) (thd : THD) (a0 a1 : int_arg),
    arg_null_value a0 = false -> arg_null_value a1 = false ->
    let neg (x : int_arg) := Item_func_bit_neg_val_int this thd x in
    let xor (x y : int_arg) := Item_func_bit_xor_val_int this thd x y in
    let A := ulonglong (val_int a0) in
    ulonglong (returned (neg a0)) = 2 ^ 64 - 1 - A
    /\ ulonglong (returned (neg (as_int_arg true (neg a0)))) = A
    /\ returned (xor a0 a0) = 0
    /\ ulonglong (returned (xor (as_int_arg true (xor a0 a1)) a1)) = A
    /\ ulonglong (returned (xor a0 (as_int_arg true (neg a0)))) = 2 ^ 64 - 1
    /\ xor a0 a1 = xor a1 a0
    /\ is_null (neg a0) = false /\ is_null (xor a0 a1) = false.
Proof.
  intros this thd [v n0 u0] [w n1 u1] N0 N1; cbn in N0, N1. subst n0 n1.
  intros neg xor A. cbn [val_int] in A.
  pose proof (ulonglong_range v) as HA. fold A in HA.
  pose proof (ulonglong_range w) as HB.
  assert (En : forall x u,
             neg (mk_int_arg x false u)
             = (longlong (ulonglong (Z.lnot (ulonglong x))),
                set_null_value this false, thd)) by reflexivity.
  assert (Ex : forall x y u u',
             xor (mk_int_arg x false u) (mk_int_arg y false u')
             = (longlong (Z.lxor (ulonglong x) (ulonglong y)),
                set_null_value this false, thd)) by reflexivity.
  assert (Enot : forall U, 0 <= U < 2 ^ 64 ->
             ulonglong (Z.lnot U) = 2 ^ 64 - 1 - U).
  { intros U HU. unfold Z.lnot.
    assert (P64 : 2 ^ 64 = 18446744073709551616) by reflexivity.
    name_casts. lia. }
  assert (Hneg : ulonglong (returned (neg (mk_int_arg v false u0)))
                 = 2 ^ 64 - 1 - A).
  { rewrite En. unfold returned; cbn [fst].
    rewrite ulonglong_longlong.
    rewrite (ulonglong_small (ulonglong _)) by apply ulonglong_range.
    apply Enot. exact HA. }
  assert (Hxor : ulonglong (returned (xor (mk_int_arg v false u0)
                                        (mk_int_arg w false u1)))
                 = Z.lxor A (ulonglong w)).
  { rewrite Ex. unfold returned; cbn [fst].
    rewrite ulonglong_longlong. apply ulonglong_small.
    apply lxor_range; assumption. }
  assert (Eas : forall (r : eval Z) z,
             r = (z, set_null_value this false, thd) ->
             as_int_arg true r = mk_int_arg z false true).
  { intros r z ->. reflexivity. }
  repeat match goal with |- _ /\ _ => split end;
    try reflexivity.
  - exact Hneg.
  - rewrite (Eas _ _ (En v u0)), En. unfold returned; cbn [fst].
    rewrite !ulonglong_longlong.
    rewrite !(ulonglong_small (ulonglong _)) by apply ulonglong_range.
    fold A. rewrite (Enot A HA).
    rewrite Enot by lia. lia.
  - rewrite Ex. unfold returned; cbn [fst].
    rewrite Z.lxor_nilpotent. reflexivity.
  - rewrite (Eas _ _ (Ex v w u0 u1)), Ex. unfold returned; cbn [fst].
    rewrite !ulonglong_longlong. fold A.
    rewrite (ulonglong_small (Z.lxor A _)) by (apply lxor_range; assumption).
    rewrite Z.lxor_assoc, Z.lxor_nilpotent, Z.lxor_0_r.
    apply ulonglong_small. exact HA.
  - rewrite (Eas _ _ (En v u0)), Ex. unfold returned; cbn [fst].
    rewrite !ulonglong_longlong.
    rewrite !(ulonglong_small (ulonglong _)) by apply ulonglong_range.
    fold A. rewrite (Enot A HA).
    rewrite lxor_complement by exact HA. reflexivity.
  - rewrite !Ex. rewrite Z.lxor_comm. reflexivity.
Qed.

(** X14 at concrete operands: [(6 ^ 3) ^ 3] is 6. *)
Lemma Item_func_bit_neg_xor_val_int_involutive_witness :
  ulonglong
    (returned
       (Item_func_bit_xor_val_int fresh_node default_thd
          (as_int_arg true
             (Item_func_bit_xor_val_int fresh_node default_thd
                (mk_int_arg 6 false true) (mk_int_arg 3 false true)))
          (mk_int_arg 3 false true)))
  = ulonglong 6.
Proof.
  destruct (Item_func_bit_neg_xor_val_int_involutive fresh_node default_thd
              (mk_int_arg 6 false true) (mk_int_arg 3 false true)
              eq_refl eq_refl) as (_ & _ & _ & H & _).
  exact H.
Defined.

(** ** UUID_SHORT *)

Lemma uuid_short_calls_map (n : nat) (u : Z) :
  uuid_short_calls n u
  = map (fun k => longlong (u + Z.of_nat k)) (seq 0 n).
Proof.
  revert u. induction n as [|n IH]; intros u; [reflexivity|].
  cbn [uuid_short_calls Item_func_uuid_short_val_int].
  rewrite IH. cbn [seq map]. f_equal.
  - f_equal. lia.
  - rewrite <- seq_shift, map_map. apply map_ext. intros k.
    name_casts. lia.
Qed.

Lemma uuid_short_init_layout (server_id start : Z) :
  0 <= start < 2 ^ 32 ->
  uuid_short_init server_id start
  = server_id mod 256 * 2 ^ 56 + start * 2 ^ 24.
Proof.
  intros Hs. unfold uuid_short_init.
  rewrite !Z.shiftl_mul_pow2 by lia.
  assert (E1 : ulonglong (ulonglong server_id * 2 ^ 56)
               = server_id mod 256 * 2 ^ 56).
  { unfold ulonglong at 1.
    change 18446744073709551616 with (2 ^ 8 * 2 ^ 56).
    rewrite Z.mul_mod_distr_r by lia. f_equal. change (2 ^ 8) with 256.
    unfold ulonglong.
    pose proof (Z.div_mod server_id 18446744073709551616 ltac:(lia)) as E.
    replace (server_id mod 18446744073709551616)
      with (server_id
            + - (server_id / 18446744073709551616) * 72057594037927936 * 256)
      by lia.
    apply Z.mod_add. lia. }
  rewrite E1.
  assert (E2 : ulonglong start = start).
  { apply ulonglong_small. assert (2 ^ 32 < 2 ^ 64) by reflexivity. lia. }
  rewrite E2.
  assert (P : 2 ^ 24 = 16777216 /\ 2 ^ 32 = 4294967296
              /\ 2 ^ 56 = 72057594037927936
              /\ 2 ^ 64 = 18446744073709551616) by (repeat split).
  destruct P as (P24 & P32 & P56 & P64). rewrite P24, P32, P56 in *.
  pose proof (Z.mod_pos_bound server_id 256 ltac:(lia)) as B.
  rewrite (ulonglong_small (start * _)) by lia.
  apply ulonglong_small. lia.
Qed.

(** X15.  UUID_SHORT.  Successive calls return successive values of a 64-bit
    counter: any run of at most 2^64 calls returns pairwise different values.
    When the server started at a time below 2^32, call number [k] of the
    first 2^24 calls returns the value whose top 8 bits are the server id
    modulo 256, whose next 32 bits are the start time and whose low 24 bits
    are [k]. *)
Theorem Item_func_uuid_short_val_int_distinct :
  forall (server_id start : Z) (n : nat),
    let values := uuid_short_calls n (uuid_short_init server_id start) in
    length values = n
    /\ (Z.of_nat n <= 2 ^ 64 -> NoDup values)
    /\ (0 <= start < 2 ^ 32 ->
        forall k : nat, (k < n)%nat -> Z.of_nat k < 2 ^ 24 ->
          ulonglong (nth k values 0)
          = server_id mod 256 * 2 ^ 56 + start * 2 ^ 24 + Z.of_nat k).
Proof.
  intros server_id start n values. subst values.
  rewrite uuid_short_calls_map.
  split; [rewrite length_map, length_seq; reflexivity|]. split.
  - intros Hn. apply NoDup_map_NoDup_ForallPairs; [|apply seq_NoDup].
    intros i j Hi Hj E. apply in_seq in Hi, Hj.
    assert (P64 : 2 ^ 64 = 18446744073709551616) by reflexivity.
    revert E. name_casts. lia.
  - intros Hs k Hk Hk24.
    rewrite (nth_indep _ 0 (longlong (uuid_short_init server_id start
                                       + Z.of_nat 0)))
      by (rewrite length_map, length_seq; exact Hk).
    rewrite (map_nth (fun k => longlong (_ + Z.of_nat k))).
    rewrite seq_nth by exact Hk. cbn [Nat.add].
    rewrite ulonglong_longlong.
    rewrite uuid_short_init_layout by exact Hs.
    apply ulonglong_small.
    assert (P : 2 ^ 24 = 16777216 /\ 2 ^ 32 = 4294967296
                /\ 2 ^ 56 = 72057594037927936
                /\ 2 ^ 64 = 18446744073709551616) by (repeat split).
    destruct P as (P24 & P32 & P56 & P64). rewrite P24, P32, P56, P64 in *.
    pose proof (Z.mod_pos_bound server_id 256 ltac:(lia)) as B. lia.
Qed.

(** X15 at concrete operands: three calls on server 1 started at time 2. *)
Lemma Item_func_uuid_short_val_int_distinct_witness :
  NoDup (uuid_short_calls 3 (uuid_short_init 1 2)).
Proof.
  apply (Item_func_uuid_short_val_int_distinct 1 2 3).
  vm_compute. discriminate.
Defined.

(** ** FIELD and FIND_IN_SET *)

(** What [first_index_from] returns: 0 when no element passes the test, and
    otherwise the index of the first one that does. *)
Lemma first_index_from_spec {X : Type} (test : X -> bool) (l : list X) (i : Z) :
  0 < i ->
  (first_index_from test i l = 0
   /\ forall x, In x l -> test x = false)
  \/ (exists pre x post,
        l = pre ++ x :: post
        /\ (forall y, In y pre -> test y = false)
        /\ test x = true
        /\ first_index_from test i l = i + Z.of_nat (length pre)).
Proof.
  revert i. induction l as [|x l IH]; intros i Hi.
  - left. split; [reflexivity | intros x []].
  - cbn [first_index_from]. destruct (test x) eqn:Ex.
    + right. exists [], x, l. cbn. repeat split; try assumption.
      * intros y [].
      * lia.
    + destruct (IH (i + 1) ltac:(lia)) as [(E0 & Hall) | (pre & y & post & El & Hpre & Ey & Er)].
      * left. split; [exact E0|]. intros y [<-|Hy]; [exact Ex | apply Hall, Hy].
      * right. exists (x :: pre), y, post. subst l. cbn [app length].
        repeat split; try assumption.
        -- intros z [<-|Hz]; [exact Ex | apply Hpre, Hz].
        -- rewrite Er. lia.
Qed.

Lemma field_loop_first_index {X : Type} (test : X -> bool) (l : list X) (i : Z) :
  field_loop test i l = first_index_from test i l.
Proof. revert i. induction l as [|x l IH]; intros i; cbn; [|rewrite IH]; reflexivity. Qed.

Lemma first_index_from_ext {X : Type} (f g : X -> bool) (l : list X) (i : Z) :
  (forall x, f x = g x) -> first_index_from f i l = first_index_from g i l.
Proof.
  intros E. revert i. induction l as [|x l IH]; intros i; [reflexivity|].
  cbn [first_index_from]. rewrite E, IH. reflexivity.
Qed.

(** X16.  FIELD(needle, a1 .. an) in each comparison domain: the result is
    0 when the needle is NULL; otherwise it is the 1-based index of the first
    candidate that is not NULL and equal to the needle, and 0 when there is
    no such candidate.  It lies in [0 .. n].  NULL candidates never match, and
    in the integer domain the [longlong]s are compared whatever the
    signedness of the operands. *)
Theorem Item_func_field_val_int_first_match :
  forall (P : Decimal_package) (sortcmp : String -> String -> Z)
         (my_decimal_cmp : my_decimal P -> my_decimal P -> Z)
         (cmp_type : Item_result) (a0 : field_operand P)
         (args : list (field_operand P)),
    let r := Item_func_field_val_int P sortcmp my_decimal_cmp cmp_type a0 args in
    let matches := field_matches P sortcmp my_decimal_cmp cmp_type a0 in
    0 <= r <= Z.of_nat (length args)
    /\ (field_needle_null P cmp_type a0 = true -> r = 0)
    /\ (field_needle_null P cmp_type a0 = false ->
        (r = 0 -> forall a, In a args -> matches a = false)
        /\ (0 < r ->
            exists pre a post,
              args = pre ++ a :: post
              /\ Z.of_nat (length pre) = r - 1
              /\ matches a = true
              /\ forall b, In b pre -> matches b = false)).
Proof.
  intros P sortcmp my_decimal_cmp cmp_type a0 args r matches.
  assert (Hr : field_needle_null P cmp_type a0 = true /\ r = 0
               \/ field_needle_null P cmp_type a0 = false
                  /\ r = first_index_from matches 1 args).
  { subst r matches.
    unfold Item_func_field_val_int, field_needle_null.
    destruct cmp_type.
    - destruct (op_val_str P a0) as [field|] eqn:E0; [right | left; auto].
      split; [reflexivity|]. rewrite field_loop_first_index.
      apply first_index_from_ext. intros a. unfold field_matches.
      rewrite E0. reflexivity.
    - destruct (real_null_value (op_val_real P a0)); [left; auto | right].
      split; [reflexivity|]. rewrite field_loop_first_index.
      apply first_index_from_ext. intros a. apply andb_comm.
    - destruct (arg_null_value (op_val_int P a0)); [left; auto | right].
      split; [reflexivity|]. rewrite field_loop_first_index.
      apply first_index_from_ext. intros a. apply andb_comm.
    - destruct (real_null_value (op_val_real P a0)); [left; auto | right].
      split; [reflexivity|]. rewrite field_loop_first_index.
      apply first_index_from_ext. intros a. apply andb_comm.
    - destruct (dec_null_value P (op_val_decimal P a0)); [left; auto | right].
      split; [reflexivity|]. rewrite field_loop_first_index.
      reflexivity.
    - destruct (real_null_value (op_val_real P a0)); [left; auto | right].
      split; [reflexivity|]. rewrite field_loop_first_index.
      apply first_index_from_ext. intros a. apply andb_comm. }
  clearbody r matches.
  destruct Hr as [(Hn & ->) | (Hn & ->)]; rewrite Hn.
  - split; [lia|]. split; [reflexivity | discriminate].
  - destruct (first_index_from_spec matches args 1 ltac:(lia))
      as [(E0 & Hall) | (pre & x & post & El & Hpre & Ex & Er)].
    + rewrite E0. split; [lia|]. split; [discriminate|]. intros _.
      split; [intros _; exact Hall | lia].
    + rewrite Er. subst args. rewrite length_app. cbn [length].
      split; [lia|]. split; [discriminate|]. intros _.
      split; [lia|]. intros _. exists pre, x, post.
      repeat split; try assumption. lia.
Qed.

Lemma skipn_length_app {X : Type} (l r : list X) : skipn (length l) (l ++ r) = r.
Proof. induction l as [|x l IH]; [reflexivity | exact IH]. Qed.

Lemma firstn_length_app {X : Type} (l r : list X) :
  firstn (length l) (l ++ r) = l.
Proof. induction l as [|x l IH]; [reflexivity | cbn; rewrite IH; reflexivity]. Qed.

Lemma substring_middle (pre cur rest : String) :
  substring (pre ++ cur ++ rest) (Z.of_nat (length pre))
    (Z.of_nat (length pre + length cur))
  = cur.
Proof.
  unfold substring.
  replace (Z.to_nat (Z.of_nat (length pre + length cur)
                     - Z.of_nat (length pre))) with (length cur) by lia.
  rewrite Nat2Z.id, skipn_length_app. apply firstn_length_app.
Qed.

(** On a single-byte character set the loop over offsets is the scan of the
    list of bytes. *)
Lemma find_in_set_loop_scan (cs : CHARSET_INFO) (find : String) :
  single_byte cs ->
  forall (rest pre cur buffer : String) (fuel : nat)
         (str_begin str_end position wc : Z),
    buffer = pre ++ cur ++ rest ->
    str_begin = Z.of_nat (length pre) ->
    str_end = Z.of_nat (length pre + length cur) ->
    (length rest < fuel)%nat ->
    find_in_set_loop cs buffer find fuel str_begin str_end position wc
    = find_in_set_scan cs find cur rest position wc.
Proof.
  intros [Hmb Hend].
  induction rest as [|b rest IH];
    intros pre cur buffer fuel str_begin str_end position wc Eb E1 E2 Hf;
    (destruct fuel as [|fuel]; [cbn in Hf; lia|]).
  - cbn [find_in_set_loop find_in_set_scan].
    assert (Es : skipn (Z.to_nat str_end) buffer = []).
    { subst. rewrite Nat2Z.id, app_nil_r, <- length_app.
      rewrite <- (app_nil_r (pre ++ cur)) at 2. apply skipn_length_app. }
    rewrite Es. destruct (Hend wc) as [Hle Hwc].
    destruct (mb_wc cs wc []) as [symbol_len wc'] eqn:Ewc.
    cbn [fst snd] in Hle, Hwc. subst wc'.
    destruct (Z.ltb_spec 0 symbol_len); [lia|].
    replace (str_end - str_begin) with (Z.of_nat (length cur)) by lia.
    reflexivity.
  - cbn [find_in_set_loop find_in_set_scan].
    assert (Es : skipn (Z.to_nat str_end) buffer = b :: rest).
    { subst. rewrite Nat2Z.id, app_assoc, <- length_app.
      apply skipn_length_app. }
    rewrite Es, Hmb. cbn [Z.ltb Z.compare].
    assert (Elast : (str_end + 1 =? Z.of_nat (length buffer))
                    = match rest with [] => true | _ :: _ => false end).
    { subst. rewrite !length_app. cbn [length].
      destruct rest; cbn [length]; [apply Z.eqb_eq | apply Z.eqb_neq]; lia. }
    rewrite Elast.
    set (is_sep := byte_code b =? separator).
    set (is_last := match rest with [] => true | _ :: _ => false end).
    assert (Ecur : substring buffer str_begin str_end = cur).
    { subst. apply substring_middle. }
    assert (Ecurb : substring buffer str_begin (str_end + 1) = cur ++ [b]).
    { subst buffer str_begin str_end.
      replace (pre ++ cur ++ b :: rest) with (pre ++ (cur ++ [b]) ++ rest)
        by (rewrite <- (app_assoc cur); reflexivity).
      replace (Z.of_nat (length pre + length cur) + 1)
        with (Z.of_nat (length pre + length (cur ++ [b])))
        by (rewrite length_app; cbn [length]; lia).
      apply substring_middle. }
    destruct (is_sep || is_last) eqn:Ecase.
    + assert (Eitem : substring buffer str_begin
                        (if is_last && negb is_sep then str_end + 1
                         else str_end)
                      = if is_last && negb is_sep then cur ++ [b] else cur).
      { destruct (is_last && negb is_sep); assumption. }
      rewrite Eitem.
      destruct (my_strnncoll cs _ find =? 0); [reflexivity|].
      apply (IH (pre ++ cur ++ [b]) []).
      * subst buffer. rewrite app_nil_l, <- !app_assoc. reflexivity.
      * subst. rewrite !length_app. cbn [length]. lia.
      * subst. rewrite !length_app. cbn [length]. lia.
      * cbn [length] in Hf. lia.
    + apply (IH pre (cur ++ [b])).
      * subst buffer. rewrite <- (app_assoc cur). reflexivity.
      * exact E1.
      * subst. rewrite !length_app. cbn [length]. lia.
      * cbn [length] in Hf. lia.
Qed.

Lemma split_items_nonempty (s : String) : split_items s <> [].
Proof.
  destruct s as [|b s]; cbn; [discriminate|].
  destruct (byte_code b =? separator); [discriminate|].
  destruct (split_items s); discriminate.
Qed.

(** The scan finds the first matching item of the split list.  [cur] is the
    part of the first item that has been read. *)
Lemma find_in_set_scan_first_index (cs : CHARSET_INFO) (find : String) :
  (my_strnncoll cs [] find = 0 <-> find = []) ->
  forall (rest cur : String) (position wc : Z),
    rest <> [] ->
    find_in_set_scan cs find cur rest position wc
    = first_index_from (fun item => my_strnncoll cs item find =? 0)
        (position + 1)
        (match split_items rest with
         | item :: items => (cur ++ item) :: items
         | [] => []
         end).
Proof.
  intros Hempty.
  assert (Htest : (my_strnncoll cs [] find =? 0)
                  = (Z.of_nat (length find) =? 0)).
  { destruct (Z.eqb_spec (my_strnncoll cs [] find) 0) as [E|E].
    - apply Hempty in E. subst find. reflexivity.
    - destruct find as [|c find]; [elim E; apply Hempty; reflexivity|].
      reflexivity. }
  induction rest as [|b rest IH]; intros cur position wc Hne;
    [contradiction|].
  cbn [find_in_set_scan split_items].
  destruct rest as [|b' rest'].
  - (* the last byte *)
    cbn [split_items find_in_set_scan length Z.of_nat Z.eqb andb orb].
    rewrite orb_true_r.
    destruct (byte_code b =? separator) eqn:Esep;
      cbn [andb negb first_index_from].
    + rewrite app_nil_r.
      destruct (my_strnncoll cs cur find =? 0); [reflexivity|].
      rewrite Htest.
      destruct (Z.of_nat (length find) =? 0); reflexivity.
    + destruct (my_strnncoll cs (cur ++ [b]) find =? 0); [reflexivity|].
      rewrite andb_false_r. reflexivity.
  - rewrite orb_false_r.
    specialize (IH) with (1 := ltac:(discriminate) : b' :: rest' <> []).
    destruct (byte_code b =? separator) eqn:Esep;
      cbn [andb negb first_index_from].
    + rewrite app_nil_r.
      destruct (my_strnncoll cs cur find =? 0); [reflexivity|].
      rewrite IH.
      destruct (split_items (b' :: rest')) as [|item items] eqn:Es;
        [elim (split_items_nonempty _ Es)|].
      reflexivity.
    + rewrite IH.
      destruct (split_items (b' :: rest')) as [|item items] eqn:Es;
        [elim (split_items_nonempty _ Es)|].
      rewrite <- app_assoc. reflexivity.
Qed.

Lemma binary_charset_single_byte : single_byte binary_charset.
Proof. split; [reflexivity | intros wc; cbn; split; [discriminate | reflexivity]]. Qed.

(** X17.  FIND_IN_SET(find, buffer) on two strings, for a single-byte
    character set: the result is not NULL, and it is the 1-based position of
    the first item of the comma-separated list [buffer] that is equal to
    [find] under the collation, 0 when there is none.  [n] commas make
    [n + 1] items, an item may be empty, and the empty buffer has no item at
    all, so FIND_IN_SET('', '') is 0.  A needle longer than the buffer is not
    compared and gives 0.  If either string is NULL the result is NULL. *)
Theorem Item_func_find_in_set_val_int_first_item :
  forall (cs : CHARSET_INFO) (this : Item_func) (thd : THD)
         (find buffer : String) (a1 : int_arg),
    single_byte cs ->
    Z.of_nat (length buffer) < 2 ^ 31 -> Z.of_nat (length find) < 2 ^ 31 ->
    let r :=
      Item_func_find_in_set_val_int cs 0 0 this thd (Some find) (Some buffer)
        a1 in
    node_after r = set_null_value this false /\ thd_after r = thd
    /\ ((length buffer < length find)%nat -> returned r = 0)
    /\ ((length find <= length buffer)%nat ->
        (my_strnncoll cs [] find = 0 <-> find = []) ->
        returned r
        = first_index (fun item => my_strnncoll cs item find =? 0)
            (set_items buffer))
    /\ (forall s : option String,
          Item_func_find_in_set_val_int cs 0 0 this thd None s a1
          = (0, set_null_value this true, thd)
          /\ Item_func_find_in_set_val_int cs 0 0 this thd s None a1
             = (0, set_null_value this true, thd)).
Proof.
  intros cs this thd find buffer a1 Hcs Hb Hf r.
  assert (P : 2 ^ 31 = 2147483648) by reflexivity. rewrite P in Hb, Hf.
  subst r. unfold Item_func_find_in_set_val_int.
  cbn [Z.eqb negb].
  set (d := Z.of_nat (length buffer) - Z.of_nat (length find)).
  assert (Hd : (0 <=? int32 (uint32 d)) = (0 <=? d)).
  { assert (Hr : -2147483648 < d < 2147483648) by lia. clearbody d.
    unfold int32, uint32.
    destruct (Z.leb_spec 0 d).
    - rewrite (Z.mod_small d) by lia.
      rewrite Z.mod_small by lia. apply Z.leb_le. lia.
    - assert (E : d mod 4294967296 = d + 4294967296).
      { symmetry. apply Z.mod_unique with (-1); lia. }
      rewrite E.
      assert (E' : (d + 4294967296 + 2147483648) mod 4294967296
                   = d + 2147483648).
      { symmetry. apply Z.mod_unique with 1; lia. }
      rewrite E'. apply Z.leb_gt. lia. }
  rewrite Hd.
  split; [destruct (0 <=? d); reflexivity|].
  split; [destruct (0 <=? d); reflexivity|].
  split; [|split].
  - intros Hlt. destruct (Z.leb_spec 0 d); [lia | reflexivity].
  - intros Hle Hempty. destruct (Z.leb_spec 0 d); [|lia].
    unfold returned; cbn [fst].
    rewrite (find_in_set_loop_scan cs find Hcs buffer [] [] buffer
               (S (length buffer)) 0 0 0 0 eq_refl eq_refl eq_refl
               ltac:(lia)).
    unfold first_index, set_items.
    destruct buffer as [|b buffer].
    { cbn [find_in_set_scan first_index_from].
      change (0 =? separator) with false.
      rewrite andb_false_r. reflexivity. }
    rewrite (find_in_set_scan_first_index cs find Hempty (b :: buffer) [] 0 0)
      by discriminate.
    destruct (split_items (b :: buffer)) as [|item items] eqn:Es;
      [elim (split_items_nonempty _ Es)|].
    reflexivity.
  - intros s. split; [reflexivity|]. destruct s; reflexivity.
Qed.

(** X17 at concrete operands: FIND_IN_SET('b', 'a,b,c') is 2 under the
    binary collation. *)
Lemma Item_func_find_in_set_val_int_first_item_witness :
  returned
    (Item_func_find_in_set_val_int binary_charset 0 0 fresh_node default_thd
       (Some [Byte.x62])
       (Some [Byte.x61; Byte.x2c; Byte.x62; Byte.x2c; Byte.x63])
       (mk_int_arg 0 false false))
  = 2.
Proof.
  destruct (Item_func_find_in_set_val_int_first_item binary_charset fresh_node
              default_thd [Byte.x62]
              [Byte.x61; Byte.x2c; Byte.x62; Byte.x2c; Byte.x63]
              (mk_int_arg 0 false false) binary_charset_single_byte)
    as (_ & _ & _ & H & _).
  - reflexivity.
  - reflexivity.
  - etransitivity; [apply H | reflexivity].
    + cbn. lia.
    + split; discriminate.
Defined.

(** ** ASCII and ORD *)

Lemma byte_code_range (b : Byte.byte) : 0 <= byte_code b < 256.
Proof.
  unfold byte_code. pose proof (Byte.to_N_bounded b). lia.
Qed.

Lemma lor_shift_byte (n c : Z) :
  0 <= n -> 0 <= c < 256 -> Z.lor (Z.shiftl n 8) c = n * 256 + c.
Proof.
  intros Hn Hc. rewrite Z.shiftl_mul_pow2 by lia. change (2 ^ 8) with 256.
  assert (Hland : Z.land (n * 256) c = 0).
  { apply Z.bits_inj'. intros i Hi. rewrite Z.land_spec, Z.bits_0.
    destruct (Z.ltb_spec i 8).
    - replace (n * 256) with (n * 2 ^ 8) by reflexivity.
      rewrite Z.mul_pow2_bits_low by lia. reflexivity.
    - assert (Hb : Z.testbit c i = false).
      { destruct (Z.eq_dec c 0) as [->|]; [apply Z.bits_0|].
        apply Z.bits_above_log2; [lia|].
        assert (Z.log2 c < 8) by (apply Z.log2_lt_pow2; lia). lia. }
      rewrite Hb. apply andb_false_r. }
  rewrite <- Z.lxor_lor by exact Hland.
  symmetry. apply Z.add_nocarry_lxor. exact Hland.
Qed.

Lemma big_endian_app (bs : String) (n : Z) :
  fold_left (fun n b => n * 256 + byte_code b) bs n
  = n * 256 ^ Z.of_nat (length bs) + big_endian bs.
Proof.
  unfold big_endian. revert n.
  induction bs as [|b bs IH]; intros n; cbn [fold_left length].
  - change (256 ^ Z.of_nat 0) with 1. lia.
  - rewrite IH, (IH (0 * 256 + byte_code b)).
    rewrite Nat2Z.inj_succ, Z.pow_succ_r by lia. lia.
Qed.

Lemma big_endian_range (bs : String) :
  0 <= big_endian bs < 256 ^ Z.of_nat (length bs).
Proof.
  induction bs as [|b bs IH].
  - cbn. lia.
  - unfold big_endian. cbn [fold_left length].
    rewrite big_endian_app.
    rewrite Nat2Z.inj_succ, Z.pow_succ_r by lia.
    pose proof (byte_code_range b). nia.
Qed.

Lemma ord_loop_big_endian (l : nat) :
  forall (str : String) (n : Z),
    (l <= length str)%nat -> 0 <= n ->
    n * 256 ^ Z.of_nat l + big_endian (firstn l str) < 2 ^ 32 ->
    ord_loop l str n
    = Some (n * 256 ^ Z.of_nat l + big_endian (firstn l str)).
Proof.
  induction l as [|l IH]; intros str n Hl Hn Hlt.
  - cbn. f_equal. lia.
  - destruct str as [|b str]; [cbn in Hl; lia|].
    cbn [ord_loop firstn]. cbn [length] in Hl.
    unfold big_endian in *. cbn [fold_left firstn] in *.
    rewrite big_endian_app in *.
    rewrite length_firstn, Nat.min_l in * by lia.
    rewrite Nat2Z.inj_succ, Z.pow_succ_r in * by lia.
    pose proof (byte_code_range b) as Hb.
    pose proof (big_endian_range (firstn l str)) as Hr.
    rewrite length_firstn, Nat.min_l in Hr by lia.
    assert (HP : 0 < 256 ^ Z.of_nat l) by (apply Z.pow_pos_nonneg; lia).
    assert (Hsmall : 0 <= n * 2 ^ 8 < 2 ^ 32).
    { change (2 ^ 8) with 256. split; [lia|]. nia. }
    rewrite Z.shiftl_mul_pow2 by lia.
    assert (Eu : uint32 (n * 2 ^ 8) = n * 2 ^ 8).
    { apply Z.mod_small. exact Hsmall. }
    rewrite Eu, <- Z.shiftl_mul_pow2 by lia.
    rewrite lor_shift_byte by lia.
    rewrite IH; [f_equal | lia | lia |];
      change (fold_left (fun n b => n * 256 + byte_code b) (firstn l str) 0)
        with (big_endian (firstn l str));
      lia.
Qed.

Lemma big_endian_bytes_spec (bs : String) :
  big_endian_bytes (length bs) (big_endian bs) = map byte_code bs.
Proof.
  induction bs as [|b bs IH]; [reflexivity|].
  cbn [length big_endian_bytes map].
  assert (E : big_endian (b :: bs)
              = byte_code b * 256 ^ Z.of_nat (length bs) + big_endian bs).
  { unfold big_endian at 1. cbn [fold_left]. rewrite big_endian_app. lia. }
  pose proof (big_endian_range bs) as Hr.
  pose proof (byte_code_range b) as Hb.
  assert (HP : 0 < 256 ^ Z.of_nat (length bs))
    by (apply Z.pow_pos_nonneg; lia).
  f_equal.
  - rewrite E. rewrite Z.div_add_l by lia.
    rewrite (Z.div_small (big_endian bs)) by lia.
    rewrite Z.add_0_r. apply Z.mod_small. exact Hb.
  - rewrite <- IH.
    assert (G : forall l n m, (l <= length bs)%nat ->
              big_endian_bytes l (m * 256 ^ Z.of_nat (length bs) + n)
              = big_endian_bytes l n).
    { induction l as [|l IHl]; intros n m Hl; [reflexivity|].
      cbn [big_endian_bytes]. rewrite IHl by lia. f_equal.
      assert (Epow : 256 ^ Z.of_nat (length bs)
                     = 256 ^ Z.of_nat (length bs - S l) * 256
                       * 256 ^ Z.of_nat l).
      { replace (Z.of_nat (length bs))
          with (Z.of_nat (length bs - S l) + 1 + Z.of_nat l) at 1 by lia.
        rewrite !Z.pow_add_r by lia. rewrite Z.pow_1_r. reflexivity. }
      assert (HPl : 0 < 256 ^ Z.of_nat l) by (apply Z.pow_pos_nonneg; lia).
      rewrite Epow.
      replace (m * (256 ^ Z.of_nat (length bs - S l) * 256 * 256 ^ Z.of_nat l)
               + n)
        with (n + m * 256 ^ Z.of_nat (length bs - S l) * 256
                  * 256 ^ Z.of_nat l) by lia.
      rewrite Z.div_add by lia.
      apply Z.mod_add. lia. }
    rewrite E. apply G. lia.
Qed.

(** X25.  ASCII and ORD.  Both are NULL for a NULL string and 0 for the empty
    string.  For a character set without multi-byte characters, or when the
    string starts with a single-byte character, ORD is ASCII: the code of the
    first byte.  When the string starts with a multi-byte character of [l]
    bytes, [2 <= l <= 4], ORD is the number that these bytes spell, most
    significant byte first, and the bytes can be read back from it. *)
Theorem Item_func_ord_val_int_big_endian :
  forall (cs : CHARSET_INFO) (this : Item_func) (thd : THD) (res : String),
    let ascii := Item_func_ascii_val_int this thd (Some res) in
    let ord := Item_func_ord_val_int cs this thd (Some res) in
    let l := my_ismbchar cs res in
    Item_func_ascii_val_int this thd None = (0, set_null_value this true, thd)
    /\ Item_func_ord_val_int cs this thd None
       = (Some 0, set_null_value this true, thd)
    /\ (res = [] ->
        ascii = (0, set_null_value this false, thd)
        /\ ord = (Some 0, set_null_value this false, thd))
    /\ (use_mb cs = false \/ l = 0 ->
        ord = (Some (returned ascii), set_null_value this false, thd))
    /\ (res <> [] -> use_mb cs = true -> 2 <= l <= 4 ->
        l <= Z.of_nat (length res) ->
        let char := firstn (Z.to_nat l) res in
        ord = (Some (big_endian char), set_null_value this false, thd)
        /\ big_endian_bytes (Z.to_nat l) (big_endian char)
           = map byte_code char).
Proof.
  intros cs this thd res ascii ord l.
  split; [reflexivity|]. split; [reflexivity|].
  split; [intros ->; split; reflexivity|]. split.
  - subst ascii ord. unfold Item_func_ord_val_int, Item_func_ascii_val_int.
    destruct res as [|b res]; [intros _; reflexivity|].
    unfold returned; cbn [fst].
    intros [E|E].
    + rewrite E. reflexivity.
    + subst l. rewrite E. destruct (use_mb cs); reflexivity.
  - intros Hne Hmb Hl Hlen char.
    assert (Hc : length char = Z.to_nat l).
    { subst char. rewrite length_firstn. lia. }
    split.
    + subst ord. unfold Item_func_ord_val_int.
      destruct res as [|b res]; [contradiction|].
      rewrite Hmb. fold l.
      assert (Eu : uint32 l = l) by (apply Z.mod_small; lia).
      rewrite Eu. destruct (Z.eqb_spec l 0); [lia|].
      rewrite ord_loop_big_endian.
      * fold char. rewrite Z.mul_0_l, Z.add_0_l. reflexivity.
      * lia.
      * lia.
      * fold char. rewrite Z.mul_0_l, Z.add_0_l.
        pose proof (big_endian_range char) as Hr. rewrite Hc in Hr.
        rewrite Z2Nat.id in Hr by lia.
        assert (256 ^ l <= 256 ^ 4) by (apply Z.pow_le_mono_r; lia).
        change (256 ^ 4) with (2 ^ 32) in *. lia.
    + rewrite <- Hc. apply big_endian_bytes_spec.
Qed.

(** X25 at a concrete string: ORD of the two-byte character 0xC3 0xA9 is
    0xC3A9 = 50089. *)
Lemma Item_func_ord_val_int_big_endian_witness :
  returned
    (Item_func_ord_val_int two_byte_charset fresh_node default_thd
       (Some [Byte.xc3; Byte.xa9]))
  = Some 50089.
Proof.
  destruct (Item_func_ord_val_int_big_endian two_byte_charset fresh_node
              default_thd [Byte.xc3; Byte.xa9])
    as (_ & _ & _ & _ & H).
  destruct H as (H & _).
  - discriminate.
  - reflexivity.
  - cbn. lia.
  - cbn. lia.
  - exact (f_equal (fun r => returned r) H).
Defined.

(** ** Domain errors of the real functions *)

(** X19.  Arguments outside the domain of a real function give NULL.  For a
    non-NULL argument that is [<= 0], LN, LOG2, LOG10 and LOG (with one or
    two operands) are NULL through [signal_divide_by_null]: a division-by-zero
    warning is pushed exactly under [MODE_ERROR_FOR_DIVISION_BY_ZERO];
    LOG(b, x) is such a NULL also for [x <= 0] and for the base 1.  SQRT of a
    negative number and ACOS and ASIN outside [-1, 1] are NULL without any
    diagnostic.  Inside the domain the C library's value is returned, the
    result is not NULL and the session is untouched. *)
Theorem Item_func_log_sqrt_val_real_domain :
  forall (m : Libm_functions) (this : Item_func) (thd : THD)
         (a0 a1 : real_arg),
    real_null_value a0 = false -> real_null_value a1 = false ->
    let x := val_real a0 in
    let y := val_real a1 in
    let div0 : eval float :=
      (0%float, set_null_value this true, thd_after_division_by_zero thd) in
    let silent : eval float := (0%float, set_null_value this true, thd) in
    let value (v : float) : eval float :=
      (v, set_null_value this false, thd) in
    (PrimFloat.leb x 0 = true ->
       Item_func_ln_val_real m this thd a0 = div0
       /\ Item_func_log2_val_real m this thd a0 = div0
       /\ Item_func_log10_val_real m this thd a0 = div0
       /\ Item_func_log_val_real m this thd a0 None = div0
       /\ Item_func_log_val_real m this thd a0 (Some a1) = div0)
    /\ (PrimFloat.leb x 0 = false ->
          Item_func_ln_val_real m this thd a0 = value (log m x)
          /\ Item_func_log2_val_real m this thd a0
             = value (log m x / M_LN2)%float
          /\ Item_func_log10_val_real m this thd a0 = value (log10 m x)
          /\ Item_func_log_val_real m this thd a0 None = value (log m x)
          /\ (PrimFloat.leb y 0 || PrimFloat.eqb x 1 = true ->
              Item_func_log_val_real m this thd a0 (Some a1) = div0)
          /\ (PrimFloat.leb y 0 || PrimFloat.eqb x 1 = false ->
              Item_func_log_val_real m this thd a0 (Some a1)
              = value (log m y / log m x)%float))
    /\ (PrimFloat.ltb x 0 = true ->
          Item_func_sqrt_val_real this thd a0 = silent)
    /\ (PrimFloat.ltb x 0 = false ->
          Item_func_sqrt_val_real this thd a0 = value (PrimFloat.sqrt x))
    /\ (PrimFloat.ltb x (-1) || PrimFloat.ltb 1 x = true ->
          Item_func_acos_val_real m this thd a0 = silent
          /\ Item_func_asin_val_real m this thd a0 = silent)
    /\ (PrimFloat.ltb x (-1) || PrimFloat.ltb 1 x = false ->
          Item_func_acos_val_real m this thd a0 = value (acos m x)
          /\ Item_func_asin_val_real m this thd a0 = value (asin m x)).
Proof.
  intros m this thd [x n0] [y n1] N0 N1; cbn in N0, N1. subst n0 n1.
  intros x' y' div0 silent value. subst x' y' div0 silent value.
  cbn [val_real].
  unfold Item_func_ln_val_real, Item_func_log2_val_real,
    Item_func_log10_val_real, Item_func_log_val_real,
    Item_func_sqrt_val_real, Item_func_acos_val_real,
    Item_func_asin_val_real, signal_divide_by_null,
    thd_after_division_by_zero.
  cbn [val_real real_null_value orb set_null_value null_value result_type
       decimals max_length unsigned_flag maybe_null].
  repeat match goal with |- _ /\ _ => split end; intros E;
    repeat match goal with |- _ /\ _ => split end;
    try (rewrite E; reflexivity).
  - intros E'. rewrite E, E'. reflexivity.
  - intros E'. rewrite E, E'. reflexivity.
Qed.

(** X19 at concrete operands: LN(0) under [MODE_ERROR_FOR_DIVISION_BY_ZERO]
    is NULL with a division-by-zero warning. *)
Lemma Item_func_log_sqrt_val_real_domain_witness :
  Item_func_ln_val_real sample_libm_functions fresh_node strict_thd
    (mk_real_arg 0 false)
  = (0%float, set_null_value fresh_node true,
     push_warning strict_thd ER_DIVISION_BY_ZERO)
  /\ Item_func_sqrt_val_real fresh_node strict_thd (mk_real_arg (-4) false)
     = (0%float, set_null_value fresh_node true, strict_thd).
Proof.
  destruct (Item_func_log_sqrt_val_real_domain sample_libm_functions
              fresh_node strict_thd (mk_real_arg 0 false)
              (mk_real_arg 0 false) eq_refl eq_refl)
    as (H & _).
  destruct (Item_func_log_sqrt_val_real_domain sample_libm_functions
              fresh_node strict_thd (mk_real_arg (-4) false)
              (mk_real_arg 0 false) eq_refl eq_refl)
    as (_ & _ & H' & _).
  split; [apply H; reflexivity | apply H'; reflexivity].
Defined.

(** ** Unary minus, ABS and SIGN on doubles *)

Lemma ltb_zero_cases (x : float) :
  PrimFloat.ltb (- x) 0 = PrimFloat.ltb 0 x
  /\ PrimFloat.ltb 0 (- x) = PrimFloat.ltb x 0
  /\ PrimFloat.ltb (PrimFloat.abs x) 0 = false
  /\ PrimFloat.ltb 0 (PrimFloat.abs x)
     = (PrimFloat.ltb x 0 || PrimFloat.ltb 0 x)
  /\ (PrimFloat.ltb x 0 && PrimFloat.ltb 0 x = false).
Proof.
  rewrite !ltb_spec, !opp_spec, !abs_spec.
  change (Prim2SF 0) with (S754_zero false).
  destruct (Prim2SF x) as [s|s| |s m e]; try destruct s; repeat split.
Qed.

(** X22.  On doubles, unary minus is an involution and ABS is idempotent and
    even; SIGN returns -1, 0 or 1, it is odd (SIGN(-x) = -SIGN(x)), and
    SIGN(ABS(x)) is the absolute value of SIGN(x).  Each of these methods
    passes the operand's NULL flag on and raises no diagnostic. *)
Theorem Item_func_neg_abs_sign_real_compose :
  forall (this : Item_func) (thd : THD) (a0 : real_arg),
    let neg := Item_func_neg_real_op this thd in
    let abs := Item_func_abs_real_op this thd in
    let sign := Item_func_sign_val_int this thd in
    neg (as_real_arg (neg a0))
    = (val_real a0, set_null_value this (real_null_value a0), thd)
    /\ abs (as_real_arg (neg a0)) = abs a0
    /\ abs (as_real_arg (abs a0)) = abs a0
    /\ -1 <= returned (sign a0) <= 1
    /\ sign (as_real_arg (neg a0))
       = (- returned (sign a0), set_null_value this (real_null_value a0), thd)
    /\ sign (as_real_arg (abs a0))
       = (Z.abs (returned (sign a0)),
          set_null_value this (real_null_value a0), thd).
Proof.
  intros this thd [x n] neg abs sign. subst neg abs sign.
  unfold Item_func_neg_real_op, Item_func_abs_real_op,
    Item_func_sign_val_int, as_real_arg, returned, is_null, node_after.
  cbn [val_real real_null_value fst snd set_null_value null_value].
  destruct (ltb_zero_cases x) as (L1 & L2 & L3 & L4 & L5).
  rewrite L1, L2, L3, L4.
  assert (Eopp : (- - x)%float = x).
  { apply Prim2SF_inj. rewrite !opp_spec.
    destruct (Prim2SF x) as [s|s| |s m e]; cbn;
      rewrite ?negb_involutive; reflexivity. }
  assert (Eabs1 : PrimFloat.abs (- x) = PrimFloat.abs x).
  { apply Prim2SF_inj. rewrite !abs_spec, opp_spec.
    destruct (Prim2SF x); reflexivity. }
  assert (Eabs2 : PrimFloat.abs (PrimFloat.abs x) = PrimFloat.abs x).
  { apply Prim2SF_inj. rewrite !abs_spec.
    destruct (Prim2SF x); reflexivity. }
  rewrite Eopp, Eabs1, Eabs2.
  repeat match goal with |- _ /\ _ => split end; try reflexivity.
  - destruct (PrimFloat.ltb x 0); [lia|].
    destruct (PrimFloat.ltb 0 x); lia.
  - destruct (PrimFloat.ltb x 0); [lia|].
    destruct (PrimFloat.ltb 0 x); lia.
  - destruct (PrimFloat.ltb x 0) eqn:Ex, (PrimFloat.ltb 0 x) eqn:Ey;
      try reflexivity. discriminate L5.
  - destruct (PrimFloat.ltb x 0) eqn:Ex, (PrimFloat.ltb 0 x) eqn:Ey;
      reflexivity.
Qed.

(** ** Addition, subtraction and multiplication on doubles *)

Lemma float_add_comm (x y : float) : (x + y)%float = (y + x)%float.
Proof.
  apply Prim2SF_inj. rewrite !add_spec. unfold SF64add, SFadd.
  destruct (Prim2SF x) as [sx|sx| |sx mx ex],
           (Prim2SF y) as [sy|sy| |sy my ey];
    try reflexivity; try (destruct sx, sy; reflexivity).
  rewrite (Z.min_comm ey ex).
  rewrite (Z.add_comm (cond_Zopp sy _)). reflexivity.
Qed.

Lemma float_mul_comm (x y : float) : (x * y)%float = (y * x)%float.
Proof.
  apply Prim2SF_inj. rewrite !mul_spec. unfold SF64mul, SFmul.
  destruct (Prim2SF x) as [sx|sx| |sx mx ex],
           (Prim2SF y) as [sy|sy| |sy my ey];
    try reflexivity; try (destruct sx, sy; reflexivity).
  rewrite (xorb_comm sy sx), (Pos.mul_comm my mx), (Z.add_comm ey ex).
  reflexivity.
Qed.

Lemma float_sub_add_opp (x y : float) : (x - y)%float = (x + - y)%float.
Proof.
  apply Prim2SF_inj. rewrite sub_spec, add_spec, opp_spec.
  unfold SF64sub, SFsub, SF64add, SFadd, SFopp.
  destruct (Prim2SF x) as [sx|sx| |sx mx ex],
           (Prim2SF y) as [sy|sy| |sy my ey];
    try reflexivity; destruct sx, sy; reflexivity.
Qed.

(** X26.  In the real domain [+] and [*] are commutative as evaluations, and
    [a - b] evaluates as [a + (-b)]: the same value, the same NULL flag and
    the same diagnostics, the overflow outcome included. *)
Theorem Item_func_plus_mul_real_op_commute :
  forall (this : Item_func) (thd : THD) (a0 a1 : real_arg),
    Item_func_plus_real_op this thd a0 a1
    = Item_func_plus_real_op this thd a1 a0
    /\ Item_func_mul_real_op this thd a0 a1
       = Item_func_mul_real_op this thd a1 a0
    /\ Item_func_minus_real_op this thd a0 a1
       = Item_func_plus_real_op this thd a0
           (as_real_arg (Item_func_neg_real_op this thd a1)).
Proof.
  intros this thd [x n0] [y n1].
  unfold Item_func_plus_real_op, Item_func_mul_real_op,
    Item_func_minus_real_op, Item_func_neg_real_op, as_real_arg, returned,
    is_null, node_after.
  cbn [val_real real_null_value fst snd set_null_value null_value].
  rewrite (float_add_comm y x), (float_mul_comm y x), (orb_comm n1 n0).
  split; [reflexivity|]. split; [reflexivity|].
  rewrite float_sub_add_opp. reflexivity.
Qed.

(** ** Addition, subtraction and multiplication of decimals *)

(** X28.  Decimal [+], [-] and [*].  A NULL operand gives NULL without a
    diagnostic, and the package is not asked.  Otherwise the operator is
    decided by the status of the package's primitive, one of the statuses of
    decimal.h: the primitive's value is returned, not NULL, for [E_DEC_OK],
    [E_DEC_TRUNCATED] and also [E_DEC_OVERFLOW]; the result is NULL for the
    statuses above; every status except [E_DEC_OK] and [E_DEC_TRUNCATED] is
    reported exactly once. *)
Theorem Item_func_decimal_op_status :
  forall (P : Decimal_package)
         (decimal_add decimal_sub decimal_mul :
            my_decimal P -> my_decimal P -> Z * my_decimal P)
         (this : Item_func) (thd : THD) (a0 a1 : dec_arg P),
    let plus := Item_func_plus_decimal_op P decimal_add this thd a0 a1 in
    let minus := Item_func_minus_decimal_op P decimal_sub this thd a0 a1 in
    let mul := Item_func_mul_decimal_op P decimal_mul this thd a0 a1 in
    let x := val_decimal P a0 in
    let y := val_decimal P a1 in
    let known (st : Z) :=
      In st [E_DEC_OK; E_DEC_TRUNCATED; E_DEC_OVERFLOW; E_DEC_DIV_ZERO;
             E_DEC_BAD_NUM; E_DEC_OOM] in
    (dec_null_value P a0 = true \/ dec_null_value P a1 = true ->
       plus = (None, set_null_value this true, thd)
       /\ minus = (None, set_null_value this true, thd)
       /\ mul = (None, set_null_value this true, thd))
    /\ (dec_null_value P a0 = false -> dec_null_value P a1 = false ->
        (known (fst (decimal_add x y)) ->
           plus = decimal_outcome this thd (fst (decimal_add x y))
                    (snd (decimal_add x y)))
        /\ (known (fst (decimal_sub x y)) ->
              minus = decimal_outcome this thd (fst (decimal_sub x y))
                        (snd (decimal_sub x y)))
        /\ (known (fst (decimal_mul x y)) ->
              mul = decimal_outcome this thd (fst (decimal_mul x y))
                      (snd (decimal_mul x y)))).
Proof.
  intros P decimal_add decimal_sub decimal_mul this thd [x n0] [y n1]
    plus minus mul x' y' known.
  subst plus minus mul x' y' known.
  unfold Item_func_plus_decimal_op, Item_func_minus_decimal_op,
    Item_func_mul_decimal_op, my_decimal_add, my_decimal_sub, my_decimal_mul.
  cbn [val_decimal dec_null_value set_null_value null_value].
  split.
  - intros [->| ->]; [repeat split|].
    destruct n0; repeat split.
  - intros -> ->.
    assert (H : forall (st : Z) (v : my_decimal P),
              In st [E_DEC_OK; E_DEC_TRUNCATED; E_DEC_OVERFLOW;
                     E_DEC_DIV_ZERO; E_DEC_BAD_NUM; E_DEC_OOM] ->
              (let '(st0, decimal_value, thd0) :=
                 (st, v,
                  check_result
                    (Z.land E_DEC_FATAL_ERROR (Z.lnot E_DEC_OVERFLOW))
                    thd st) in
               let '(err, thd1) := check_decimal_overflow thd0 st0 in
               if 3 <? err
               then (None, set_null_value this true, thd1)
               else (Some decimal_value, set_null_value this false, thd1))
              = decimal_outcome this thd st v).
    { intros st v Hst. cbn [In] in Hst.
      destruct Hst as [<-|[<-|[<-|[<-|[<-|[<-|[]]]]]]]; reflexivity. }
    repeat split; intros Hst.
    + destruct (decimal_add x y) as [st v]. apply H. exact Hst.
    + destruct (decimal_sub x y) as [st v]. apply H. exact Hst.
    + destruct (decimal_mul x y) as [st v]. apply H. exact Hst.
Qed.

(** X28 at concrete operands: [1.5 + 2.25] is [3.75] on the fixed-point
    package. *)
Lemma Item_func_decimal_op_status_witness :
  Item_func_plus_decimal_op fixed_point_package fixed_point_add fresh_node
    default_thd
    (mk_dec_arg fixed_point_package (mk_fixed_point 15 1) false)
    (mk_dec_arg fixed_point_package (mk_fixed_point 225 2) false)
  = (Some (mk_fixed_point 375 2), fresh_node, default_thd).
Proof.
  destruct (Item_func_decimal_op_status fixed_point_package fixed_point_add
              fixed_point_sub fixed_point_mul fresh_node default_thd
              (mk_dec_arg fixed_point_package (mk_fixed_point 15 1) false)
              (mk_dec_arg fixed_point_package (mk_fixed_point 225 2) false))
    as (_ & H).
  destruct (H eq_refl eq_refl) as (Hp & _).
  etransitivity; [apply Hp | reflexivity].
  left. reflexivity.
Defined.

(** ** CEILING and FLOOR *)

(** X29.  CEILING and FLOOR of an integer operand whose length leaves room
    in a [longlong] (fewer than [DECIMAL_LONGLONG_DIGITS - 2] characters
    before the point): resolution keeps the integer domain, scale 0 and the
    operand's signedness, and evaluation returns the operand unchanged, its
    NULL state included, without a diagnostic.  A longer integer operand is
    resolved to the decimal domain.  A NULL operand gives NULL in the decimal
    and the real domain too, and the decimal package is not asked. *)
Theorem Item_func_ceiling_floor_integer_operand :
  forall (D : Decls) (P : Decimal_package)
         (decimal_ceiling decimal_floor : my_decimal P -> Z * my_decimal P)
         (double_to_longlong : float -> Z) (m : Libm)
         (this : Item_func) (thd : THD) (it : Item) (a0 : field_operand P),
    cast_to_int_type it = INT_RESULT ->
    item_result_type it = INT_RESULT ->
    arg_unsigned_flag (op_val_int P a0) = item_unsigned_flag it ->
    let node := Item_func_int_val_fix_length_and_dec D this it in
    let ceiling :=
      Item_func_ceiling_int_op P decimal_ceiling double_to_longlong m node
        thd (item_result_type it) a0 in
    let floor :=
      Item_func_floor_int_op P decimal_floor double_to_longlong m node thd
        (item_result_type it) a0 in
    let digits := uint32 (item_max_length it - item_decimals it) in
    decimals node = 0
    /\ (DECIMAL_LONGLONG_DIGITS D - 2 <= digits ->
        result_type node = DECIMAL_RESULT)
    /\ (digits < DECIMAL_LONGLONG_DIGITS D - 2 ->
        result_type node = INT_RESULT
        /\ unsigned_flag node = item_unsigned_flag it
        /\ ceiling = floor
        /\ is_null ceiling = arg_null_value (op_val_int P a0)
        /\ int_value (unsigned_flag (node_after ceiling)) (returned ceiling)
           = arg_value (op_val_int P a0)
        /\ thd_after ceiling = thd)
    /\ (dec_null_value P (op_val_decimal P a0) = true ->
        Item_func_ceiling_decimal_op P decimal_ceiling node thd
          (op_val_decimal P a0)
        = (None, set_null_value node true, thd)
        /\ Item_func_floor_decimal_op P decimal_floor node thd
             (op_val_decimal P a0)
           = (None, set_null_value node true, thd))
    /\ (real_null_value (op_val_real P a0) = true ->
        is_null (Item_func_ceiling_real_op m node thd (op_val_real P a0))
        = true
        /\ is_null (Item_func_floor_real_op m node thd (op_val_real P a0))
           = true).
Proof.
  intros D P decimal_ceiling decimal_floor double_to_longlong m this thd it
    a0 Hc Hr Hu node ceiling floor digits.
  subst ceiling floor. rewrite Hr.
  assert (Hd : decimals node = 0).
  { subst node. unfold Item_func_int_val_fix_length_and_dec. rewrite Hc.
    destruct (_ <=? _); reflexivity. }
  repeat match goal with |- _ /\ _ => split end.
  - exact Hd.
  - intros Hlong. subst node digits.
    unfold Item_func_int_val_fix_length_and_dec. rewrite Hc.
    destruct (Z.leb_spec (DECIMAL_LONGLONG_DIGITS D - 2)
                (uint32 (item_max_length it - item_decimals it)));
      [reflexivity | lia].
  - intros Hshort.
    assert (Hn : result_type node = INT_RESULT
                 /\ unsigned_flag node = item_unsigned_flag it).
    { subst node digits. unfold Item_func_int_val_fix_length_and_dec.
      rewrite Hc.
      destruct (Z.leb_spec (DECIMAL_LONGLONG_DIGITS D - 2)
                  (uint32 (item_max_length it - item_decimals it)));
        [lia | split; reflexivity]. }
    destruct Hn as (Hn1 & Hn2).
    repeat match goal with |- _ /\ _ => split end;
      try assumption; try reflexivity.
    unfold Item_func_ceiling_int_op, returned, node_after, arg_value.
    cbn [fst snd]. rewrite Hu.
    destruct node; cbn in *. rewrite Hn2. reflexivity.
  - intros Hnull.
    unfold Item_func_ceiling_decimal_op, Item_func_floor_decimal_op.
    rewrite Hnull. split; reflexivity.
  - intros Hnull.
    unfold Item_func_ceiling_real_op, Item_func_floor_real_op, is_null.
    cbn. rewrite Hnull. split; reflexivity.
Qed.

(** X29 at concrete operands: CEILING and FLOOR of the value 7 of an INT
    column are 7, in the integer domain. *)
Lemma Item_func_ceiling_floor_integer_operand_witness :
  let a0 :=
    mk_field_operand fixed_point_package None (mk_int_arg 7 false false)
      (mk_dec_arg fixed_point_package (mk_fixed_point 7 0) false)
      (mk_real_arg 7 false) in
  let node :=
    Item_func_int_val_fix_length_and_dec sample_decls fresh_node
      (int_column_item 7 false) in
  result_type node = INT_RESULT
  /\ returned
       (Item_func_ceiling_int_op fixed_point_package fixed_point_ceiling
          sample_double_to_longlong host_libm node default_thd INT_RESULT a0)
     = 7
  /\ returned
       (Item_func_floor_int_op fixed_point_package fixed_point_floor
          sample_double_to_longlong host_libm node default_thd INT_RESULT a0)
     = 7.
Proof.
  intros a0 node.
  destruct (Item_func_ceiling_floor_integer_operand sample_decls
              fixed_point_package fixed_point_ceiling fixed_point_floor
              sample_double_to_longlong host_libm fresh_node default_thd
              (int_column_item 7 false) a0 eq_refl eq_refl eq_refl)
    as (_ & _ & H & _).
  destruct H as (H1 & _ & H3 & _ & H5 & _); [vm_compute; reflexivity|].
  split; [exact H1|].
  split; [exact H5|].
  rewrite H3 in H5. exact H5.
Defined.

(** ** LEAST and GREATEST of strings *)

(** The buffer handed to the next operand is not the one that holds the
    extreme so far. *)
Lemma operand_val_str_keeps (a : str_operand) (res : String_ptr)
    (st : str_store) :
  deref
    (snd (operand_val_str a (if is_str res then BUF_tmp_value else BUF_str)
            st))
    res
  = deref st res.
Proof.
  destruct a as [|s|s]; destruct res as [[|]|r]; reflexivity.
Qed.

(** What the operand's pointer designates after its [val_str] is its
    value. *)
Lemma operand_val_str_value (a : str_operand) (buf : str_buffer)
    (st : str_store) :
  option_map (deref (snd (operand_val_str a buf st)))
    (fst (operand_val_str a buf st))
  = str_value a.
Proof.
  destruct a as [|s|s]; destruct buf; reflexivity.
Qed.

Lemma operand_null_value_str_value (a : str_operand) :
  operand_null_value a = true <-> str_value a = None.
Proof.
  destruct a; cbn; split; congruence.
Qed.

(** The loop on pointers and buffers computes the extreme of the values. *)
Lemma min_max_str_loop_extreme (sortcmp : String -> String -> Z)
    (cmp_sign : Z) (args : list str_operand) :
  forall (res : String_ptr) (st : str_store) (this : Item_func),
    null_value this = false ->
    let '(r, st', this') := min_max_str_loop sortcmp cmp_sign args res st this in
    option_map (deref st') r
    = extreme_string sortcmp cmp_sign (deref st res) (map str_value args)
    /\ null_value this'
       = match option_map (deref st') r with
         | None => true
         | Some _ => false
         end.
Proof.
  induction args as [|a rest IH]; intros res st this Hn.
  - cbn. split; [reflexivity | exact Hn].
  - cbn [min_max_str_loop map extreme_string].
    pose proof (operand_val_str_keeps a res st) as Hk.
    pose proof (operand_val_str_value a
                  (if is_str res then BUF_tmp_value else BUF_str) st) as Hv.
    destruct (operand_val_str a
                (if is_str res then BUF_tmp_value else BUF_str) st)
      as [res2 st2].
    cbn [fst snd] in Hk, Hv.
    destruct a as [|s|s]; cbn [operand_null_value str_value] in *.
    + destruct this; cbn. split; reflexivity.
    + destruct res2 as [res2|]; [|discriminate].
      cbn [option_map] in Hv. injection Hv as Hv.
      rewrite Hv, Hk.
      assert (Hn' : null_value (set_null_value this false) = false)
        by (destruct this; reflexivity).
      rewrite Hn'.
      set (res' := if _ <? 0 then res2 else res).
      specialize (IH res' st2 (set_null_value this false) Hn').
      replace (deref st2 res')
        with (if (if cmp_sign <? 0 then sortcmp (deref st res) s
                  else - sortcmp (deref st res) s) <? 0
              then s else deref st res) in IH
        by (subst res'; destruct (_ <? 0); congruence).
      exact IH.
    + destruct res2 as [res2|]; [|discriminate].
      cbn [option_map] in Hv. injection Hv as Hv.
      rewrite Hv, Hk.
      assert (Hn' : null_value (set_null_value this false) = false)
        by (destruct this; reflexivity).
      rewrite Hn'.
      set (res' := if _ <? 0 then res2 else res).
      specialize (IH res' st2 (set_null_value this false) Hn').
      replace (deref st2 res')
        with (if (if cmp_sign <? 0 then sortcmp (deref st res) s
                  else - sortcmp (deref st res) s) <? 0
              then s else deref st res) in IH
        by (subst res'; destruct (_ <? 0); congruence).
      exact IH.
Qed.

(** One comparison of the loop: the string kept is one of the two, and what
    was not beyond the old one is not beyond the new one. *)
Lemma extreme_string_step (sortcmp : String -> String -> Z) (cmp_sign : Z)
    (res s : String) :
  orders sortcmp ->
  let beyond (r t : String) :=
    if cmp_sign <? 0 then sortcmp t r <= 0 else sortcmp r t <= 0 in
  let res' :=
    if (if cmp_sign <? 0 then sortcmp res s else - sortcmp res s) <? 0
    then s else res in
  (res' = s \/ res' = res)
  /\ beyond res' s
  /\ (forall t, beyond res t -> beyond res' t).
Proof.
  intros (Hrefl & Hanti & Htrans) beyond res'. subst beyond res'.
  pose proof (Hanti res s) as A1. pose proof (Hanti s res) as A2.
  pose proof (Hrefl s) as R.
  destruct (cmp_sign <? 0).
  - destruct (Z.ltb_spec (sortcmp res s) 0) as [Hc|Hc].
    + split; [left; reflexivity|]. split; [lia|].
      intros t Ht. apply Htrans with res; [exact Ht | lia].
    + split; [right; reflexivity|]. split; [lia|].
      intros t Ht. exact Ht.
  - destruct (Z.ltb_spec (- sortcmp res s) 0) as [Hc|Hc].
    + split; [left; reflexivity|]. split; [lia|].
      intros t Ht. apply Htrans with res; [lia | exact Ht].
    + split; [right; reflexivity|]. split; [lia|].
      intros t Ht. exact Ht.
Qed.

(** The extreme is one of the values, and no value lies beyond it. *)
Lemma extreme_string_spec (sortcmp : String -> String -> Z) (cmp_sign : Z) :
  orders sortcmp ->
  forall (vals : list (option String)) (res r : String) (seen : list String),
    In res seen ->
    (forall t, In t seen ->
       if cmp_sign <? 0 then sortcmp t res <= 0 else sortcmp res t <= 0) ->
    extreme_string sortcmp cmp_sign res vals = Some r ->
    (In r seen \/ In (Some r) vals)
    /\ (forall t, In t seen \/ In (Some t) vals ->
          if cmp_sign <? 0 then sortcmp t r <= 0 else sortcmp r t <= 0).
Proof.
  intros Hord.
  induction vals as [|[s|] rest IH]; intros res r seen Hin Hseen E.
  - cbn in E. injection E as <-. split; [left; exact Hin|].
    intros t [Ht|[]]. apply Hseen, Ht.
  - cbn [extreme_string] in E.
    destruct (extreme_string_step sortcmp cmp_sign res s Hord)
      as (Hwhich & Hs & Hkeep).
    set (res' := if _ <? 0 then s else res) in *.
    clearbody res'.
    destruct (IH res' r (s :: seen)) as (H1 & H2).
    + destruct Hwhich as [->| ->]; [left; reflexivity | right; exact Hin].
    + intros t [<-|Ht]; [exact Hs | apply Hkeep, Hseen, Ht].
    + exact E.
    + split.
      * destruct H1 as [[<-|H1]|H1].
        -- right. left. reflexivity.
        -- left. exact H1.
        -- right. right. exact H1.
      * intros t [Ht|[Ht|Ht]].
        -- apply H2. left. right. exact Ht.
        -- injection Ht as <-. apply H2. left. left. reflexivity.
        -- apply H2. right. exact Ht.
  - discriminate E.
Qed.

(** Comparing byte by byte orders the strings. *)
Lemma compare_bytes_orders : orders compare_bytes.
Proof.
  split; [|split].
  - induction a as [|x a IH]; [reflexivity|].
    cbn. rewrite Z.ltb_irrefl. exact IH.
  - induction a as [|x a IH]; intros [|y b]; cbn; try lia.
    destruct (Z.ltb_spec (byte_code x) (byte_code y));
      destruct (Z.ltb_spec (byte_code y) (byte_code x)); try lia.
    apply IH.
  - induction a as [|x a IH]; intros [|y b] [|z c]; cbn; try lia;
      repeat match goal with
             | |- context [?u <? ?v] => destruct (Z.ltb_spec u v)
             end;
      try lia.
    apply IH.
Qed.

(** X30.  LEAST and GREATEST of strings.  The result is NULL exactly when an
    operand is NULL.  Otherwise it is the extreme of the operands' values
    under the collation, whether an operand returns its value in the buffer
    it is given or in storage of its own and whatever the two buffers held
    before: the buffer that holds the extreme so far is never handed to the
    next operand.  When the collation orders the strings, the result is the
    value of an operand, and no operand's value is smaller (LEAST) or larger
    (GREATEST). *)
Theorem Item_func_min_max_val_str_extreme :
  forall (sortcmp : String -> String -> Z) (cmp_sign : Z)
         (this : Item_func) (st : str_store) (a0 : str_operand)
         (args : list str_operand),
    let r := Item_func_min_max_val_str sortcmp cmp_sign this st a0 args in
    let vals := map str_value (a0 :: args) in
    (fst r = None <-> In None vals)
    /\ null_value (snd r)
       = match fst r with None => true | Some _ => false end
    /\ (forall s0, str_value a0 = Some s0 ->
        fst r = extreme_string sortcmp cmp_sign s0 (map str_value args))
    /\ (orders sortcmp ->
        forall s, fst r = Some s ->
          In (Some s) vals
          /\ forall t, In (Some t) vals ->
               if cmp_sign <? 0 then sortcmp t s <= 0 else sortcmp s t <= 0).
Proof.
  intros sortcmp cmp_sign this st a0 args r vals.
  assert (Hnull : forall vs res,
            extreme_string sortcmp cmp_sign res vs = None <-> In None vs).
  { induction vs as [|[s|] vs IH]; intros res; cbn.
    - split; [discriminate | intros []].
    - rewrite IH. split; [tauto | intros [H|H]; [discriminate | exact H]].
    - split; [left; reflexivity | reflexivity]. }
  assert (E : str_value a0 = None /\ r = (None, set_null_value this true)
              \/ exists s0, str_value a0 = Some s0
                   /\ fst r
                      = extreme_string sortcmp cmp_sign s0
                          (map str_value args)
                   /\ null_value (snd r)
                      = match fst r with None => true | Some _ => false end).
  { subst r. unfold Item_func_min_max_val_str.
    destruct a0 as [|s0|s0]; cbn [operand_val_str operand_null_value].
    - left. split; [reflexivity|]. destruct this; reflexivity.
    - right. exists s0. split; [reflexivity|].
      assert (Hn' : null_value (set_null_value this false) = false)
        by (destruct this; reflexivity).
      rewrite Hn'.
      pose proof (min_max_str_loop_extreme sortcmp cmp_sign args
                    (Ptr_buffer BUF_str) (write_buffer st BUF_str s0)
                    (set_null_value this false) Hn') as H.
      destruct (min_max_str_loop _ _ _ _ _ _) as [[res st'] this'].
      cbn [fst snd]. exact H.
    - right. exists s0. split; [reflexivity|].
      assert (Hn' : null_value (set_null_value this false) = false)
        by (destruct this; reflexivity).
      rewrite Hn'.
      pose proof (min_max_str_loop_extreme sortcmp cmp_sign args
                    (Ptr_own s0) st (set_null_value this false) Hn') as H.
      destruct (min_max_str_loop _ _ _ _ _ _) as [[res st'] this'].
      cbn [fst snd]. exact H. }
  subst vals. cbn [map].
  destruct E as [(E0 & Er)|(s0 & E0 & Er & En)].
  - rewrite Er, E0. cbn [fst snd].
    repeat match goal with |- _ /\ _ => split end.
    + split; [left; reflexivity | reflexivity].
    + destruct this; reflexivity.
    + discriminate.
    + discriminate.
  - rewrite E0.
    repeat match goal with |- _ /\ _ => split end.
    + rewrite Er, Hnull. cbn [In].
      split; [tauto | intros [H|H]; [discriminate | exact H]].
    + exact En.
    + intros s0' [= <-]. exact Er.
    + intros Hord s Hs. rewrite Er in Hs.
      destruct (extreme_string_spec sortcmp cmp_sign Hord
                  (map str_value args) s0 s [s0]) as (H1 & H2).
      * left. reflexivity.
      * intros t [<-|[]]. destruct Hord as (Hrefl & _).
        rewrite Hrefl. destruct (cmp_sign <? 0); lia.
      * exact Hs.
      * split.
        -- destruct H1 as [[<-|[]]|H1]; [left; reflexivity | right; exact H1].
        -- intros t [Ht|Ht]; apply H2.
           ++ injection Ht as <-. left. left. reflexivity.
           ++ right. exact Ht.
Qed.

(** X30 at concrete operands: LEAST('b', 'a', 'c') is 'a'; the first operand
    is returned in the caller's buffer, the second in the node's buffer and
    the third is written over the caller's buffer. *)
Lemma Item_func_min_max_val_str_extreme_witness :
  let a := [Byte.x61] in
  let b := [Byte.x62] in
  let c := [Byte.x63] in
  fst (Item_func_min_max_val_str compare_bytes 1 fresh_node
         (mk_str_store [] []) (Str_in_buffer b)
         [Str_in_buffer a; Str_in_buffer c])
  = Some a
  /\ compare_bytes a b <= 0 /\ compare_bytes a c <= 0.
Proof.
  intros a b c.
  destruct (Item_func_min_max_val_str_extreme compare_bytes 1 fresh_node
              (mk_str_store [] []) (Str_in_buffer b)
              [Str_in_buffer a; Str_in_buffer c])
    as (_ & _ & H3 & H4).
  specialize (H3 b eq_refl).
  split; [exact H3|].
  destruct (H4 compare_bytes_orders a H3) as (_ & H5).
  split.
  - apply (H5 b). left. reflexivity.
  - apply (H5 c). right. right. left. reflexivity.
Defined.
